(** * Music tutor: real-time core, shallow embedding and checked properties

  The development follows the Python sources module by module:

  - [NoteProc]   : [src/midi/note_processor_new.py]  (MIDI event processor)
  - [PhraseData] : [src/music/phrase.py]             (notes and phrases)
  - [Player]     : [src/music/phrase_player.py]      (downbeat computation)
  - [Synth]      : [src/audio/synthesizer.py]        (note synthesis core)
  - [Drum]       : [src/audio/drum_engine.py]        (rhythm generator tempo)
  - [Listening]  : [src/music/listening_manager.py] and
                   [src/evaluation/claude_evaluator.py] (session state machine)
  - [Scenarios]  : concrete phrases, libraries and runs
  - [NoteProcMore] : [src/midi/note_processor_new.py] (event streams,
                   [finalize_notes], [clear_session])
  - [PhraseMore] : [src/music/phrase.py]             (queries, [to_dict] and
                   [from_dict], [create_simple_scale_phrase])
  - [SynthMore]  : [src/audio/synthesizer.py]        (note count, envelope)
  - [DrumAudio]  : [src/audio/drum_engine.py]        (queue of drum chunks,
                   beat boundaries)
  - [Engine]     : [src/audio/engine.py]             (mixing, start and stop)
  - [ManagerMore] : [src/music/listening_manager.py] (the manager's downbeat)

  The definitions come first, the theorems about them after, in [...Facts]
  modules that follow the source modules.

  Conventions.  Python [int] is [Z].  Python [float] quantities (wall-clock
  instants, beat offsets, durations, samples) are modelled by exact rationals
  [Q]: rounding is not represented, so every statement below is about the
  arithmetic the code writes down, with ideal numbers.  A Python [dict] used
  as a map is a [gmap]; where the insertion order of a dict is observable it
  is an association list.  [Optional[T]] is [option T], a raised exception is
  an explicit error result. *)

From Stdlib Require Import ZArith QArith Qround Lia Lqa List.
From stdpp Require Import gmap strings list fin_maps.
Import ListNotations.

Local Open Scope Z_scope.

(** ** Arithmetic shared by the modules *)

Definition Qmax (a b : Q) : Q := if Qle_bool a b then b else a.
Definition Qmin (a b : Q) : Q := if Qle_bool a b then a else b.

(** Python's [x % m] on floats for a positive modulus: the result has the
  sign of [m], i.e. [x - m * floor (x / m)]. *)
Definition Qpymod (x m : Q) : Q := (x - m * inject_Z (Qfloor (x / m)))%Q.

(** Python's [int(x)]: truncation toward zero. *)
Definition Qtrunc (x : Q) : Z := Z.quot (Qnum x) (Zpos (Qden x)).

(** ** MIDI event processor *)

Module NoteProc.

(** [MIDINote]: a processed note with timing information. *)
Record MIDINote := mkMIDINote {
  pitch : Z;
  velocity : Z;
  timestamp : Q;             (* start time relative to session start *)
  duration : option Q        (* seconds *)
}.

(** [NoteProcessor]: [active_notes] maps pitch to (velocity, start). *)
Record NoteProcessor := mkNoteProcessor {
  active_notes : gmap Z (Z * Q);
  completed_notes : list MIDINote;
  session_start_time : option Q
}.

Definition init : NoteProcessor :=
  {| active_notes := ∅; completed_notes := []; session_start_time := None |}.

(** [_handle_note_on] *)
Definition _handle_note_on (np : NoteProcessor) (p v : Z) (ts : option Q)
  : NoteProcessor * option MIDINote :=
  match ts with
  | None => (np, None)
  | Some t =>
    let '(completed_note, completed) :=
      match active_notes np !! p with
      | Some (prev_velocity, start_time) =>
        match session_start_time np with
        | Some s0 =>
          let n := {| pitch := p; velocity := prev_velocity;
                      timestamp := (start_time - s0)%Q;
                      duration := Some (t - start_time)%Q |} in
          (Some n, completed_notes np ++ [n])
        | None => (None, completed_notes np)
        end
      | None => (None, completed_notes np)
      end in
    ({| active_notes := <[p := (v, t)]> (active_notes np);
        completed_notes := completed;
        session_start_time := session_start_time np |},
     completed_note)
  end.

(** [_handle_note_off] *)
Definition _handle_note_off (np : NoteProcessor) (p v : Z) (ts : option Q)
  : NoteProcessor * option MIDINote :=
  match ts with
  | None => (np, None)
  | Some t =>
    match active_notes np !! p with
    | None => (np, None)
    | Some (start_velocity, start_time) =>
      let '(d, nts) :=
        match session_start_time np with
        | Some s0 => ((t - start_time)%Q, (start_time - s0)%Q)
        | None => (0%Q, 0%Q)
        end in
      let n := {| pitch := p; velocity := start_velocity;
                  timestamp := nts; duration := Some d |} in
      ({| active_notes := delete p (active_notes np);
          completed_notes := completed_notes np ++ [n];
          session_start_time := session_start_time np |},
       Some n)
    end
  end.

(** [process_midi_event message timestamp]; [now] is the value [time.time()]
    would return, used when [timestamp] is [None]. *)
Definition process_midi_event (np : NoteProcessor) (message : list Z)
    (timestamp : option Q) (now : Q) : NoteProcessor * option MIDINote :=
  match message with
  | [] => (np, None)
  | status_byte :: data =>
    let t := default now timestamp in
    let np1 :=
      match session_start_time np with
      | None => {| active_notes := active_notes np;
                   completed_notes := completed_notes np;
                   session_start_time := Some t |}
      | Some _ => np
      end in
    let message_type := Z.land status_byte 0xF0 in
    match data with
    | d1 :: d2 :: _ =>
      if message_type =? 0x90 then
        if d2 =? 0 then _handle_note_off np1 d1 d2 (Some t)
        else _handle_note_on np1 d1 d2 (Some t)
      else if message_type =? 0x80 then _handle_note_off np1 d1 d2 (Some t)
      else (np1, None)   (* control change, pitch bend, ...: no-ops *)
    | _ => (np1, None)
    end
  end.

(** [finalize_notes]: closes every open note at [current_time]. *)
Definition finalize_notes (np : NoteProcessor) (current_time : Q)
  : NoteProcessor * list MIDINote :=
  let close (kv : Z * (Z * Q)) :=
    let '(p, (v, t)) := kv in
    match session_start_time np with
    | Some s0 => {| pitch := p; velocity := v; timestamp := (t - s0)%Q;
                    duration := Some (current_time - t)%Q |}
    | None => {| pitch := p; velocity := v; timestamp := 0%Q;
                 duration := Some 0%Q |}
    end in
  let all := completed_notes np ++ map close (map_to_list (active_notes np)) in
  ({| active_notes := ∅; completed_notes := all;
      session_start_time := session_start_time np |}, all).

End NoteProc.

(** ** Notes and phrases *)

(** Outcome of a constructor that validates its arguments. *)
Inductive error :=
| ValueError (msg : string)
| TypeError
| ZeroDivisionError.

Inductive result (A : Type) :=
| Ok (a : A)
| Raise (e : error).
Arguments Ok {A} a.
Arguments Raise {A} e.

Definition Qltb (a b : Q) : bool := negb (Qle_bool b a).

Module PhraseData.

(** [MusicalNote]: the dataclass fields, in declaration order. *)
Record MusicalNote := mkNote {
  pitch : Z;          (* MIDI note number *)
  start_time : Q;     (* beat position within the phrase *)
  duration : Q;       (* length in beats *)
  velocity : Z        (* MIDI velocity *)
}.

(** The ranges [__post_init__] checks. *)
Definition note_args_valid (p : Z) (s d : Q) (v : Z) : Prop :=
  0 <= p <= 127 /\ 0 <= v <= 127 /\ (0 <= s)%Q /\ (0 < d)%Q.

(** Construction: the generated [__init__] followed by [__post_init__]. *)
Definition MusicalNote_new (p : Z) (s d : Q) (v : Z) : result MusicalNote :=
  if negb ((0 <=? p) && (p <=? 127)) then
    Raise (ValueError "MIDI pitch must be 0-127")
  else if negb ((0 <=? v) && (v <=? 127)) then
    Raise (ValueError "MIDI velocity must be 0-127")
  else if Qltb s 0 then
    Raise (ValueError "Start time must be >= 0")
  else if Qle_bool d 0 then
    Raise (ValueError "Duration must be > 0")
  else Ok (mkNote p s d v).

(** Attribute assignment [note.pitch = v] and the like.  [MusicalNote] is
  declared with a plain [@dataclass], without [frozen=True], so the class has
  the default [__setattr__]: the field is rebound and [__post_init__] does not
  run again. *)
Definition assign_pitch (n : MusicalNote) (v : Z) : MusicalNote :=
  mkNote v (start_time n) (duration n) (velocity n).
Definition assign_start_time (n : MusicalNote) (v : Q) : MusicalNote :=
  mkNote (pitch n) v (duration n) (velocity n).
Definition assign_duration (n : MusicalNote) (v : Q) : MusicalNote :=
  mkNote (pitch n) (start_time n) v (velocity n).
Definition assign_velocity (n : MusicalNote) (v : Z) : MusicalNote :=
  mkNote (pitch n) (start_time n) (duration n) v.

(** Values a metadata dictionary ([Dict[str, Any]]) holds in this program. *)
Inductive value :=
  | VInt (z : Z)
  | VFloat (q : Q)
  | VStr (s : string)
  | VPair (a b : Z).

Definition as_number (v : value) : option Q :=
  match v with
  | VInt z => Some (inject_Z z)
  | VFloat q => Some q
  | _ => None
  end.

(** [dict.setdefault]. *)
Definition setdefault (k : string) (v : value) (m : gmap string value)
  : gmap string value :=
  match m !! k with
  | Some _ => m
  | None => <[k := v]> m
  end.

Definition with_defaults (metadata : gmap string value) : gmap string value :=
  setdefault "description" (VStr "Musical phrase")
  (setdefault "time_signature" (VPair 4 4)
  (setdefault "bars" (VInt 2)
  (setdefault "tempo" (VInt 120)
  (setdefault "key" (VStr "D_dorian")
  (setdefault "difficulty" (VInt 2)
  (setdefault "style" (VStr "modal_jazz") metadata)))))).

(** [x in [1, 2, 4]]: membership by [==], which never raises. *)
Definition in_1_2_4 (v : value) : bool :=
  match as_number v with
  | Some q => Qeq_bool q 1 || Qeq_bool q 2 || Qeq_bool q 4
  | None => false
  end.

(** [_validate_metadata] *)
Definition _validate_metadata (metadata : gmap string value)
  : result (gmap string value) :=
  let validated := with_defaults metadata in
  match validated !! "difficulty", validated !! "bars", validated !! "tempo" with
  | Some dv, Some bv, Some tv =>
    match as_number dv with
    | None => Raise TypeError
    | Some d =>
      if negb (Qle_bool 1 d && Qle_bool d 5) then
        Raise (ValueError "Difficulty must be 1-5")
      else if negb (in_1_2_4 bv) then
        Raise (ValueError "Bars must be 1, 2, or 4")
      else
        match as_number tv with
        | None => Raise TypeError
        | Some t =>
          if Qle_bool t 0 then Raise (ValueError "Tempo must be > 0")
          else Ok validated
        end
    end
  | _, _, _ => Raise TypeError   (* unreachable: the keys were just defaulted *)
  end.

Record Phrase := mkPhrase {
  notes : list MusicalNote;
  metadata : gmap string value
}.

(** [Phrase.__init__] *)
Definition Phrase_new (ns : list MusicalNote) (md : gmap string value)
  : result Phrase :=
  match _validate_metadata md with
  | Ok validated => Ok (mkPhrase ns validated)
  | Raise e => Raise e
  end.

(** The predicate the validation decides. *)
Definition metadata_valid (md : gmap string value) : Prop :=
  exists d b t,
    (md !! "difficulty" ≫= as_number) = Some d /\
    (md !! "bars" ≫= as_number) = Some b /\
    (md !! "tempo" ≫= as_number) = Some t /\
    (1 <= d)%Q /\ (d <= 5)%Q /\
    (b == 1 \/ b == 2 \/ b == 4)%Q /\
    (0 < t)%Q.

(** Accessors used by the scheduler and the session. *)
Definition bars (ph : Phrase) : Z :=
  match metadata ph !! "bars" with
  | Some (VInt z) => z
  | Some (VFloat q) => Qtrunc q
  | _ => 0
  end.
Definition measures (ph : Phrase) : Z := bars ph.
Definition id (ph : Phrase) : string :=
  match metadata ph !! "id" with
  | Some (VStr s) => s
  | _ => "unknown"
  end.
Definition len (ph : Phrase) : nat := length (notes ph).

(** [Phrase([], {})], used as a stand-in for a missing phrase. *)
Definition empty_phrase : Phrase := mkPhrase [] (with_defaults ∅).

End PhraseData.

(** ** Phrase playback scheduler: downbeat computation *)

Module Player.

Record PhrasePlayer := mkPlayer {
  session_start_time : option Q;
  beat_interval : Q;
  current_bpm : Z
}.

Definition init : PhrasePlayer :=
  {| session_start_time := None; beat_interval := 60 / 120; current_bpm := 120 |}.

(** [set_session_timing]: [60.0 / bpm] raises on [bpm = 0]. *)
Definition set_session_timing (pp : PhrasePlayer) (s : Q) (bpm : Z)
  : result PhrasePlayer :=
  if bpm =? 0 then Raise ZeroDivisionError
  else Ok {| session_start_time := Some s;
             beat_interval := 60 / inject_Z bpm;
             current_bpm := bpm |}.

Definition BEATS_PER_MEASURE : Q := 4.

(** [_calculate_next_downbeat]; [now] is what [time.time()] returns. *)
Definition _calculate_next_downbeat (pp : PhrasePlayer) (now : Q) : Q :=
  match session_start_time pp with
  | None => now
  | Some s =>
    let current_time := now in
    let elapsed_time := current_time - s in
    let current_beat_position := elapsed_time / beat_interval pp in
    let beats_in_current_measure :=
      Qpymod current_beat_position BEATS_PER_MEASURE in
    let beats_until_next_downbeat :=
      if Qltb beats_in_current_measure (1 # 1000) then 0
      else BEATS_PER_MEASURE - beats_in_current_measure in
    let time_until_next_downbeat :=
      beats_until_next_downbeat * beat_interval pp in
    current_time + time_until_next_downbeat
  end%Q.

(** The wait the playback worker performs before its first note. *)
Definition downbeat_wait (pp : PhrasePlayer) (now : Q) : Q :=
  match session_start_time pp with
  | None => 0
  | Some _ =>
    let wait_time := _calculate_next_downbeat pp now - now in
    if Qltb 0 wait_time then wait_time else 0
  end%Q.

(** Position of [c] inside its measure, in beats, for anchor [s] and beat
  interval [b]. *)
Definition beats_in_measure (s b c : Q) : Q := Qpymod ((c - s) / b) 4.

(** [x] is a whole number of measures of [4 * b] seconds. *)
Definition on_measure_boundary (b x : Q) : Prop :=
  exists k : Z, (x == inject_Z k * (4 * b))%Q.

End Player.

(** ** Note synthesis core *)

Module Synth.

(** [ActiveNote]: a currently playing note. *)
Record ActiveNote := mkActiveNote {
  midi_note : Z;
  frequency : Q;
  velocity : Q;
  start_time : Q;
  phase : Q
}.

(** [ADSREnvelope] with the constructor's default arguments. *)
Record ADSREnvelope := mkEnvelope {
  attack : Q;
  decay : Q;
  sustain : Q;
  release : Q
}.

Definition default_envelope : ADSREnvelope :=
  {| attack := 1 # 100; decay := 1 # 10; sustain := 7 # 10; release := 3 # 10 |}.

(** [ADSREnvelope.get_amplitude] *)
Definition get_amplitude (env : ADSREnvelope) (time_since_start : Q)
    (note_released : bool) (time_since_release : Q) : Q :=
  (if note_released then
     if Qle_bool (release env) time_since_release then 0
     else sustain env * (1 - time_since_release / release env)
   else if Qltb time_since_start (attack env) then
     time_since_start / attack env
   else if Qltb time_since_start (attack env + decay env) then
     let decay_progress := (time_since_start - attack env) / decay env in
     1 - decay_progress * (1 - sustain env)
   else sustain env)%Q.

Record AudioSynthesizer := mkSynth {
  sample_rate : Z;
  buffer_size : Z;
  active_notes : gmap Z ActiveNote;
  released_notes : gmap Z (ActiveNote * Q);   (* note, release time *)
  envelope : ADSREnvelope;
  master_volume : Q
}.

(** [AudioSynthesizer.__init__] *)
Definition init (rate size : Z) : AudioSynthesizer :=
  {| sample_rate := rate; buffer_size := size;
     active_notes := ∅; released_notes := ∅;
     envelope := default_envelope; master_volume := 3 # 10 |}.

(** [note_off].  The class defines the method twice; the later definition
  is the one in force, and both have this effect on the two collections. *)
Definition note_off (s : AudioSynthesizer) (p : Z) (now : Q) : AudioSynthesizer :=
  match active_notes s !! p with
  | Some note =>
    {| sample_rate := sample_rate s; buffer_size := buffer_size s;
       active_notes := delete p (active_notes s);
       released_notes := <[p := (note, now)]> (released_notes s);
       envelope := envelope s; master_volume := master_volume s |}
  | None => s
  end.

(** [stop_all_notes] *)
Definition stop_all_notes (s : AudioSynthesizer) : AudioSynthesizer :=
  {| sample_rate := sample_rate s; buffer_size := buffer_size s;
     active_notes := ∅; released_notes := ∅;
     envelope := envelope s; master_volume := master_volume s |}.

(** [np.clip(x, lo, hi)] on one sample. *)
Definition clip (lo hi x : Q) : Q := Qmin (Qmax x lo) hi.

(** [buffer += note_buffer] *)
Definition add_buffers (buffer note_buffer : list Q) : list Q :=
  zip_with Qplus buffer note_buffer.

Section Oscillator.

(** The transcendental functions of the floating-point library are taken as
  they come: [sin] is [np.sin], [two_pi] is [2.0 * np.pi] and [pow2 x] is
  [2.0 ** x].  Nothing is assumed about them. *)
Variable sin : Q -> Q.
Variable two_pi : Q.
Variable pow2 : Q -> Q.

(** [midi_to_frequency] *)
Definition midi_to_frequency (p : Z) : Q :=
  (440 * pow2 ((inject_Z p - 69) / 12))%Q.

(** [note_on] *)
Definition note_on (s : AudioSynthesizer) (p velocity : Z) (now : Q)
  : AudioSynthesizer :=
  let frequency := midi_to_frequency p in
  let velocity_float := (inject_Z velocity / 127)%Q in
  {| sample_rate := sample_rate s; buffer_size := buffer_size s;
     active_notes :=
       <[p := {| midi_note := p; frequency := frequency;
                 velocity := velocity_float; start_time := now;
                 phase := 0 |}]> (active_notes s);
     released_notes := delete p (released_notes s);
     envelope := envelope s; master_volume := master_volume s |}.

(** The sample loop of [_generate_note_samples]: [k] iterations remain, the
  next index is [i].  Leaving the loop by [break] keeps the zeros the
  buffer was created with. *)
Fixpoint sample_loop (env : ADSREnvelope) (dt : Q) (note : ActiveNote)
    (note_released : bool) (time_since_start time_since_release : Q)
    (k i : nat) (ph : Q) : list Q * Q :=
  match k with
  | O => ([], ph)
  | S k' =>
    let idt := (inject_Z (Z.of_nat i) * dt)%Q in
    let sample_time_since_start := (time_since_start + idt)%Q in
    let sample_time_since_release :=
      if note_released then (time_since_release + idt)%Q else 0%Q in
    let amplitude :=
      get_amplitude env sample_time_since_start note_released
                    sample_time_since_release in
    if Qle_bool amplitude 0 then (replicate k 0%Q, ph)
    else
      let sample := (sin ph * velocity note * amplitude)%Q in
      let ph1 := (ph + two_pi * frequency note * dt)%Q in
      let ph2 := if Qle_bool two_pi ph1 then (ph1 - two_pi)%Q else ph1 in
      let '(rest, ph') :=
        sample_loop env dt note note_released time_since_start
                    time_since_release k' (S i) ph2 in
      (sample :: rest, ph')
  end.

(** [_generate_note_samples]: the samples and the note with its phase
  advanced (the note object is updated in place). *)
Definition _generate_note_samples (s : AudioSynthesizer) (note : ActiveNote)
    (num_samples : nat) (current_time : Q) (release_time : option Q)
  : list Q * ActiveNote :=
  let dt := (1 / inject_Z (sample_rate s))%Q in
  let time_since_start := (current_time - start_time note)%Q in
  let note_released := match release_time with Some _ => true | None => false end in
  let time_since_release :=
    match release_time with
    | Some r => if Qeq_bool r 0 then 0%Q else (current_time - r)%Q
    | None => 0%Q
    end in
  let '(samples, ph) :=
    sample_loop (envelope s) dt note note_released time_since_start
                time_since_release num_samples 0 (phase note) in
  (samples,
   {| midi_note := midi_note note; frequency := frequency note;
      velocity := velocity note; start_time := start_time note; phase := ph |}).

(** What one pass of [generate_audio_buffer] leaves of a released entry:
  the note with its phase advanced, or nothing when the release tail is
  over. *)
Definition after_release_pass (s : AudioSynthesizer) (num_samples : nat)
    (current_time : Q) (entry : ActiveNote * Q) : option (ActiveNote * Q) :=
  let '(note, release_time) := entry in
  let time_since_release := (current_time - release_time)%Q in
  if Qle_bool (release (envelope s)) time_since_release then None
  else Some (snd (_generate_note_samples s note num_samples current_time
                                         (Some release_time)), release_time).

(** [generate_audio_buffer]: the buffer and the synthesizer afterwards.
  The notes of each collection are visited in key order here; the sum
  does not depend on the order. *)
Definition generate_audio_buffer (s : AudioSynthesizer) (num_samples : nat)
    (current_time : Q) : list Q * AudioSynthesizer :=
  let buffer0 := replicate num_samples 0%Q in
  let buffer1 :=
    foldl (fun buffer kv =>
             add_buffers buffer
               (fst (_generate_note_samples s (snd kv) num_samples
                                            current_time None)))
          buffer0 (map_to_list (active_notes s)) in
  let buffer2 :=
    foldl (fun buffer kv =>
             add_buffers buffer
               (fst (_generate_note_samples s (fst (snd kv)) num_samples
                                            current_time (Some (snd (snd kv))))))
          buffer1 (map_to_list (released_notes s)) in
  let active' :=
    (fun note => snd (_generate_note_samples s note num_samples current_time None))
      <$> active_notes s in
  let released' :=
    omap (after_release_pass s num_samples current_time) (released_notes s) in
  let buffer3 := (fun x => (x * master_volume s)%Q) <$> buffer2 in
  (clip (-1) 1 <$> buffer3,
   {| sample_rate := sample_rate s; buffer_size := buffer_size s;
      active_notes := active'; released_notes := released';
      envelope := envelope s; master_volume := master_volume s |}).

(** The operations of the synthesizer, for statements over all runs. *)
Inductive op :=
  | NoteOn (p velocity : Z) (now : Q)
  | NoteOff (p : Z) (now : Q)
  | Generate (num_samples : nat) (now : Q)
  | StopAll.

Definition apply_op (s : AudioSynthesizer) (o : op) : AudioSynthesizer :=
  match o with
  | NoteOn p v now => note_on s p v now
  | NoteOff p now => note_off s p now
  | Generate n now => snd (generate_audio_buffer s n now)
  | StopAll => stop_all_notes s
  end.

Definition run (s : AudioSynthesizer) (ops : list op) : AudioSynthesizer :=
  foldl apply_op s ops.

End Oscillator.

(** Configurations on which no division of the sample loop or of the
  envelope has a zero divisor (Python would raise there): a nonzero sample
  rate and positive attack, decay and release times.  The constructor's
  defaults satisfy it, and no operation changes these fields. *)
Definition config_ok (s : AudioSynthesizer) : Prop :=
  sample_rate s <> 0 /\
  (0 < attack (envelope s))%Q /\ (0 < decay (envelope s))%Q /\
  (0 < release (envelope s))%Q.

(** No pitch is a key of both collections. *)
Definition disjoint_notes (s : AudioSynthesizer) : Prop :=
  forall p : Z, ~ (is_Some (active_notes s !! p) /\ is_Some (released_notes s !! p)).

End Synth.

(** ** Rhythm generator: tempo *)

Module Drum.

Record DrumEngine := mkDrum {
  bpm : Z;
  is_playing : bool;
  current_genre : string;
  session_start_time : option Q
}.

(** [DrumEngine.__init__] *)
Definition init : DrumEngine :=
  {| bpm := 100; is_playing := false; current_genre := "modal_jazz";
     session_start_time := None |}.

Definition patterns : list string := ["modal_jazz"; "blues"; "folk"]%string.

(** [set_bpm] *)
Definition set_bpm (d : DrumEngine) (b : Z) : DrumEngine :=
  {| bpm := Z.max 60 (Z.min 180 b); is_playing := is_playing d;
     current_genre := current_genre d;
     session_start_time := session_start_time d |}.

(** [set_genre] *)
Definition set_genre (d : DrumEngine) (genre : string) : DrumEngine :=
  if bool_decide (genre ∈ patterns) then
    {| bpm := bpm d; is_playing := is_playing d; current_genre := genre;
       session_start_time := session_start_time d |}
  else d.

(** [start_drumming] *)
Definition start_drumming (d : DrumEngine) (start : option Q) : DrumEngine :=
  if is_playing d then d
  else {| bpm := bpm d; is_playing := true; current_genre := current_genre d;
          session_start_time := start |}.

(** [stop_drumming] *)
Definition stop_drumming (d : DrumEngine) : DrumEngine :=
  if is_playing d then
    {| bpm := bpm d; is_playing := false; current_genre := current_genre d;
       session_start_time := session_start_time d |}
  else d.

(** [_drum_loop]: the beat duration the loop works with. *)
Definition beat_duration (d : DrumEngine) : Q := 60 / inject_Z (bpm d).

(** [_drum_loop]: position within the measure after [elapsed] seconds. *)
Definition measure_position (d : DrumEngine) (elapsed : Q) : Q :=
  let measure_duration := (beat_duration d * 4)%Q in
  (Qpymod elapsed measure_duration / beat_duration d + 1)%Q.

Inductive op :=
  | SetBpm (b : Z)
  | SetGenre (g : string)
  | StartDrumming (start : option Q)
  | StopDrumming.

Definition apply_op (d : DrumEngine) (o : op) : DrumEngine :=
  match o with
  | SetBpm b => set_bpm d b
  | SetGenre g => set_genre d g
  | StartDrumming s => start_drumming d s
  | StopDrumming => stop_drumming d
  end.

Definition run (d : DrumEngine) (ops : list op) : DrumEngine :=
  foldl apply_op d ops.

(** The beat duration the phrase scheduler uses at session tempo [t]
  ([_playback_worker]: [60.0 / self.current_bpm]). *)
Definition phrase_beat_duration (t : Z) : Q := 60 / inject_Z t.

End Drum.

(** ** Session state machine: evaluation results, captured events, session *)

Module Listening.
Import PhraseData.

(** *** Evaluator ([evaluation/claude_evaluator.py]) *)

(** [ClaudeEvaluation] *)
Record ClaudeEvaluation := mkEvaluation {
  grade : string;
  positive_feedback : string;
  improvement_feedback : string;
  recommendation : string;
  confidence : Q;
  raw_response : string
}.

(** [ClaudeEvaluator.get_fallback_evaluation] *)
Definition get_fallback_evaluation (target_phrase student_phrase : Phrase)
  : ClaudeEvaluation :=
  let note_count_ratio :=
    (inject_Z (Z.of_nat (length (notes student_phrase))) /
     inject_Z (Z.max (Z.of_nat (length (notes target_phrase))) 1))%Q in
  if Qle_bool (8 # 10) note_count_ratio then
    {| grade := "B+";
       positive_feedback := "Good effort attempting the full phrase!";
       improvement_feedback :=
         "Continue practicing to refine pitch and timing accuracy.";
       recommendation := "REPEAT"; confidence := 1 # 2;
       raw_response := "Fallback evaluation - Claude unavailable" |}
  else if Qle_bool (5 # 10) note_count_ratio then
    {| grade := "C+";
       positive_feedback := "Nice work on the notes you played!";
       improvement_feedback := "Try to play all the notes in the phrase.";
       recommendation := "REPEAT"; confidence := 1 # 2;
       raw_response := "Fallback evaluation - Claude unavailable" |}
  else
    {| grade := "C";
       positive_feedback := "Keep practicing - you're making progress!";
       improvement_feedback :=
         "Focus on listening carefully to the full phrase.";
       recommendation := "SIMPLIFY"; confidence := 1 # 2;
       raw_response := "Fallback evaluation - Claude unavailable" |}.

(** What a call of [ClaudeEvaluator.evaluate_phrase] can do, seen from
  [_evaluate_with_claude]: raise, return [None], or return an evaluation. *)
Inductive EvalOutcome :=
  | EvalRaised
  | EvalNone
  | EvalOk (e : ClaudeEvaluation).

(** *** Captured events and their conversion to a response phrase *)

(** The dictionaries appended to [_recorded_midi_events]. *)
Inductive MidiEvent :=
  | EvNoteOn (note velocity : Z) (timestamp : Q)
  | EvNoteOff (note : Z) (timestamp : Q).

Definition ev_timestamp (e : MidiEvent) : Q :=
  match e with EvNoteOn _ _ t => t | EvNoteOff _ t => t end.

(** A Python [dict] whose iteration order matters: assigning to a present key
  keeps its position, a new key goes last. *)
Fixpoint dict_set {V} (k : Z) (v : V) (d : list (Z * V)) : list (Z * V) :=
  match d with
  | [] => [(k, v)]
  | (k', v') :: d' => if k' =? k then (k, v) :: d' else (k', v') :: dict_set k v d'
  end.

Fixpoint dict_get {V} (k : Z) (d : list (Z * V)) : option V :=
  match d with
  | [] => None
  | (k', v') :: d' => if k' =? k then Some v' else dict_get k d'
  end.

Fixpoint dict_del {V} (k : Z) (d : list (Z * V)) : list (Z * V) :=
  match d with
  | [] => []
  | (k', v') :: d' => if k' =? k then d' else (k', v') :: dict_del k d'
  end.

(** Python's two-argument [max]: the second argument only if it is larger. *)
Definition pymax (a b : Q) : Q := if Qltb a b then b else a.

(** The first loop of [_convert_midi_recording_to_phrase]: [active_notes]
  holds, per pitch, the velocity and timestamp of the note-on waiting for its
  note-off.  A [MusicalNote] that fails validation aborts the loop. *)
Fixpoint pair_events (beats_per_second : Q) (events : list MidiEvent)
    (notes : list MusicalNote) (active_notes : list (Z * (Z * Q)))
  : result (list MusicalNote * list (Z * (Z * Q))) :=
  match events with
  | [] => Ok (notes, active_notes)
  | EvNoteOn n v t :: rest =>
    pair_events beats_per_second rest notes (dict_set n (v, t) active_notes)
  | EvNoteOff n t :: rest =>
    match dict_get n active_notes with
    | Some (start_velocity, start_timestamp) =>
      let start_beat := (start_timestamp * beats_per_second)%Q in
      let duration_beats := ((t - start_timestamp) * beats_per_second)%Q in
      match MusicalNote_new n start_beat (pymax (1 # 10) duration_beats)
                            start_velocity with
      | Ok note =>
        pair_events beats_per_second rest (notes ++ [note])
                    (dict_del n active_notes)
      | Raise e => Raise e
      end
    | None => pair_events beats_per_second rest notes active_notes
    end
  end.

(** The second loop: notes still on at the end get 0.5 beats. *)
Fixpoint close_open_notes (beats_per_second : Q)
    (active_notes : list (Z * (Z * Q))) (notes : list MusicalNote)
  : result (list MusicalNote) :=
  match active_notes with
  | [] => Ok notes
  | (note_num, (start_velocity, start_timestamp)) :: rest =>
    let start_beat := (start_timestamp * beats_per_second)%Q in
    match MusicalNote_new note_num start_beat (1 # 2) start_velocity with
    | Ok note => close_open_notes beats_per_second rest (notes ++ [note])
    | Raise e => Raise e
    end
  end.

(** [max(note.start_time + note.duration for note in notes)] *)
Definition phrase_duration_beats (first : MusicalNote) (rest : list MusicalNote) : Q :=
  foldl (fun m n => pymax m (start_time n + duration n)%Q)
        (start_time first + duration first)%Q rest.

Definition response_metadata (bpm : Z) (phrase_id : string)
    (events : list MidiEvent) (bars_value : Z) : gmap string value :=
  list_to_map
    [ ("id", VStr phrase_id);
      ("description", VStr "Student Response");
      ("style", VStr "student_response");
      ("difficulty", VInt 1);
      ("key", VStr "unknown");
      ("tempo", VInt bpm);
      ("bars", VInt bars_value);
      ("time_signature", VPair 4 4);
      ("recorded_events", VInt (Z.of_nat (length events)));
      ("recording_duration",
       VFloat (match last events with Some e => ev_timestamp e | None => 0%Q end)) ]%string.

(** The body of the [try] block. *)
Definition convert_body (bpm : Z) (phrase_id : string) (events : list MidiEvent)
  : result (option Phrase) :=
  let beats_per_second := (inject_Z bpm / 60)%Q in
  match pair_events beats_per_second events [] [] with
  | Raise e => Raise e
  | Ok (notes1, active_notes) =>
    match close_open_notes beats_per_second active_notes notes1 with
    | Raise e => Raise e
    | Ok [] => Ok None
    | Ok (n0 :: ns) =>
      let duration := phrase_duration_beats n0 ns in
      let estimated_bars := Z.max 1 (Qtrunc (duration / 4)) in
      let metadata :=
        response_metadata bpm phrase_id events (Z.min estimated_bars 4) in
      match Phrase_new (n0 :: ns) metadata with
      | Ok ph => Ok (Some ph)
      | Raise e => Raise e
      end
    end
  end.

(** [_convert_midi_recording_to_phrase]: [None] when nothing was recorded,
  when no note results, and when anything in the body raises. *)
Definition _convert_midi_recording_to_phrase (bpm : Z) (phrase_id : string)
    (events : list MidiEvent) : option Phrase :=
  match events with
  | [] => None
  | _ =>
    match convert_body bpm phrase_id events with
    | Ok r => r
    | Raise _ => None
    end
  end.

(** Where a note of the response comes from: a captured note-on of its
  pitch, whose velocity and (scaled) timestamp it carries, and either the
  fallback duration of 0.5 beats or the clamped distance to a captured
  note-off of that pitch. *)
Definition note_origin (events : list MidiEvent) (beats_per_second : Q)
    (n : MusicalNote) : Prop :=
  exists t_on,
    In (EvNoteOn (pitch n) (velocity n) t_on) events /\
    start_time n = (t_on * beats_per_second)%Q /\
    (duration n = 1 # 2 \/
     exists t_off,
       In (EvNoteOff (pitch n) t_off) events /\
       duration n = pymax (1 # 10) ((t_off - t_on) * beats_per_second)%Q).

Definition note_valid (n : MusicalNote) : Prop :=
  note_args_valid (pitch n) (start_time n) (duration n) (velocity n).

(** *** The session *)

Inductive SessionState :=
  | IDLE
  | PLAYBACK
  | LISTENING
  | RECORDING_RESPONSE
  | FEEDBACK.

#[global] Instance SessionState_eq_dec : EqDecision SessionState.
Proof. solve_decision. Defined.

Record ListeningConfig := mkConfig {
  input_timeout : Q;
  response_measures : Z;
  bpm : Z
}.

Definition get_response_duration (c : ListeningConfig) : Q :=
  let beats_per_measure := 4 in
  let total_beats := response_measures c * beats_per_measure in
  (inject_Z total_beats * 60 / inject_Z (bpm c))%Q.

(** An emitted [SessionEvent]: its type, the state at emission and, for the
  evaluation events, the evaluation carried in the payload. *)
Record SessionEvent := mkEvent {
  event_type : string;
  event_state : SessionState;
  event_evaluation : option ClaudeEvaluation
}.

(** Background threads started by the session and still due to act: the
  listening workers, the recording workers (asleep for the response
  duration), and the evaluation workers before and after their evaluation
  (the latter asleep for the display pause). *)
Record Threads := mkThreads {
  listening_workers : nat;
  recording_workers : nat;
  evaluation_workers : nat;
  evaluation_sleepers : nat
}.

(** The phrase library, an external collaborator. *)
Record PhraseLibrary := mkLibrary {
  filter_phrases : string -> Z -> list Phrase;
  get_phrases_by_style : string -> list Phrase
}.

(** [PhraseListeningManager]: the attributes the state machine reads and
  writes.  ([_midi_notes_playing], [_active_note_starts] and [beat_interval]
  are written but never read by the code modelled here.) *)
Record Manager := mkManager {
  state : SessionState;
  session_active : bool;
  config : ListeningConfig;
  session_start_time : option Q;
  user_input_detected : bool;
  response_start_time : option Q;
  recording_active : bool;
  recorded_midi_events : list MidiEvent;
  current_phrase : option Phrase;
  phrases_completed : Z;
  last_student_phrase : option Phrase;
  initial_difficulty : option Z;
  initial_style : string;
  phrase_attempt_history : gmap string (list string);
  current_phrase_attempts : Z;
  last_recommendation : option string;
  stop_listening : bool;   (* the [_stop_listening] event flag *)
  threads : Threads;   (* worker threads still due to act *)
  emitted : list SessionEvent;   (* events handed to the callbacks, oldest first *)
  transitions : list (SessionState * SessionState)   (* the 'State transition: old -> new' log lines *)
}.

(** Attribute assignment [self.f = v], one function per attribute. *)
Definition set_state (v : SessionState) (m : Manager) : Manager :=
  {| state := v; session_active := session_active m; config := config m;
     session_start_time := session_start_time m; user_input_detected :=
     user_input_detected m; response_start_time := response_start_time m;
     recording_active := recording_active m; recorded_midi_events :=
     recorded_midi_events m; current_phrase := current_phrase m;
     phrases_completed := phrases_completed m; last_student_phrase :=
     last_student_phrase m; initial_difficulty := initial_difficulty m;
     initial_style := initial_style m; phrase_attempt_history :=
     phrase_attempt_history m; current_phrase_attempts :=
     current_phrase_attempts m; last_recommendation := last_recommendation m;
     stop_listening := stop_listening m; threads := threads m; emitted :=
     emitted m; transitions := transitions m |}.
Definition set_session_active (v : bool) (m : Manager) : Manager :=
  {| state := state m; session_active := v; config := config m;
     session_start_time := session_start_time m; user_input_detected :=
     user_input_detected m; response_start_time := response_start_time m;
     recording_active := recording_active m; recorded_midi_events :=
     recorded_midi_events m; current_phrase := current_phrase m;
     phrases_completed := phrases_completed m; last_student_phrase :=
     last_student_phrase m; initial_difficulty := initial_difficulty m;
     initial_style := initial_style m; phrase_attempt_history :=
     phrase_attempt_history m; current_phrase_attempts :=
     current_phrase_attempts m; last_recommendation := last_recommendation m;
     stop_listening := stop_listening m; threads := threads m; emitted :=
     emitted m; transitions := transitions m |}.
Definition set_config (v : ListeningConfig) (m : Manager) : Manager :=
  {| state := state m; session_active := session_active m; config := v;
     session_start_time := session_start_time m; user_input_detected :=
     user_input_detected m; response_start_time := response_start_time m;
     recording_active := recording_active m; recorded_midi_events :=
     recorded_midi_events m; current_phrase := current_phrase m;
     phrases_completed := phrases_completed m; last_student_phrase :=
     last_student_phrase m; initial_difficulty := initial_difficulty m;
     initial_style := initial_style m; phrase_attempt_history :=
     phrase_attempt_history m; current_phrase_attempts :=
     current_phrase_attempts m; last_recommendation := last_recommendation m;
     stop_listening := stop_listening m; threads := threads m; emitted :=
     emitted m; transitions := transitions m |}.
Definition set_session_start_time (v : option Q) (m : Manager) : Manager :=
  {| state := state m; session_active := session_active m; config := config m;
     session_start_time := v; user_input_detected := user_input_detected m;
     response_start_time := response_start_time m; recording_active :=
     recording_active m; recorded_midi_events := recorded_midi_events m;
     current_phrase := current_phrase m; phrases_completed :=
     phrases_completed m; last_student_phrase := last_student_phrase m;
     initial_difficulty := initial_difficulty m; initial_style :=
     initial_style m; phrase_attempt_history := phrase_attempt_history m;
     current_phrase_attempts := current_phrase_attempts m; last_recommendation
     := last_recommendation m; stop_listening := stop_listening m; threads :=
     threads m; emitted := emitted m; transitions := transitions m |}.
Definition set_user_input_detected (v : bool) (m : Manager) : Manager :=
  {| state := state m; session_active := session_active m; config := config m;
     session_start_time := session_start_time m; user_input_detected := v;
     response_start_time := response_start_time m; recording_active :=
     recording_active m; recorded_midi_events := recorded_midi_events m;
     current_phrase := current_phrase m; phrases_completed :=
     phrases_completed m; last_student_phrase := last_student_phrase m;
     initial_difficulty := initial_difficulty m; initial_style :=
     initial_style m; phrase_attempt_history := phrase_attempt_history m;
     current_phrase_attempts := current_phrase_attempts m; last_recommendation
     := last_recommendation m; stop_listening := stop_listening m; threads :=
     threads m; emitted := emitted m; transitions := transitions m |}.
Definition set_response_start_time (v : option Q) (m : Manager) : Manager :=
  {| state := state m; session_active := session_active m; config := config m;
     session_start_time := session_start_time m; user_input_detected :=
     user_input_detected m; response_start_time := v; recording_active :=
     recording_active m; recorded_midi_events := recorded_midi_events m;
     current_phrase := current_phrase m; phrases_completed :=
     phrases_completed m; last_student_phrase := last_student_phrase m;
     initial_difficulty := initial_difficulty m; initial_style :=
     initial_style m; phrase_attempt_history := phrase_attempt_history m;
     current_phrase_attempts := current_phrase_attempts m; last_recommendation
     := last_recommendation m; stop_listening := stop_listening m; threads :=
     threads m; emitted := emitted m; transitions := transitions m |}.
Definition set_recording_active (v : bool) (m : Manager) : Manager :=
  {| state := state m; session_active := session_active m; config := config m;
     session_start_time := session_start_time m; user_input_detected :=
     user_input_detected m; response_start_time := response_start_time m;
     recording_active := v; recorded_midi_events := recorded_midi_events m;
     current_phrase := current_phrase m; phrases_completed :=
     phrases_completed m; last_student_phrase := last_student_phrase m;
     initial_difficulty := initial_difficulty m; initial_style :=
     initial_style m; phrase_attempt_history := phrase_attempt_history m;
     current_phrase_attempts := current_phrase_attempts m; last_recommendation
     := last_recommendation m; stop_listening := stop_listening m; threads :=
     threads m; emitted := emitted m; transitions := transitions m |}.
Definition set_recorded_midi_events (v : list MidiEvent) (m : Manager) : Manager :=
  {| state := state m; session_active := session_active m; config := config m;
     session_start_time := session_start_time m; user_input_detected :=
     user_input_detected m; response_start_time := response_start_time m;
     recording_active := recording_active m; recorded_midi_events := v;
     current_phrase := current_phrase m; phrases_completed :=
     phrases_completed m; last_student_phrase := last_student_phrase m;
     initial_difficulty := initial_difficulty m; initial_style :=
     initial_style m; phrase_attempt_history := phrase_attempt_history m;
     current_phrase_attempts := current_phrase_attempts m; last_recommendation
     := last_recommendation m; stop_listening := stop_listening m; threads :=
     threads m; emitted := emitted m; transitions := transitions m |}.
Definition set_current_phrase (v : option Phrase) (m : Manager) : Manager :=
  {| state := state m; session_active := session_active m; config := config m;
     session_start_time := session_start_time m; user_input_detected :=
     user_input_detected m; response_start_time := response_start_time m;
     recording_active := recording_active m; recorded_midi_events :=
     recorded_midi_events m; current_phrase := v; phrases_completed :=
     phrases_completed m; last_student_phrase := last_student_phrase m;
     initial_difficulty := initial_difficulty m; initial_style :=
     initial_style m; phrase_attempt_history := phrase_attempt_history m;
     current_phrase_attempts := current_phrase_attempts m; last_recommendation
     := last_recommendation m; stop_listening := stop_listening m; threads :=
     threads m; emitted := emitted m; transitions := transitions m |}.
Definition set_phrases_completed (v : Z) (m : Manager) : Manager :=
  {| state := state m; session_active := session_active m; config := config m;
     session_start_time := session_start_time m; user_input_detected :=
     user_input_detected m; response_start_time := response_start_time m;
     recording_active := recording_active m; recorded_midi_events :=
     recorded_midi_events m; current_phrase := current_phrase m;
     phrases_completed := v; last_student_phrase := last_student_phrase m;
     initial_difficulty := initial_difficulty m; initial_style :=
     initial_style m; phrase_attempt_history := phrase_attempt_history m;
     current_phrase_attempts := current_phrase_attempts m; last_recommendation
     := last_recommendation m; stop_listening := stop_listening m; threads :=
     threads m; emitted := emitted m; transitions := transitions m |}.
Definition set_last_student_phrase (v : option Phrase) (m : Manager) : Manager :=
  {| state := state m; session_active := session_active m; config := config m;
     session_start_time := session_start_time m; user_input_detected :=
     user_input_detected m; response_start_time := response_start_time m;
     recording_active := recording_active m; recorded_midi_events :=
     recorded_midi_events m; current_phrase := current_phrase m;
     phrases_completed := phrases_completed m; last_student_phrase := v;
     initial_difficulty := initial_difficulty m; initial_style :=
     initial_style m; phrase_attempt_history := phrase_attempt_history m;
     current_phrase_attempts := current_phrase_attempts m; last_recommendation
     := last_recommendation m; stop_listening := stop_listening m; threads :=
     threads m; emitted := emitted m; transitions := transitions m |}.
Definition set_initial_difficulty (v : option Z) (m : Manager) : Manager :=
  {| state := state m; session_active := session_active m; config := config m;
     session_start_time := session_start_time m; user_input_detected :=
     user_input_detected m; response_start_time := response_start_time m;
     recording_active := recording_active m; recorded_midi_events :=
     recorded_midi_events m; current_phrase := current_phrase m;
     phrases_completed := phrases_completed m; last_student_phrase :=
     last_student_phrase m; initial_difficulty := v; initial_style :=
     initial_style m; phrase_attempt_history := phrase_attempt_history m;
     current_phrase_attempts := current_phrase_attempts m; last_recommendation
     := last_recommendation m; stop_listening := stop_listening m; threads :=
     threads m; emitted := emitted m; transitions := transitions m |}.
Definition set_initial_style (v : string) (m : Manager) : Manager :=
  {| state := state m; session_active := session_active m; config := config m;
     session_start_time := session_start_time m; user_input_detected :=
     user_input_detected m; response_start_time := response_start_time m;
     recording_active := recording_active m; recorded_midi_events :=
     recorded_midi_events m; current_phrase := current_phrase m;
     phrases_completed := phrases_completed m; last_student_phrase :=
     last_student_phrase m; initial_difficulty := initial_difficulty m;
     initial_style := v; phrase_attempt_history := phrase_attempt_history m;
     current_phrase_attempts := current_phrase_attempts m; last_recommendation
     := last_recommendation m; stop_listening := stop_listening m; threads :=
     threads m; emitted := emitted m; transitions := transitions m |}.
Definition set_phrase_attempt_history (v : gmap string (list string)) (m : Manager) : Manager :=
  {| state := state m; session_active := session_active m; config := config m;
     session_start_time := session_start_time m; user_input_detected :=
     user_input_detected m; response_start_time := response_start_time m;
     recording_active := recording_active m; recorded_midi_events :=
     recorded_midi_events m; current_phrase := current_phrase m;
     phrases_completed := phrases_completed m; last_student_phrase :=
     last_student_phrase m; initial_difficulty := initial_difficulty m;
     initial_style := initial_style m; phrase_attempt_history := v;
     current_phrase_attempts := current_phrase_attempts m; last_recommendation
     := last_recommendation m; stop_listening := stop_listening m; threads :=
     threads m; emitted := emitted m; transitions := transitions m |}.
Definition set_current_phrase_attempts (v : Z) (m : Manager) : Manager :=
  {| state := state m; session_active := session_active m; config := config m;
     session_start_time := session_start_time m; user_input_detected :=
     user_input_detected m; response_start_time := response_start_time m;
     recording_active := recording_active m; recorded_midi_events :=
     recorded_midi_events m; current_phrase := current_phrase m;
     phrases_completed := phrases_completed m; last_student_phrase :=
     last_student_phrase m; initial_difficulty := initial_difficulty m;
     initial_style := initial_style m; phrase_attempt_history :=
     phrase_attempt_history m; current_phrase_attempts := v;
     last_recommendation := last_recommendation m; stop_listening :=
     stop_listening m; threads := threads m; emitted := emitted m; transitions
     := transitions m |}.
Definition set_last_recommendation (v : option string) (m : Manager) : Manager :=
  {| state := state m; session_active := session_active m; config := config m;
     session_start_time := session_start_time m; user_input_detected :=
     user_input_detected m; response_start_time := response_start_time m;
     recording_active := recording_active m; recorded_midi_events :=
     recorded_midi_events m; current_phrase := current_phrase m;
     phrases_completed := phrases_completed m; last_student_phrase :=
     last_student_phrase m; initial_difficulty := initial_difficulty m;
     initial_style := initial_style m; phrase_attempt_history :=
     phrase_attempt_history m; current_phrase_attempts :=
     current_phrase_attempts m; last_recommendation := v; stop_listening :=
     stop_listening m; threads := threads m; emitted := emitted m; transitions
     := transitions m |}.
Definition set_stop_listening (v : bool) (m : Manager) : Manager :=
  {| state := state m; session_active := session_active m; config := config m;
     session_start_time := session_start_time m; user_input_detected :=
     user_input_detected m; response_start_time := response_start_time m;
     recording_active := recording_active m; recorded_midi_events :=
     recorded_midi_events m; current_phrase := current_phrase m;
     phrases_completed := phrases_completed m; last_student_phrase :=
     last_student_phrase m; initial_difficulty := initial_difficulty m;
     initial_style := initial_style m; phrase_attempt_history :=
     phrase_attempt_history m; current_phrase_attempts :=
     current_phrase_attempts m; last_recommendation := last_recommendation m;
     stop_listening := v; threads := threads m; emitted := emitted m;
     transitions := transitions m |}.
Definition set_threads (v : Threads) (m : Manager) : Manager :=
  {| state := state m; session_active := session_active m; config := config m;
     session_start_time := session_start_time m; user_input_detected :=
     user_input_detected m; response_start_time := response_start_time m;
     recording_active := recording_active m; recorded_midi_events :=
     recorded_midi_events m; current_phrase := current_phrase m;
     phrases_completed := phrases_completed m; last_student_phrase :=
     last_student_phrase m; initial_difficulty := initial_difficulty m;
     initial_style := initial_style m; phrase_attempt_history :=
     phrase_attempt_history m; current_phrase_attempts :=
     current_phrase_attempts m; last_recommendation := last_recommendation m;
     stop_listening := stop_listening m; threads := v; emitted := emitted m;
     transitions := transitions m |}.
Definition set_emitted (v : list SessionEvent) (m : Manager) : Manager :=
  {| state := state m; session_active := session_active m; config := config m;
     session_start_time := session_start_time m; user_input_detected :=
     user_input_detected m; response_start_time := response_start_time m;
     recording_active := recording_active m; recorded_midi_events :=
     recorded_midi_events m; current_phrase := current_phrase m;
     phrases_completed := phrases_completed m; last_student_phrase :=
     last_student_phrase m; initial_difficulty := initial_difficulty m;
     initial_style := initial_style m; phrase_attempt_history :=
     phrase_attempt_history m; current_phrase_attempts :=
     current_phrase_attempts m; last_recommendation := last_recommendation m;
     stop_listening := stop_listening m; threads := threads m; emitted := v;
     transitions := transitions m |}.
Definition set_transitions (v : list (SessionState * SessionState)) (m : Manager) : Manager :=
  {| state := state m; session_active := session_active m; config := config m;
     session_start_time := session_start_time m; user_input_detected :=
     user_input_detected m; response_start_time := response_start_time m;
     recording_active := recording_active m; recorded_midi_events :=
     recorded_midi_events m; current_phrase := current_phrase m;
     phrases_completed := phrases_completed m; last_student_phrase :=
     last_student_phrase m; initial_difficulty := initial_difficulty m;
     initial_style := initial_style m; phrase_attempt_history :=
     phrase_attempt_history m; current_phrase_attempts :=
     current_phrase_attempts m; last_recommendation := last_recommendation m;
     stop_listening := stop_listening m; threads := threads m; emitted :=
     emitted m; transitions := v |}.

Definition set_response_measures (v : Z) (c : ListeningConfig) : ListeningConfig :=
  {| input_timeout := input_timeout c; response_measures := v; bpm := bpm c |}.
Definition set_bpm (v : Z) (c : ListeningConfig) : ListeningConfig :=
  {| input_timeout := input_timeout c; response_measures := response_measures c;
     bpm := v |}.

(** [PhraseListeningManager.__init__] *)
Definition init : Manager :=
  {| state := IDLE; session_active := false;
     config := {| input_timeout := 10; response_measures := 1; bpm := 120 |};
     session_start_time := None; user_input_detected := false;
     response_start_time := None; recording_active := false;
     recorded_midi_events := []; current_phrase := None;
     phrases_completed := 0; last_student_phrase := None;
     initial_difficulty := None; initial_style := "modal_jazz";
     phrase_attempt_history := ∅; current_phrase_attempts := 0;
     last_recommendation := None; stop_listening := false;
     threads := mkThreads 0 0 0 0; emitted := []; transitions := [] |}.

(** Truth value of an [Optional[Phrase]]: [Phrase] defines [__len__], so a
  phrase without notes is false, like [None]. *)
Definition phrase_truthy (o : option Phrase) : bool :=
  match o with
  | Some ph => negb (Nat.eqb (length (notes ph)) 0)
  | None => false
  end.

(** [x or Phrase([], {})] *)
Definition or_empty_phrase (o : option Phrase) : Phrase :=
  match o with
  | Some ph => if phrase_truthy o then ph else empty_phrase
  | None => empty_phrase
  end.

(** Truth value of an [Optional[float]]. *)
Definition time_truthy (o : option Q) : bool :=
  match o with
  | Some t => negb (Qeq_bool t 0)
  | None => false
  end.

(** [_emit_event] *)
Definition emit (ty : string) (ev : option ClaudeEvaluation) (m : Manager) : Manager :=
  set_emitted (emitted m ++ [mkEvent ty (state m) ev]) m.

(** [threading.Thread(...).start()] for each kind of worker. *)
Definition spawn_listening (m : Manager) : Manager :=
  let t := threads m in
  set_threads (mkThreads (S (listening_workers t)) (recording_workers t)
                         (evaluation_workers t) (evaluation_sleepers t)) m.
Definition spawn_recording (m : Manager) : Manager :=
  let t := threads m in
  set_threads (mkThreads (listening_workers t) (S (recording_workers t))
                         (evaluation_workers t) (evaluation_sleepers t)) m.
Definition spawn_evaluation (m : Manager) : Manager :=
  let t := threads m in
  set_threads (mkThreads (listening_workers t) (recording_workers t)
                         (S (evaluation_workers t)) (evaluation_sleepers t)) m.

(** [random.choice]; [rnd] is the draw.  [None] stands for the empty list
  (the code tests emptiness before it draws). *)
Definition random_choice (rnd : nat) (l : list Phrase) : option Phrase :=
  l !! (rnd mod length l)%nat.

Definition clears_phrase (r : string) : bool :=
  String.eqb r "SIMPLIFY" || String.eqb r "COMPLEXIFY"
  || String.eqb r "CURRENT_COMPLEXITY_NEW_PHRASE".

(** The end of [_enter_playback_state]: hand the phrase to the scheduler
  (external; it computes [60.0 / bpm], the session tempo is taken to be
  nonzero) and emit the event. *)
Definition start_playback (m : Manager) : Manager :=
  emit "phrase_playback_started" None m.

(** [_enter_playback_state].  The boolean tells that the call raised: the
  name [random] is local to the function (it is imported inside the branch
  that found phrases), so the fallback draw raises [UnboundLocalError]. *)
Definition _enter_playback_state (lib : PhraseLibrary) (rnd : nat) (m : Manager)
  : Manager * bool :=
  if negb (session_active m) then (m, false) else
  let m1 :=
    match last_recommendation m with
    | Some r => if clears_phrase r then set_current_phrase None m else m
    | None => m
    end in
  if negb (phrase_truthy (current_phrase m1)) then
    let target_difficulty :=
      match initial_difficulty m1 with
      | Some d => if d =? 0 then 1 else d
      | None => 1
      end in
    let target_style :=
      if String.eqb (initial_style m1) "" then "modal_jazz"%string
      else initial_style m1 in
    let '(target_difficulty, m2) :=
      match last_recommendation m1 with
      | Some r =>
        if String.eqb r "SIMPLIFY" then
          let d := Z.max 1 (target_difficulty - 1) in
          (d, set_initial_difficulty (Some d) m1)
        else if String.eqb r "COMPLEXIFY" then
          let d := Z.min 5 (target_difficulty + 1) in
          (d, set_initial_difficulty (Some d) m1)
        else (target_difficulty, m1)
      | None => (target_difficulty, m1)
      end in
    let m3 := set_last_recommendation None m2 in
    match random_choice rnd (filter_phrases lib target_style target_difficulty) with
    | Some ph =>
      let m4 := set_current_phrase_attempts 0 (set_current_phrase (Some ph) m3) in
      let m5 :=
        match phrase_attempt_history m4 !! id ph with
        | Some _ => m4
        | None => set_phrase_attempt_history
                    (<[id ph := []]> (phrase_attempt_history m4)) m4
        end in
      (start_playback m5, false)
    | None =>
      match get_phrases_by_style lib target_style with
      | [] => (m3, false)
      | _ :: _ => (m3, true)
      end
    end
  else
    (start_playback
       (set_current_phrase_attempts (current_phrase_attempts m1 + 1) m1), false).

(** [_enter_listening_state] *)
Definition _enter_listening_state (m : Manager) : Manager :=
  if negb (session_active m) then m else
  emit "listening_started" None
    (spawn_listening (set_stop_listening false (set_user_input_detected false m))).

(** [_enter_recording_state] *)
Definition _enter_recording_state (now : Q) (m : Manager) : Manager :=
  if negb (session_active m) then m else
  let m1 :=
    if negb (recording_active m) then
      set_recorded_midi_events []
        (set_recording_active true (set_response_start_time (Some now) m))
    else m in
  let m2 :=
    match current_phrase m1 with
    | Some ph =>
      if phrase_truthy (Some ph) then
        set_config (set_response_measures (measures ph) (config m1)) m1
      else m1
    | None => m1
    end in
  emit "user_response_started" None (spawn_recording m2).

(** [_enter_feedback_state] *)
Definition _enter_feedback_state (m : Manager) : Manager :=
  if negb (session_active m) then m else
  emit "feedback_started" None (spawn_evaluation m).

(** [_enter_idle_state] *)
Definition _enter_idle_state (m : Manager) : Manager :=
  emit "session_stopped" None (set_stop_listening true (set_session_active false m)).

(** [_change_state]; the boolean is passed on from [_enter_playback_state]. *)
Definition _change_state (lib : PhraseLibrary) (now : Q) (rnd : nat)
    (new_state : SessionState) (m : Manager) : Manager * bool :=
  let old_state := state m in
  let m1 := set_transitions (transitions m ++ [(old_state, new_state)])
                            (set_state new_state m) in
  let '(m2, raised) :=
    match new_state with
    | PLAYBACK => _enter_playback_state lib rnd m1
    | LISTENING => (_enter_listening_state m1, false)
    | RECORDING_RESPONSE => (_enter_recording_state now m1, false)
    | FEEDBACK => (_enter_feedback_state m1, false)
    | IDLE => (_enter_idle_state m1, false)
    end in
  if raised then (m2, true) else (emit "state_changed" None m2, false).

(** [set_listening_config] *)
Definition set_listening_config (c : ListeningConfig) (m : Manager) : Manager :=
  set_config c m.

(** [set_session_timing] *)
Definition set_session_timing (start : Q) (tempo : Z) (m : Manager) : Manager :=
  set_config (set_bpm tempo (config m)) (set_session_start_time (Some start) m).

(** [start_session]; [autonomous_ok] is what
  [autonomous_player.start_autonomous_playback] returns. *)
Definition start_session (lib : PhraseLibrary) (now : Q) (rnd : nat)
    (style : string) (difficulty : Z) (tempo : option Z) (autonomous_ok : bool)
    (m : Manager) : Manager :=
  if session_active m then m else
  let m1 :=
    match tempo with
    | Some b => set_config (set_bpm b (config m)) m
    | None => m
    end in
  let m2 := set_phrases_completed 0 (set_session_active true m1) in
  let m3 :=
    if time_truthy (session_start_time m2) then m2
    else set_session_start_time (Some now) m2 in
  let m4 := set_response_start_time None (set_user_input_detected false m3) in
  let m5 := set_initial_style style (set_initial_difficulty (Some difficulty) m4) in
  let '(m6, raised) := _change_state lib now rnd PLAYBACK m5 in
  if raised then m6
  else if autonomous_ok then emit "session_started" None m6
  else fst (_change_state lib now rnd IDLE (set_session_active false m6)).

(** [stop_session] *)
Definition stop_session (lib : PhraseLibrary) (now : Q) (rnd : nat) (m : Manager)
  : Manager :=
  if negb (session_active m) then m else
  let m1 := set_session_active false (set_stop_listening true m) in
  emit "session_stopped" None (fst (_change_state lib now rnd IDLE m1)).

(** [_on_phrase_started] (through [_intercept_phrase_started]) *)
Definition _on_phrase_started (ph : Phrase) (m : Manager) : Manager :=
  if negb (session_active m) then m else
  let m1 := set_current_phrase (Some ph) m in
  if decide (state m1 = PLAYBACK) then emit "phrase_playback_started" None m1
  else m1.

(** [_on_phrase_finished] (through [_intercept_phrase_finished]) *)
Definition _on_phrase_finished (lib : PhraseLibrary) (now : Q) (rnd : nat)
    (ph : Phrase) (m : Manager) : Manager :=
  if negb (session_active m) then m else
  if decide (state m = PLAYBACK) then
    let m1 := set_config (set_response_measures (measures ph) (config m)) m in
    emit "phrase_playback_finished" None (fst (_change_state lib now rnd LISTENING m1))
  else m.

(** [on_midi_note_on] *)
Definition on_midi_note_on (now : Q) (note velocity : Z) (m : Manager) : Manager :=
  if bool_decide (state m = LISTENING) && negb (user_input_detected m) then
    let m1 := set_user_input_detected true m in
    let m2 := set_response_start_time (Some now) m1 in
    let m3 := set_recording_active true m2 in
    let m4 := set_recorded_midi_events [EvNoteOn note velocity (now - now)%Q] m3 in
    emit "user_input_detected" None m4
  else
    match response_start_time m with
    | Some start =>
      if recording_active m && time_truthy (Some start) then
        set_recorded_midi_events
          (recorded_midi_events m ++ [EvNoteOn note velocity (now - start)%Q]) m
      else m
    | None => m
    end.

(** [on_midi_note_off] *)
Definition on_midi_note_off (now : Q) (note : Z) (m : Manager) : Manager :=
  match response_start_time m with
  | Some start =>
    if recording_active m && time_truthy (Some start) then
      set_recorded_midi_events
        (recorded_midi_events m ++ [EvNoteOff note (now - start)%Q]) m
    else m
  | None => m
  end.

(** [_listening_worker], the branch taken on a timeout or a stop. *)
Definition listening_timeout (lib : PhraseLibrary) (now : Q) (rnd : nat)
    (m : Manager) : Manager :=
  if session_active m then
    fst (_change_state lib now rnd PLAYBACK (emit "input_timeout" None m))
  else m.

(** [_listening_worker]: one listening worker leaves [_wait_for_user_input]
  and acts.  [timed_out] tells whether the input timeout has elapsed.  The
  step is not enabled when no worker is waiting, nor while the wait goes on. *)
Definition listening_wake (lib : PhraseLibrary) (now : Q) (rnd : nat)
    (timed_out : bool) (m : Manager) : option Manager :=
  match listening_workers (threads m) with
  | O => None
  | S k =>
    let t := threads m in
    let m0 := set_threads (mkThreads k (recording_workers t)
                             (evaluation_workers t) (evaluation_sleepers t)) m in
    if stop_listening m0 then Some (listening_timeout lib now rnd m0)
    else if timed_out then Some (listening_timeout lib now rnd m0)
    else if user_input_detected m0 then
      let m1 := set_user_input_detected false m0 in
      Some (if session_active m1
            then fst (_change_state lib now rnd RECORDING_RESPONSE m1)
            else m1)
    else None
  end.

(** [_recording_worker]: a recording worker wakes after the response
  duration. *)
Definition recording_done (lib : PhraseLibrary) (now : Q) (rnd : nat)
    (phrase_id : string) (m : Manager) : option Manager :=
  match recording_workers (threads m) with
  | O => None
  | S k =>
    let t := threads m in
    let m0 := set_threads (mkThreads (listening_workers t) k
                             (evaluation_workers t) (evaluation_sleepers t)) m in
    let m1 := set_recording_active false m0 in
    if session_active m1 then
      let student_phrase :=
        _convert_midi_recording_to_phrase (bpm (config m1)) phrase_id
                                          (recorded_midi_events m1) in
      let m2 :=
        set_last_student_phrase
          (if phrase_truthy student_phrase then student_phrase else None) m1 in
      let m3 := emit "user_response_finished" None m2 in
      let m4 := set_phrases_completed (phrases_completed m3 + 1) m3 in
      Some (fst (_change_state lib now rnd FEEDBACK m4))
    else Some m1
  end.

(** [_evaluate_with_claude]; [outcome] is what the evaluator call does.  An
  attribute access on a missing phrase raises inside the [try] and ends in
  the handler, like any other exception. *)
Definition _evaluate_with_claude (outcome : EvalOutcome) (m : Manager)
  : Manager * ClaudeEvaluation :=
  let handler :=
    get_fallback_evaluation (or_empty_phrase (current_phrase m))
                            (or_empty_phrase (last_student_phrase m)) in
  match outcome with
  | EvalOk evaluation =>
    let m1 :=
      match current_phrase m with
      | Some ph =>
        if phrase_truthy (Some ph) && negb (String.eqb (id ph) "") then
          let history := default [] (phrase_attempt_history m !! id ph) in
          set_phrase_attempt_history
            (<[id ph := history ++ [grade evaluation]]> (phrase_attempt_history m)) m
        else m
      | None => m
      end in
    (set_last_recommendation (Some (recommendation evaluation)) m1, evaluation)
  | EvalNone =>
    match current_phrase m, last_student_phrase m with
    | Some target, Some student => (m, get_fallback_evaluation target student)
    | _, _ => (m, handler)
    end
  | EvalRaised => (m, handler)
  end.

(** [_claude_evaluation_worker], up to its display pause. *)
Definition evaluation_run (outcome : EvalOutcome) (m : Manager) : option Manager :=
  match evaluation_workers (threads m) with
  | O => None
  | S k =>
    let t := threads m in
    let m0 := set_threads (mkThreads (listening_workers t) (recording_workers t)
                             k (S (evaluation_sleepers t))) m in
    if phrase_truthy (current_phrase m0) && phrase_truthy (last_student_phrase m0)
    then
      let '(m1, evaluation) := _evaluate_with_claude outcome m0 in
      Some (emit "claude_evaluation_complete" (Some evaluation) m1)
    else
      let fallback_evaluation :=
        get_fallback_evaluation (or_empty_phrase (current_phrase m0))
                                (or_empty_phrase (last_student_phrase m0)) in
      Some (emit "claude_evaluation_complete" (Some fallback_evaluation) m0)
  end.

(** [_claude_evaluation_worker], after the pause: back to playback. *)
Definition evaluation_done (lib : PhraseLibrary) (now : Q) (rnd : nat)
    (m : Manager) : option Manager :=
  match evaluation_sleepers (threads m) with
  | O => None
  | S k =>
    let t := threads m in
    let m0 := set_threads (mkThreads (listening_workers t) (recording_workers t)
                             (evaluation_workers t) k) m in
    if session_active m0 then
      let m1 := set_phrases_completed (phrases_completed m0 + 1) m0 in
      let m2 := emit "feedback_finished" None m1 in
      Some (fst (_change_state lib now rnd PLAYBACK m2))
    else Some m0
  end.

(** Everything that can happen to the manager: calls of its public methods,
  the scheduler's callbacks, and a worker thread acting.  Each is one step
  (the methods and the workers' state changes run under [_state_lock]). *)
Inductive Event :=
  | SetListeningConfig (c : ListeningConfig)
  | SetSessionTiming (start : Q) (tempo : Z)
  | StartSession (style : string) (difficulty : Z) (tempo : option Z)
                 (autonomous_ok : bool)
  | StopSession
  | PhraseStarted (ph : Phrase)
  | PhraseFinished (ph : Phrase)
  | MidiNoteOn (note velocity : Z)
  | MidiNoteOff (note : Z)
  | ListeningWake (timed_out : bool)
  | RecordingDone (phrase_id : string)
  | EvaluationRun (outcome : EvalOutcome)
  | EvaluationDone.

(** One step at wall-clock time [now], random draw [rnd]. *)
Definition step (lib : PhraseLibrary) (now : Q) (rnd : nat) (e : Event)
    (m : Manager) : option Manager :=
  match e with
  | SetListeningConfig c => Some (set_listening_config c m)
  | SetSessionTiming start tempo => Some (set_session_timing start tempo m)
  | StartSession style difficulty tempo ok =>
    Some (start_session lib now rnd style difficulty tempo ok m)
  | StopSession => Some (stop_session lib now rnd m)
  | PhraseStarted ph => Some (_on_phrase_started ph m)
  | PhraseFinished ph => Some (_on_phrase_finished lib now rnd ph m)
  | MidiNoteOn note velocity => Some (on_midi_note_on now note velocity m)
  | MidiNoteOff note => Some (on_midi_note_off now note m)
  | ListeningWake timed_out => listening_wake lib now rnd timed_out m
  | RecordingDone phrase_id => recording_done lib now rnd phrase_id m
  | EvaluationRun outcome => evaluation_run outcome m
  | EvaluationDone => evaluation_done lib now rnd m
  end.

(** A run: every event of the trace must be enabled. *)
Fixpoint run (lib : PhraseLibrary) (trace : list (Q * nat * Event)) (m : Manager)
  : option Manager :=
  match trace with
  | [] => Some m
  | (now, rnd, e) :: rest =>
    match step lib now rnd e m with
    | Some m' => run lib rest m'
    | None => None
    end
  end.

(** The states a manager can be in: those some run from [init] ends in. *)
Definition reachable (lib : PhraseLibrary) (m : Manager) : Prop :=
  exists trace, run lib trace init = Some m.


(** *** Runs in which no worker outlives its session *)







End Listening.

(** ** Scenarios used as concrete inputs *)

Module Scenarios.
Import PhraseData Listening.

(** A one-note phrase and a library that always offers it. *)
Definition demo_phrase : Phrase := mkPhrase [mkNote 60 0 1 80] (with_defaults ∅).

Definition demo_library : PhraseLibrary :=
  {| filter_phrases := fun _ _ => [demo_phrase];
     get_phrases_by_style := fun _ => [demo_phrase] |}.

(** A captured response at 120 bpm whose last note ends 13.5 beats after the
  first one began. *)
Definition long_response : list MidiEvent :=
  [ EvNoteOn 60 80 0; EvNoteOff 60 (1 # 2);
    EvNoteOn 62 80 3; EvNoteOff 62 (7 # 2);
    EvNoteOn 64 80 (13 # 2); EvNoteOff 64 (27 # 4) ].

(** One call-and-response round up to the feedback phase: the two-bar phrase
  is played, the student answers one second later, and the recording worker
  wakes after the four seconds of the response window. *)
Definition round_to_feedback : list (Q * nat * Event) :=
  [ (0%Q, 0%nat, StartSession "modal_jazz" 1 (Some 120) true);
    (4%Q, 0%nat, PhraseFinished demo_phrase);
    (5%Q, 0%nat, MidiNoteOn 60 80);
    ((101 # 20)%Q, 0%nat, ListeningWake false);
    ((11 # 2)%Q, 0%nat, MidiNoteOff 60);
    ((181 # 20)%Q, 0%nat, RecordingDone "student_response_9") ].

(** The session is stopped and started again while a recording worker is
  still asleep; the worker then wakes. *)
Definition restart_during_recording : list (Q * nat * Event) :=
  [ (0%Q, 0%nat, StartSession "modal_jazz" 1 (Some 120) true);
    (4%Q, 0%nat, PhraseFinished demo_phrase);
    (5%Q, 0%nat, MidiNoteOn 60 80);
    ((101 # 20)%Q, 0%nat, ListeningWake false);
    (6%Q, 0%nat, StopSession);
    (7%Q, 0%nat, StartSession "modal_jazz" 1 (Some 120) true);
    ((181 # 20)%Q, 0%nat, RecordingDone "student_response_9") ].

(** A second phrase, a library offering both, and an evaluation that asks for
  an easier phrase. *)
Definition other_phrase : Phrase :=
  mkPhrase [mkNote 62 0 1 80; mkNote 64 1 1 80] (with_defaults ∅).

Definition two_phrase_library : PhraseLibrary :=
  {| filter_phrases := fun _ _ => [demo_phrase; other_phrase];
     get_phrases_by_style := fun _ => [demo_phrase; other_phrase] |}.

Definition simplify_evaluation : ClaudeEvaluation :=
  {| grade := "C"; positive_feedback := "Good start.";
     improvement_feedback := "Slow down."; recommendation := "SIMPLIFY";
     confidence := 8 # 10; raw_response := "" |}.

(** The session is stopped and started again while the evaluation worker is
  still waiting for the evaluator; the answer arrives during the next
  LISTENING phase, which then times out. *)
Definition restart_during_feedback : list (Q * nat * Event) :=
  round_to_feedback ++
  [ (10%Q, 0%nat, StopSession);
    (11%Q, 0%nat, StartSession "modal_jazz" 1 (Some 120) true);
    (15%Q, 0%nat, PhraseFinished demo_phrase);
    (16%Q, 0%nat, EvaluationRun (EvalOk simplify_evaluation));
    (25%Q, 1%nat, ListeningWake true) ].

End Scenarios.

(** ** MIDI event processor: the rest of the interface *)

Module NoteProcMore.
Import NoteProc.

(** [clear_session] *)
Definition clear_session (np : NoteProcessor) : NoteProcessor := init.

(** [get_active_notes]: the open pitches. *)
Definition get_active_notes (np : NoteProcessor) : list Z :=
  (map_to_list (active_notes np)).*1.

(** The state [process_midi_event] hands to its handlers. *)
Definition started (np : NoteProcessor) (t : Q) : NoteProcessor :=
  match session_start_time np with
  | None => {| active_notes := active_notes np;
               completed_notes := completed_notes np;
               session_start_time := Some t |}
  | Some _ => np
  end.

(** A stream of timestamped messages fed to [process_midi_event], as
  [_midi_callback] does. *)
Definition feed (np : NoteProcessor) (events : list (list Z * Q)) : NoteProcessor :=
  foldl (fun np e => fst (process_midi_event np (fst e) (Some (snd e)) (snd e)))
        np events.

(** The timestamps of a stream never go back, starting from [last]. *)
Fixpoint chronological (last : Q) (events : list (list Z * Q)) : Prop :=
  match events with
  | [] => True
  | e :: rest => (last <= snd e)%Q /\ chronological (snd e) rest
  end.

(** A completed record with a start and a duration that are not negative. *)
Definition record_ok (n : MIDINote) : Prop :=
  (0 <= timestamp n)%Q /\ exists d, duration n = Some d /\ (0 <= d)%Q.

(** A note-off message: status 0x8n, or status 0x9n with velocity 0. *)
Definition is_note_off (message : list Z) (p : Z) : Prop :=
  exists status v rest,
    message = status :: p :: v :: rest /\
    (Z.land status 0xF0 = 0x80 \/ (Z.land status 0xF0 = 0x90 /\ v = 0)).

(** A message that is neither a note-on nor a note-off with its two data
  bytes. *)
Definition not_a_note (message : list Z) : Prop :=
  match message with
  | status :: _ :: _ :: _ =>
    Z.land status 0xF0 <> 0x90 /\ Z.land status 0xF0 <> 0x80
  | _ => True
  end.

(** A message that opens a note: status 0x9n with a velocity that is not 0. *)
Definition is_note_on (message : list Z) : bool :=
  match message with
  | status :: _ :: v :: _ => (Z.land status 0xF0 =? 0x90) && negb (v =? 0)
  | _ => false
  end.

Fixpoint count_note_on (events : list (list Z * Q)) : nat :=
  match events with
  | [] => 0
  | e :: rest => ((if is_note_on (fst e) then 1 else 0) + count_note_on rest)%nat
  end.

(** The processor's times are consistent up to time [last]: the completed
  records have a start and a duration that are not negative, and every open
  note started between the session start and [last]. *)
Definition well_timed (np : NoteProcessor) (last : Q) : Prop :=
  Forall record_ok (completed_notes np) /\
  match session_start_time np with
  | None => active_notes np = ∅
  | Some s0 =>
    (s0 <= last)%Q /\
    forall p v ts, active_notes np !! p = Some (v, ts) -> (s0 <= ts)%Q /\ (ts <= last)%Q
  end.

End NoteProcMore.

(** ** Phrases: queries, serialization and the scale builder *)

Module PhraseMore.
Import PhraseData.

(** [get_duration_beats]: [self.bars * self.time_signature[0]].  The time
  signature is a pair, as every caller in the repository gives it; another
  kind of value, or bars that are not a number, stand outside this model and
  are shown as [TypeError]. *)
Definition get_duration_beats (ph : Phrase) : result Q :=
  match metadata ph !! "bars" ≫= as_number, metadata ph !! "time_signature" with
  | Some b, Some (VPair n _) => Ok (b * inject_Z n)%Q
  | _, _ => Raise TypeError
  end.

(** [get_duration_seconds(bpm)]: [bpm or self.tempo] takes the phrase tempo
  when [bpm] is [None] or 0. *)
Definition get_duration_seconds (ph : Phrase) (bpm : option Q) : result Q :=
  let effective_bpm :=
    match bpm with
    | Some b => if Qeq_bool b 0 then metadata ph !! "tempo" ≫= as_number else Some b
    | None => metadata ph !! "tempo" ≫= as_number
    end in
  match effective_bpm with
  | None => Raise TypeError
  | Some e =>
    let beats_per_second := (e / 60)%Q in
    match get_duration_beats ph with
    | Raise err => Raise err
    | Ok beats =>
      if Qeq_bool beats_per_second 0 then Raise ZeroDivisionError
      else Ok (beats / beats_per_second)%Q
    end
  end.

(** [get_note_at_beat] *)
Definition get_note_at_beat (ph : Phrase) (beat_position : Q) : list MusicalNote :=
  List.filter
    (fun note => Qle_bool (start_time note) beat_position
                 && Qltb beat_position (start_time note + duration note))
    (notes ph).

(** [get_notes_in_range] *)
Definition get_notes_in_range (ph : Phrase) (start_beat end_beat : Q)
  : list MusicalNote :=
  List.filter
    (fun note => Qle_bool start_beat (start_time note)
                 && Qltb (start_time note) end_beat)
    (notes ph).

(** [validate_timing]: [False] at the first note that ends after the phrase. *)
Definition validate_timing (ph : Phrase) : result bool :=
  match get_duration_beats ph with
  | Raise err => Raise err
  | Ok phrase_duration =>
    Ok (forallb (fun note =>
                   negb (Qltb phrase_duration (start_time note + duration note)))
                (notes ph))
  end.

(** The dictionary [to_dict] builds: one four-key dictionary per note, and
  the metadata. *)
Record NoteData := mkNoteData {
  d_pitch : Z;
  d_start_time : Q;
  d_duration : Q;
  d_velocity : Z
}.

Record PhraseDict := mkPhraseDict {
  d_notes : list NoteData;
  d_metadata : gmap string value
}.

(** [to_dict] *)
Definition to_dict (ph : Phrase) : PhraseDict :=
  {| d_notes := map (fun note => mkNoteData (pitch note) (start_time note)
                                            (duration note) (velocity note))
                    (notes ph);
     d_metadata := metadata ph |}.

(** The list comprehension of [from_dict]: the first note that does not
  validate raises. *)
Fixpoint notes_from_data (data : list NoteData) : result (list MusicalNote) :=
  match data with
  | [] => Ok []
  | nd :: rest =>
    match MusicalNote_new (d_pitch nd) (d_start_time nd) (d_duration nd)
                          (d_velocity nd) with
    | Raise e => Raise e
    | Ok n =>
      match notes_from_data rest with
      | Raise e => Raise e
      | Ok ns => Ok (n :: ns)
      end
    end
  end.

(** [from_dict] *)
Definition from_dict (data : PhraseDict) : result Phrase :=
  match notes_from_data (d_notes data) with
  | Raise e => Raise e
  | Ok ns => Phrase_new ns (d_metadata data)
  end.

Definition note_valid (n : MusicalNote) : Prop :=
  note_args_valid (pitch n) (start_time n) (duration n) (velocity n).

Section Scale.

(** Python's [str.title] and the decimal text of an integer in an f-string;
  only the description and the key text depend on them. *)
Variable title : string -> string.
Variable str_of_int : Z -> string.

(** The loop of [create_simple_scale_phrase]: note [i] on beat [i], 0.8 beats
  long, velocity 80. *)
Fixpoint scale_notes_loop (root_pitch : Z) (i : Z) (scale_notes : list Z)
  : result (list MusicalNote) :=
  match scale_notes with
  | [] => Ok []
  | interval :: rest =>
    match MusicalNote_new (root_pitch + interval) (inject_Z i) (4 # 5) 80 with
    | Raise e => Raise e
    | Ok n =>
      match scale_notes_loop root_pitch (i + 1) rest with
      | Raise e => Raise e
      | Ok ns => Ok (n :: ns)
      end
    end
  end.

Definition scale_metadata (root_pitch : Z) (scale_notes : list Z)
    (difficulty : Z) (style : string) : gmap string value :=
  <["style" := VStr style]>
  (<["difficulty" := VInt difficulty]>
  (<["key" := VStr ("MIDI_" ++ str_of_int root_pitch)]>
  (<["tempo" := VInt 120]>
  (<["bars" := VInt (Z.max 1 (Z.of_nat (length scale_notes) / 4))]>
  (<["time_signature" := VPair 4 4]>
  (<["description" := VStr (title style ++ " scale phrase")]> ∅)))))).

(** [create_simple_scale_phrase] *)
Definition create_simple_scale_phrase (root_pitch : Z) (scale_notes : list Z)
    (difficulty : Z) (style : string) : result Phrase :=
  match scale_notes_loop root_pitch 0 scale_notes with
  | Raise e => Raise e
  | Ok ns => Phrase_new ns (scale_metadata root_pitch scale_notes difficulty style)
  end.

End Scale.

End PhraseMore.

(** ** Synthesizer, drum audio and the audio engine: the rest of the interface *)

Module SynthMore.
Import Synth.

(** [get_active_note_count] *)
Definition get_active_note_count (s : AudioSynthesizer) : nat :=
  (size (active_notes s) + size (released_notes s))%nat.

(** Envelope parameters as the constructor documents them: positive times and
  a sustain level within 0..1. *)
Definition envelope_ok (env : ADSREnvelope) : Prop :=
  (0 < attack env)%Q /\ (0 < decay env)%Q /\ (0 < release env)%Q /\
  (0 <= sustain env)%Q /\ (sustain env <= 1)%Q.

(** A buffer of zeros. *)
Definition silent (buffer : list Q) : Prop := Forall (fun x => (x == 0)%Q) buffer.

Definition in_unit (x : Q) : Prop := (-1 <= x)%Q /\ (x <= 1)%Q.

End SynthMore.

Module DrumAudio.
Import Synth.

(** [_play_drum_audio]: append the chunk, drop the oldest one when more than
  10 are queued. *)
Definition _play_drum_audio (drum_buffer : list (list Q)) (audio_data : list Q)
  : list (list Q) :=
  let appended := drum_buffer ++ [audio_data] in
  if (10 <? length appended)%nat then tail appended else appended.

(** [mixed_audio[:len(d)] += d] for a chunk [d] no longer than the buffer. *)
Fixpoint add_prefix (mixed_audio d : list Q) : list Q :=
  match mixed_audio, d with
  | m :: ms, x :: xs => (m + x)%Q :: add_prefix ms xs
  | _, _ => mixed_audio
  end.

(** The loop body of [get_drum_audio]. *)
Definition mix_chunk (num_samples : nat) (acc : list Q * list (list Q))
    (drum_sample : list Q) : list Q * list (list Q) :=
  let '(mixed_audio, remaining_buffer) := acc in
  if (length drum_sample <=? num_samples)%nat then
    (add_prefix mixed_audio drum_sample, remaining_buffer)
  else
    (add_prefix mixed_audio (take num_samples drum_sample),
     remaining_buffer ++ [drop num_samples drum_sample]).

(** [get_drum_audio]: the mixed chunk and the queue afterwards. *)
Definition get_drum_audio (drum_buffer : list (list Q)) (num_samples : nat)
  : list Q * list (list Q) :=
  match drum_buffer with
  | [] => (replicate num_samples 0%Q, [])
  | _ =>
    let '(mixed_audio, remaining_buffer) :=
      foldl (mix_chunk num_samples) (replicate num_samples 0%Q, []) drum_buffer in
    (clip (-1) 1 <$> mixed_audio, remaining_buffer)
  end.

(** The queue a call leaves, in closed form: of every chunk longer than the
  call's buffer, the part past it. *)
Definition carry_over (num_samples : nat) (drum_buffer : list (list Q))
  : list (list Q) :=
  map (drop num_samples)
      (List.filter (fun d => negb (length d <=? num_samples)%nat) drum_buffer).

(** What the audio callback hears over [k] successive calls. *)
Fixpoint drain (drum_buffer : list (list Q)) (num_samples k : nat) : list Q :=
  match k with
  | O => []
  | S k' =>
    fst (get_drum_audio drum_buffer num_samples)
    ++ drain (snd (get_drum_audio drum_buffer num_samples)) num_samples k'
  end.

Inductive op :=
  | Play (audio_data : list Q)
  | Get (num_samples : nat).

Definition apply_op (drum_buffer : list (list Q)) (o : op) : list (list Q) :=
  match o with
  | Play a => _play_drum_audio drum_buffer a
  | Get n => snd (get_drum_audio drum_buffer n)
  end.

Definition run (drum_buffer : list (list Q)) (ops : list op) : list (list Q) :=
  foldl apply_op drum_buffer ops.

(** [crossed_beat] of [_check_and_trigger_drums_boundary]. *)
Definition crossed_beat (previous_beat current_beat target_beat : Q) : bool :=
  if Qltb (45 # 10) previous_beat && Qltb current_beat (15 # 10) then
    Qeq_bool target_beat 1 || Qltb previous_beat target_beat
  else
    Qltb previous_beat target_beat && Qle_bool target_beat current_beat.

(** How often a target beat is crossed along the successive positions the
  drum loop reads. *)
Fixpoint crossings (previous_beat : Q) (positions : list Q) (target_beat : Q) : nat :=
  match positions with
  | [] => 0
  | current_beat :: rest =>
    ((if crossed_beat previous_beat current_beat target_beat then 1 else 0)
     + crossings current_beat rest target_beat)%nat
  end.

(** The last position read. *)
Definition last_position (previous_beat : Q) (positions : list Q) : Q :=
  foldl (fun _ current_beat => current_beat) previous_beat positions.

(** Positions that only move forward (no wrap to the next measure). *)
Fixpoint increasing (previous_beat : Q) (positions : list Q) : Prop :=
  match positions with
  | [] => True
  | current_beat :: rest =>
    (previous_beat < current_beat)%Q /\ increasing current_beat rest
  end.

End DrumAudio.

Module Engine.
Import Synth.

(** [AudioEngine]: the synthesizer, the drum engine with its queue of chunks,
  and the running flag. *)
Record AudioEngine := mkEngine {
  synthesizer : AudioSynthesizer;
  drum_engine : Drum.DrumEngine;
  drum_buffer : list (list Q);
  is_running : bool
}.

Definition init (rate size : Z) : AudioEngine :=
  {| synthesizer := Synth.init rate size; drum_engine := Drum.init;
     drum_buffer := []; is_running := false |}.

(** [synth_audio + drum_audio * 0.6] *)
Definition mix (synth_audio drum_audio : list Q) : list Q :=
  zip_with (fun a d => (a + d * (6 # 10))%Q) synth_audio drum_audio.

Section Oscillator.
Variable sin : Q -> Q.
Variable two_pi : Q.
Variable pow2 : Q -> Q.

(** [_mixed_audio_callback]: the buffer handed to the stream and the engine
  afterwards. *)
Definition _mixed_audio_callback (e : AudioEngine) (frames : nat) (now : Q)
  : list Q * AudioEngine :=
  let '(synth_audio, synth') :=
    generate_audio_buffer sin two_pi (synthesizer e) frames now in
  if Drum.is_playing (drum_engine e) then
    let '(drum_audio, rest) := DrumAudio.get_drum_audio (drum_buffer e) frames in
    (clip (-1) 1 <$> mix synth_audio drum_audio,
     {| synthesizer := synth'; drum_engine := drum_engine e;
        drum_buffer := rest; is_running := is_running e |})
  else
    (synth_audio,
     {| synthesizer := synth'; drum_engine := drum_engine e;
        drum_buffer := drum_buffer e; is_running := is_running e |}).

(** [start]; the stream is taken to open without an error. *)
Definition start (e : AudioEngine) : AudioEngine :=
  if is_running e then e
  else {| synthesizer := synthesizer e; drum_engine := drum_engine e;
          drum_buffer := drum_buffer e; is_running := true |}.

(** [stop] *)
Definition stop (e : AudioEngine) : AudioEngine :=
  if negb (is_running e) then e
  else {| synthesizer := stop_all_notes (synthesizer e);
          drum_engine := drum_engine e;
          drum_buffer := drum_buffer e; is_running := false |}.

(** [note_on] *)
Definition note_on (e : AudioEngine) (midi_note velocity : Z) (now : Q) : AudioEngine :=
  if negb (is_running e) then e
  else {| synthesizer := Synth.note_on pow2 (synthesizer e) midi_note velocity now;
          drum_engine := drum_engine e;
          drum_buffer := drum_buffer e; is_running := is_running e |}.

(** [note_off] *)
Definition note_off (e : AudioEngine) (midi_note : Z) (now : Q) : AudioEngine :=
  if negb (is_running e) then e
  else {| synthesizer := Synth.note_off (synthesizer e) midi_note now;
          drum_engine := drum_engine e;
          drum_buffer := drum_buffer e; is_running := is_running e |}.

(** The drum controls ([start_drums], [stop_drums], [set_drum_bpm],
  [set_drum_genre]) pass the call on to the drum engine. *)
Definition drum_control (e : AudioEngine) (o : Drum.op) : AudioEngine :=
  {| synthesizer := synthesizer e; drum_engine := Drum.apply_op (drum_engine e) o;
     drum_buffer := drum_buffer e; is_running := is_running e |}.

(** A drum hit of the drum loop: [_play_drum_audio]. *)
Definition drum_hit (e : AudioEngine) (audio_data : list Q) : AudioEngine :=
  {| synthesizer := synthesizer e; drum_engine := drum_engine e;
     drum_buffer := DrumAudio._play_drum_audio (drum_buffer e) audio_data;
     is_running := is_running e |}.

Inductive op :=
  | Start
  | Stop
  | NoteOn (midi_note velocity : Z) (now : Q)
  | NoteOff (midi_note : Z) (now : Q)
  | Callback (frames : nat) (now : Q)
  | DrumControl (o : Drum.op)
  | DrumHit (audio_data : list Q).

Definition apply_op (e : AudioEngine) (o : op) : AudioEngine :=
  match o with
  | Start => start e
  | Stop => stop e
  | NoteOn p v now => note_on e p v now
  | NoteOff p now => note_off e p now
  | Callback n now => snd (_mixed_audio_callback e n now)
  | DrumControl o => drum_control e o
  | DrumHit a => drum_hit e a
  end.

Definition run (e : AudioEngine) (ops : list op) : AudioEngine :=
  foldl apply_op e ops.

End Oscillator.

End Engine.

(** ** Session manager: the downbeat of the next measure *)

Module ManagerMore.
Import Listening.

(** [PhraseListeningManager._calculate_next_downbeat]; [beat_interval] is
  the manager's attribute of that name, [current_time] what [time.time()]
  returns.  (With a zero [beat_interval] Python raises on the division; the
  statements below take it positive.) *)
Definition _calculate_next_downbeat (session_start_time : option Q)
    (beat_interval current_time : Q) : Q :=
  match session_start_time with
  | Some start =>
    if Qeq_bool start 0 then (current_time + (1 # 2))%Q
    else
      let session_elapsed := (current_time - start)%Q in
      let beats_elapsed := (session_elapsed / beat_interval)%Q in
      let current_beat := (Qpymod beats_elapsed 4 + 1)%Q in
      let next_beat_1 :=
        if Qle_bool current_beat 1 then
          (inject_Z (Qfloor (beats_elapsed / 4) * 4 + 1))%Q
        else
          (inject_Z ((Qfloor (beats_elapsed / 4) + 1) * 4 + 1))%Q in
      let next_downbeat_time := (start + (next_beat_1 - 1) * beat_interval)%Q in
      if Qle_bool next_downbeat_time current_time then
        (next_downbeat_time + 4 * beat_interval)%Q
      else next_downbeat_time
  | None => (current_time + (1 # 2))%Q
  end.

(** Events that are not a call of [start_session]. *)
Definition not_a_start (e : Event) : Prop :=
  match e with
  | StartSession _ _ _ _ => False
  | _ => True
  end.

End ManagerMore.

(** ** Theorems: MIDI event processor *)

Module NoteProcFacts.
Import NoteProc.

(** The session start time is fixed by the first event and never moves. *)
Lemma process_sets_session_start np msg ts now s0 :
  session_start_time np = Some s0 ->
  session_start_time (fst (process_midi_event np msg ts now)) = Some s0.
Proof.
  intros Hs. unfold process_midi_event.
  destruct msg as [|st data]; [exact Hs|].
  rewrite Hs. cbn zeta.
  destruct data as [|d1 [|d2 rest]]; try exact Hs.
  repeat case_match; cbn;
    unfold _handle_note_on, _handle_note_off in *;
    repeat (case_match; simplify_eq; cbn in * ); try exact Hs; try congruence.
Qed.

(** The handler on its own, once the session start time is set. *)
Lemma handle_note_on_retrigger
    (np : NoteProcessor) (p v1 v2 : Z) (t1 t2 s0 : Q) :
  active_notes np !! p = Some (v1, t1) ->
  session_start_time np = Some s0 ->
  let rec := {| pitch := p; velocity := v1;
                timestamp := (t1 - s0)%Q;
                duration := Some (t2 - t1)%Q |} in
  _handle_note_on np p v2 (Some t2) =
    ({| active_notes := <[p := (v2, t2)]> (active_notes np);
        completed_notes := completed_notes np ++ [rec];
        session_start_time := Some s0 |},
     Some rec).
Proof.
  intros Hopen Hs. unfold _handle_note_on. rewrite Hopen, Hs. reflexivity.
Qed.

(** C1 (retrigger).  In any processor state where pitch [p] is open (opened
    at [t1] with velocity [v1]), a note-on message for [p] with nonzero
    velocity [v2] at time [t2] returns one completed record for [p] with
    velocity [v1], duration [t2 - t1] and start [t1] relative to the session
    start, appends exactly that record to the completed notes, and leaves
    [(v2, t2)] as the open note of [p]. *)
Theorem retrigger_closes_prior_note
    (np : NoteProcessor) (status p v1 v2 : Z) (t1 t2 now : Q) :
  active_notes np !! p = Some (v1, t1) ->
  Z.land status 0xF0 = 0x90 ->
  v2 <> 0 ->
  let start := default t2 (session_start_time np) in
  let rec := {| pitch := p; velocity := v1;
                timestamp := (t1 - start)%Q;
                duration := Some (t2 - t1)%Q |} in
  process_midi_event np [status; p; v2] (Some t2) now =
    ({| active_notes := <[p := (v2, t2)]> (active_notes np);
        completed_notes := completed_notes np ++ [rec];
        session_start_time := Some start |},
     Some rec)
  /\ active_notes (fst (process_midi_event np [status; p; v2] (Some t2) now)) !! p
     = Some (v2, t2).
Proof.
  intros Hopen Hst Hv start rec.
  assert (Hrun : process_midi_event np [status; p; v2] (Some t2) now =
    ({| active_notes := <[p := (v2, t2)]> (active_notes np);
        completed_notes := completed_notes np ++ [rec];
        session_start_time := Some start |}, Some rec)).
  { unfold process_midi_event. rewrite Hst. cbn [default].
    replace (0x90 =? 0x90) with true by reflexivity.
    apply Z.eqb_neq in Hv. rewrite Hv.
    subst start rec.
    destruct (session_start_time np) as [s0|] eqn:Hs;
      unfold _handle_note_on; cbn; rewrite Hopen; cbn; rewrite ?Hs; reflexivity. }
  split; [exact Hrun|].
  rewrite Hrun. cbn. apply lookup_insert_eq.
Qed.

Lemma retrigger_closes_prior_note_witness :
  let np := fst (process_midi_event init [0x90; 60; 100] (Some (10#1)) 0) in
  process_midi_event np [0x90; 60; 90] (Some (25#2)) 0 =
    ({| active_notes := <[60 := (90, 25#2)]> (active_notes np);
        completed_notes := [ {| pitch := 60; velocity := 100;
                                timestamp := ((10#1) - (10#1))%Q;
                                duration := Some ((25#2) - (10#1))%Q |} ];
        session_start_time := Some (10#1) |},
     Some {| pitch := 60; velocity := 100;
             timestamp := ((10#1) - (10#1))%Q;
             duration := Some ((25#2) - (10#1))%Q |}).
Proof.
  intros np.
  pose proof (retrigger_closes_prior_note np 0x90 60 100 90 (10#1) (25#2) 0) as H.
  assert (H1 : active_notes np !! 60 = Some (100, 10#1)).
  { subst np. vm_compute. reflexivity. }
  specialize (H H1 eq_refl ltac:(lia)).
  cbv zeta in H. destruct H as [H _]. exact H.
Defined.

End NoteProcFacts.

(** ** Comparison helpers *)

Lemma Qltb_true_iff (a b : Q) : Qltb a b = true <-> (a < b)%Q.
Proof.
  unfold Qltb. rewrite negb_true_iff. split.
  - intros H. apply Qnot_le_lt. intros Hle.
    apply Qle_bool_iff in Hle. congruence.
  - intros H. destruct (Qle_bool b a) eqn:E; [|reflexivity].
    apply Qle_bool_iff in E. exfalso. exact (Qlt_not_le _ _ H E).
Qed.

Lemma Qltb_false_iff (a b : Q) : Qltb a b = false <-> (b <= a)%Q.
Proof.
  unfold Qltb. rewrite negb_false_iff. apply Qle_bool_iff.
Qed.

Lemma Qle_bool_false_iff (a b : Q) : Qle_bool a b = false <-> (b < a)%Q.
Proof.
  split.
  - intros H. apply Qnot_le_lt. intros Hle. apply Qle_bool_iff in Hle. congruence.
  - intros H. destruct (Qle_bool a b) eqn:E; [|reflexivity].
    apply Qle_bool_iff in E. exfalso. exact (Qlt_not_le _ _ H E).
Qed.

(** ** Theorems: notes and phrases *)

Module PhraseFacts.
Import PhraseData.

Lemma note_new_valid p s d v :
  note_args_valid p s d v -> MusicalNote_new p s d v = Ok (mkNote p s d v).
Proof.
  intros ([Hp1 Hp2] & [Hv1 Hv2] & Hs & Hd). unfold MusicalNote_new.
  assert (E1 : (0 <=? p) && (p <=? 127) = true)
    by (apply andb_true_iff; split; apply Z.leb_le; assumption).
  assert (E2 : (0 <=? v) && (v <=? 127) = true)
    by (apply andb_true_iff; split; apply Z.leb_le; assumption).
  rewrite E1, E2. cbn [negb].
  apply Qltb_false_iff in Hs. rewrite Hs.
  apply Qle_bool_false_iff in Hd. rewrite Hd. reflexivity.
Qed.

Lemma note_new_invalid p s d v :
  ~ note_args_valid p s d v ->
  exists msg, MusicalNote_new p s d v = Raise (ValueError msg).
Proof.
  intros Hn. unfold MusicalNote_new.
  destruct ((0 <=? p) && (p <=? 127)) eqn:E1; cbn [negb]; [|eauto].
  destruct ((0 <=? v) && (v <=? 127)) eqn:E2; cbn [negb]; [|eauto].
  destruct (Qltb s 0) eqn:E3; [eauto|].
  destruct (Qle_bool d 0) eqn:E4; [eauto|].
  exfalso. apply Hn.
  apply andb_true_iff in E1 as [?%Z.leb_le ?%Z.leb_le].
  apply andb_true_iff in E2 as [?%Z.leb_le ?%Z.leb_le].
  apply Qltb_false_iff in E3. apply Qle_bool_false_iff in E4.
  repeat split; assumption.
Qed.

Lemma note_new_ok_inv p s d v n :
  MusicalNote_new p s d v = Ok n -> note_args_valid p s d v.
Proof.
  unfold MusicalNote_new.
  destruct ((0 <=? p) && (p <=? 127)) eqn:E1; cbn [negb]; [|discriminate].
  destruct ((0 <=? v) && (v <=? 127)) eqn:E2; cbn [negb]; [|discriminate].
  destruct (Qltb s 0) eqn:E3; [discriminate|].
  destruct (Qle_bool d 0) eqn:E4; [discriminate|]. intros _.
  apply andb_true_iff in E1 as [?%Z.leb_le ?%Z.leb_le].
  apply andb_true_iff in E2 as [?%Z.leb_le ?%Z.leb_le].
  apply Qltb_false_iff in E3. apply Qle_bool_false_iff in E4.
  repeat split; assumption.
Qed.

Lemma lookup_setdefault k v (m : gmap string value) j :
  setdefault k v m !! j =
    if decide (k = j) then Some (default v (m !! k)) else m !! j.
Proof.
  unfold setdefault. destruct (m !! k) as [x|] eqn:E.
  - case_decide; subst; [rewrite E; reflexivity | reflexivity].
  - case_decide; subst.
    + rewrite lookup_insert_eq. reflexivity.
    + rewrite lookup_insert_ne by assumption. reflexivity.
Qed.

Ltac solve_setdefault :=
  repeat (rewrite lookup_setdefault; case_decide;
          [try discriminate | try congruence]);
  try reflexivity.

Lemma with_defaults_difficulty md :
  with_defaults md !! "difficulty" = Some (default (VInt 2) (md !! "difficulty")).
Proof.
  unfold with_defaults. solve_setdefault.
Qed.

Lemma with_defaults_bars md :
  with_defaults md !! "bars" = Some (default (VInt 2) (md !! "bars")).
Proof.
  unfold with_defaults. solve_setdefault.
Qed.

Lemma with_defaults_tempo md :
  with_defaults md !! "tempo" = Some (default (VInt 120) (md !! "tempo")).
Proof.
  unfold with_defaults. solve_setdefault.
Qed.

Lemma in_1_2_4_spec v :
  in_1_2_4 v = true <->
  exists b, as_number v = Some b /\ (b == 1 \/ b == 2 \/ b == 4)%Q.
Proof.
  unfold in_1_2_4. destruct (as_number v) as [q|].
  - rewrite !orb_true_iff, !Qeq_bool_iff. split.
    + intros H. exists q. split; [reflexivity|tauto].
    + intros (b & [= <-] & H). tauto.
  - split; [discriminate|]. intros (b & [=] & _).
Qed.

Lemma validate_ok_iff md :
  _validate_metadata md = Ok (with_defaults md) <-> metadata_valid (with_defaults md).
Proof.
  unfold _validate_metadata, metadata_valid.
  rewrite with_defaults_difficulty, with_defaults_bars, with_defaults_tempo.
  cbn [mbind option_bind].
  set (dv := default (VInt 2) (md !! "difficulty")).
  set (bv := default (VInt 2) (md !! "bars")).
  set (tv := default (VInt 120) (md !! "tempo")).
  split.
  - destruct (as_number dv) as [d|] eqn:Ed; [|discriminate].
    destruct (Qle_bool 1 d && Qle_bool d 5) eqn:E1; cbn [negb]; [|discriminate].
    destruct (in_1_2_4 bv) eqn:E2; cbn [negb]; [|discriminate].
    destruct (as_number tv) as [t|] eqn:Et; [|discriminate].
    destruct (Qle_bool t 0) eqn:E3; [discriminate|]. intros _.
    apply andb_true_iff in E1 as [H1%Qle_bool_iff H5%Qle_bool_iff].
    apply in_1_2_4_spec in E2 as (b & Hb & Hb').
    apply Qle_bool_false_iff in E3.
    exists d, b, t. repeat split; assumption.
  - intros (d & b & t & Hd & Hb & Ht & H1 & H5 & Hb' & H0).
    rewrite Hd.
    apply Qle_bool_iff in H1, H5. rewrite H1, H5. cbn [andb negb].
    assert (E2 : in_1_2_4 bv = true) by (apply in_1_2_4_spec; eauto).
    rewrite E2. cbn [negb]. rewrite Ht.
    apply Qle_bool_false_iff in H0. rewrite H0. reflexivity.
Qed.

Lemma validate_ok_inv md validated :
  _validate_metadata md = Ok validated -> validated = with_defaults md.
Proof.
  unfold _validate_metadata. intros H.
  repeat (case_match; try discriminate). congruence.
Qed.

(** C7 (construction validation, as the code has it).  A note is
  constructed exactly when 0 <= pitch <= 127, 0 <= velocity <= 127,
  start >= 0 and duration > 0, and construction raises [ValueError]
  otherwise; the ranges are checked at construction only, a later
  assignment to a field stores any value.  A phrase is constructed exactly
  when its metadata, once the defaults for absent keys are filled in, has
  difficulty in 1..5, bars in {1, 2, 4} and tempo > 0, and then the phrase
  carries that metadata. *)
Theorem construction_validation :
  (forall p s d v,
     (note_args_valid p s d v <-> MusicalNote_new p s d v = Ok (mkNote p s d v)) /\
     (~ note_args_valid p s d v <->
        exists msg, MusicalNote_new p s d v = Raise (ValueError msg))) /\
  (forall n p s d v,
     pitch (assign_pitch n p) = p /\ start_time (assign_start_time n s) = s /\
     duration (assign_duration n d) = d /\ velocity (assign_velocity n v) = v) /\
  (forall ns md,
     (metadata_valid (with_defaults md) <->
        Phrase_new ns md = Ok (mkPhrase ns (with_defaults md))) /\
     (~ metadata_valid (with_defaults md) <->
        exists e, Phrase_new ns md = Raise e)) /\
  (forall ns md ph,
     Phrase_new ns md = Ok ph ->
     notes ph = ns /\ metadata_valid (metadata ph)).
Proof.
  split; [|split; [|split]].
  - intros p s d v. split; split.
    + apply note_new_valid.
    + apply note_new_ok_inv.
    + apply note_new_invalid.
    + intros [msg Hm] Hv. apply note_new_valid in Hv. congruence.
  - intros n p s d v. repeat split; reflexivity.
  - intros ns md. unfold Phrase_new. split; split.
    + intros H%validate_ok_iff. rewrite H. reflexivity.
    + intros H. apply validate_ok_iff.
      destruct (_validate_metadata md) as [va|e] eqn:E; [|discriminate].
      apply validate_ok_inv in E as ->. reflexivity.
    + intros Hn. destruct (_validate_metadata md) as [va|e] eqn:E; [|eauto].
      exfalso. apply Hn. apply validate_ok_iff.
      pose proof (validate_ok_inv _ _ E) as ->. exact E.
    + intros [e He] Hv. apply validate_ok_iff in Hv. rewrite Hv in He. discriminate.
  - intros ns md ph H. unfold Phrase_new in H.
    destruct (_validate_metadata md) as [va|e] eqn:E; [|discriminate].
    injection H as <-. cbn. split; [reflexivity|].
    pose proof (validate_ok_inv _ _ E) as ->. apply validate_ok_iff. exact E.
Qed.

(** The claim as first stated has the note immutable once constructed.  A
  constructed note accepts an assignment, and the assigned value need not be
  in range: the result could not have been constructed. *)
Lemma constructed_note_is_mutable :
  exists n,
    MusicalNote_new 60 0 1 80 = Ok n /\
    assign_pitch n 200 <> n /\
    pitch (assign_pitch n 200) = 200 /\
    ~ note_args_valid (pitch (assign_pitch n 200)) (start_time (assign_pitch n 200))
        (duration (assign_pitch n 200)) (velocity (assign_pitch n 200)).
Proof.
  exists (mkNote 60 0 1 80). split; [reflexivity|].
  split; [discriminate|]. split; [reflexivity|].
  cbn. intros ([_ H] & _). lia.
Qed.

End PhraseFacts.

(** ** Theorems: downbeat computation *)

Module PlayerFacts.
Import Player.
Local Open Scope Q_scope.

Lemma Qpymod_range x m : 0 < m -> 0 <= Qpymod x m /\ Qpymod x m < m.
Proof.
  intros Hm. unfold Qpymod.
  pose proof (Qfloor_le (x / m)) as H1.
  pose proof (Qlt_floor (x / m)) as H2.
  set (f := inject_Z (Qfloor (x / m))) in *.
  assert (Hf1 : inject_Z (Qfloor (x / m) + 1) == f + 1).
  { subst f. rewrite inject_Z_plus. reflexivity. }
  rewrite Hf1 in H2.
  assert (Hx : x == (x / m) * m) by (field; lra).
  set (y := x / m) in *.
  split; nra.
Qed.

Lemma beat_interval_pos (bpm : Z) : (0 < bpm)%Z -> 0 < 60 / inject_Z bpm.
Proof.
  intros H. apply Qlt_shift_div_l.
  - replace 0 with (inject_Z 0) by reflexivity. rewrite <- Zlt_Qlt. exact H.
  - lra.
Qed.


Section Downbeat.

Variables (s b c : Q) (bpm : Z).
Hypothesis Hb : 0 < b.

Let pp := {| session_start_time := Some s; beat_interval := b; current_bpm := bpm |}.
Let d := _calculate_next_downbeat pp c.
Let pos := beats_in_measure s b c.

Lemma pos_range : 0 <= pos /\ pos < 4.
Proof. apply Qpymod_range. lra. Qed.

Lemma downbeat_far :
  1 # 1000 <= pos ->
  d == c + (4 - pos) * b /\ d - s == inject_Z (Qfloor ((c - s) / b / 4) + 1) * (4 * b).
Proof.
  intros Hp. subst d pp. unfold _calculate_next_downbeat.
  cbn [session_start_time beat_interval]. unfold BEATS_PER_MEASURE.
  change (Qpymod ((c - s) / b) 4) with pos.
  apply Qltb_false_iff in Hp. rewrite Hp.
  split; [reflexivity|].
  subst pos. unfold beats_in_measure, Qpymod, BEATS_PER_MEASURE.
  rewrite inject_Z_plus.
  set (f := inject_Z (Qfloor ((c - s) / b / 4))).
  change (inject_Z 1) with 1. field. lra.
Qed.

Lemma downbeat_near : pos < 1 # 1000 -> d == c.
Proof.
  intros Hp. subst d pp. unfold _calculate_next_downbeat.
  cbn [session_start_time beat_interval]. unfold BEATS_PER_MEASURE.
  change (Qpymod ((c - s) / b) 4) with pos.
  apply Qltb_true_iff in Hp. rewrite Hp. ring.
Qed.

Lemma boundary_when_pos_zero :
  pos == 0 -> on_measure_boundary b (c - s).
Proof.
  intros Hp. exists (Qfloor ((c - s) / b / 4)).
  subst pos. unfold beats_in_measure, Qpymod in Hp.
  set (f := inject_Z (Qfloor ((c - s) / b / 4))) in *.
  assert (Hx : c - s == (c - s) / b * b) by (field; lra).
  rewrite Hx at 1.
  assert (Hy : (c - s) / b == 4 * f) by lra.
  rewrite Hy. ring.
Qed.

Lemma downbeat_spec :
  c <= d /\ d - c <= 4 * b /\
  (1 # 1000 <= pos -> c < d /\ d - c < 4 * b /\ on_measure_boundary b (d - s)) /\
  (pos == 0 -> d == c /\ on_measure_boundary b (d - s)) /\
  (pos < 1 # 1000 -> d == c).
Proof.
  pose proof pos_range as [H0 H4].
  pose proof downbeat_far as Hfar.
  pose proof downbeat_near as Hnear.
  pose proof boundary_when_pos_zero as Hzero.
  assert (Hcases : pos < 1 # 1000 \/ 1 # 1000 <= pos) by lra.
  assert (Hbound : 1 # 1000 <= pos -> on_measure_boundary b (d - s)).
  { intros Hf. destruct (Hfar Hf) as [_ Hk]. eexists. exact Hk. }
  assert (Hbound0 : pos == 0 -> on_measure_boundary b (d - s)).
  { intros Hz. assert (Hn : pos < 1 # 1000) by lra.
    destruct (Hzero Hz) as [k Hk]. exists k.
    pose proof (Hnear Hn) as Hd. lra. }
  assert (Hfar' : 1 # 1000 <= pos -> d == c + (4 - pos) * b)
    by (intros Hf; apply Hfar; exact Hf).
  clear Hfar Hzero. clearbody d pos.
  split; [|split; [|split; [|split]]].
  - destruct Hcases as [Hn|Hf]; [specialize (Hnear Hn); lra|].
    specialize (Hfar' Hf). nra.
  - destruct Hcases as [Hn|Hf]; [specialize (Hnear Hn); lra|].
    specialize (Hfar' Hf). nra.
  - intros Hf. specialize (Hfar' Hf). specialize (Hbound Hf).
    split; [nra|]. split; [nra|]. exact Hbound.
  - intros Hz. split; [apply Hnear; lra|]. apply Hbound0. exact Hz.
  - exact Hnear.
Qed.

End Downbeat.

(** The wait of the playback worker ends exactly at the computed downbeat. *)
Lemma downbeat_wait_reaches_downbeat (s b c : Q) (tempo : Z) :
  0 < b ->
  let pp := {| session_start_time := Some s; beat_interval := b;
               current_bpm := tempo |} in
  c + downbeat_wait pp c == _calculate_next_downbeat pp c.
Proof.
  intros Hb pp.
  pose proof (downbeat_spec s b c tempo Hb) as (Hle & _).
  fold pp in Hle. unfold downbeat_wait. cbn [session_start_time pp].
  destruct (Qltb 0 (_calculate_next_downbeat pp c - c)) eqn:E.
  - ring.
  - apply Qltb_false_iff in E. lra.
Qed.




End PlayerFacts.

(** ** Theorems: note synthesis core *)

Module SynthFacts.
Import Synth.

Lemma clip_bounds (x : Q) : (-1 <= clip (-1) 1 x)%Q /\ (clip (-1) 1 x <= 1)%Q.
Proof.
  unfold clip, Qmin, Qmax.
  destruct (Qle_bool x (-1)) eqn:E1.
  - cbn. split; [apply Qle_refl | discriminate].
  - apply Qle_bool_false_iff in E1.
    destruct (Qle_bool x 1) eqn:E2.
    + apply Qle_bool_iff in E2. split; [apply Qlt_le_weak; exact E1 | exact E2].
    + split; [discriminate | apply Qle_refl].
Qed.

Section WithOscillator.

Variable sin : Q -> Q.
Variable two_pi : Q.
Variable pow2 : Q -> Q.

Lemma sample_loop_length env dt note rel tss tsr k : forall i ph,
  length (fst (sample_loop sin two_pi env dt note rel tss tsr k i ph)) = k.
Proof.
  induction k as [|k IH]; intros i ph; [reflexivity|].
  cbn [sample_loop].
  destruct (Qle_bool _ 0).
  - cbn [fst]. apply length_replicate.
  - specialize (IH (S i)
      (if Qle_bool two_pi (ph + two_pi * frequency note * dt)
       then (ph + two_pi * frequency note * dt - two_pi)%Q
       else (ph + two_pi * frequency note * dt)%Q)).
    destruct (sample_loop _ _ _ _ _ _ _ _ _ _ _) as [rest ph'].
    cbn in *. congruence.
Qed.

Lemma note_samples_length s note n t r :
  length (fst (_generate_note_samples sin two_pi s note n t r)) = n.
Proof.
  unfold _generate_note_samples.
  match goal with
  | |- context [sample_loop ?a ?b ?c ?d ?e ?f ?g ?h ?i ?j ?k] =>
    pose proof (sample_loop_length c d e f g h i j k) as H;
    destruct (sample_loop a b c d e f g h i j k) as [samples ph]
  end.
  exact H.
Qed.

Lemma mix_length {A} (f : A -> list Q) (n : nat) (l : list A) : forall buffer,
  length buffer = n ->
  (forall a, length (f a) = n) ->
  length (foldl (fun buffer a => add_buffers buffer (f a)) buffer l) = n.
Proof.
  induction l as [|a l IH]; intros buffer Hb Hf; [exact Hb|].
  cbn [foldl]. apply IH; [|exact Hf].
  unfold add_buffers. rewrite length_zip_with, Hb, Hf. lia.
Qed.

(** C6 (bounded synthesis output).  For every frame count [n] and every
  synthesizer state (any sounding and releasing notes, any master volume),
  whatever the oscillator functions are, [generate_audio_buffer] returns
  exactly [n] samples and each of them lies in [-1, 1]. *)
Theorem generate_buffer_bounded (s : AudioSynthesizer) (n : nat) (t : Q) :
  config_ok s ->
  length (fst (generate_audio_buffer sin two_pi s n t)) = n /\
  Forall (fun x => (-1 <= x)%Q /\ (x <= 1)%Q)
         (fst (generate_audio_buffer sin two_pi s n t)).
Proof.
  intros _. unfold generate_audio_buffer. cbn [fst]. split.
  - rewrite !length_fmap.
    apply (mix_length
             (fun kv => fst (_generate_note_samples sin two_pi s (fst (snd kv)) n t
                                                    (Some (snd (snd kv)))))).
    + apply (mix_length
               (fun kv => fst (_generate_note_samples sin two_pi s (snd kv) n t None))).
      * apply length_replicate.
      * intros a. apply note_samples_length.
    + intros a. apply note_samples_length.
  - apply Forall_fmap. apply Forall_forall. intros x _. apply clip_bounds.
Qed.

(** C8 ([note_off] on a pitch that is not sounding).  If [p] is not a key of
  the active notes, [note_off p] returns the synthesizer unchanged: both
  collections are the same, and a following [generate_audio_buffer] returns
  the same buffer, and the same state, as without the call. *)
Theorem note_off_absent_is_noop (s : AudioSynthesizer) (p : Z) (now : Q) :
  active_notes s !! p = None ->
  note_off s p now = s /\
  active_notes (note_off s p now) = active_notes s /\
  released_notes (note_off s p now) = released_notes s /\
  forall n t,
    generate_audio_buffer sin two_pi (note_off s p now) n t =
    generate_audio_buffer sin two_pi s n t.
Proof.
  intros Hp.
  assert (E : note_off s p now = s) by (unfold note_off; rewrite Hp; reflexivity).
  rewrite E. repeat split; reflexivity.
Qed.

Lemma note_on_disjoint s p v now :
  disjoint_notes s -> disjoint_notes (note_on pow2 s p v now).
Proof.
  intros Hd q [Ha Hr]. cbn in Ha, Hr.
  destruct (decide (p = q)) as [->|Hne].
  - rewrite lookup_delete_eq in Hr. destruct Hr as [? [=]].
  - rewrite lookup_insert_ne in Ha by assumption.
    rewrite lookup_delete_ne in Hr by assumption.
    exact (Hd q (conj Ha Hr)).
Qed.

Lemma note_off_disjoint s p now :
  disjoint_notes s -> disjoint_notes (note_off s p now).
Proof.
  intros Hd q [Ha Hr]. unfold note_off in Ha, Hr.
  destruct (active_notes s !! p) as [note|] eqn:E; [|exact (Hd q (conj Ha Hr))].
  cbn in Ha, Hr.
  destruct (decide (p = q)) as [->|Hne].
  - rewrite lookup_delete_eq in Ha. destruct Ha as [? [=]].
  - rewrite lookup_delete_ne in Ha by assumption.
    rewrite lookup_insert_ne in Hr by assumption.
    exact (Hd q (conj Ha Hr)).
Qed.

Lemma generate_disjoint s n t :
  disjoint_notes s -> disjoint_notes (snd (generate_audio_buffer sin two_pi s n t)).
Proof.
  intros Hd q [Ha Hr]. cbn in Ha, Hr.
  rewrite lookup_fmap in Ha. rewrite lookup_omap in Hr.
  apply (Hd q). split.
  - destruct (active_notes s !! q); [eauto | destruct Ha as [? [=]]].
  - destruct (released_notes s !! q); [eauto | destruct Hr as [? [=]]].
Qed.

Lemma stop_all_disjoint s : disjoint_notes (stop_all_notes s).
Proof.
  intros q [Ha _]. cbn in Ha. rewrite lookup_empty in Ha. destruct Ha as [? [=]].
Qed.

Lemma init_disjoint rate size : disjoint_notes (init rate size).
Proof.
  intros q [Ha _]. cbn in Ha. rewrite lookup_empty in Ha. destruct Ha as [? [=]].
Qed.

Lemma apply_op_disjoint s o :
  disjoint_notes s -> disjoint_notes (apply_op sin two_pi pow2 s o).
Proof.
  destruct o; cbn [apply_op]; intros Hd.
  - apply note_on_disjoint; exact Hd.
  - apply note_off_disjoint; exact Hd.
  - apply generate_disjoint; exact Hd.
  - apply stop_all_disjoint.
Qed.

Lemma run_disjoint ops : forall s,
  disjoint_notes s -> disjoint_notes (run sin two_pi pow2 s ops).
Proof.
  induction ops as [|o ops IH]; intros s Hd; [exact Hd|].
  cbn. apply IH. apply apply_op_disjoint. exact Hd.
Qed.

(** C10 (disjointness of sounding and releasing notes).  After any sequence
  of [note_on], [note_off], [generate_audio_buffer] and [stop_all_notes]
  calls on a freshly created synthesizer, no pitch is a key of both the
  active and the released collection; each operation keeps the two key sets
  disjoint, and [note_on] leaves its pitch active only, [note_off] released
  only. *)
Theorem active_released_disjoint :
  (forall rate size ops,
     disjoint_notes (run sin two_pi pow2 (init rate size) ops)) /\
  (forall s o, disjoint_notes s -> disjoint_notes (apply_op sin two_pi pow2 s o)) /\
  (forall s p v now,
     is_Some (active_notes (note_on pow2 s p v now) !! p) /\
     released_notes (note_on pow2 s p v now) !! p = None) /\
  (forall s p now,
     is_Some (active_notes s !! p) ->
     active_notes (note_off s p now) !! p = None /\
     is_Some (released_notes (note_off s p now) !! p)).
Proof.
  split; [|split; [|split]].
  - intros rate size ops. apply run_disjoint, init_disjoint.
  - intros s o. apply apply_op_disjoint.
  - intros s p v now. cbn. rewrite lookup_insert_eq, lookup_delete_eq. eauto.
  - intros s p now [note Hn]. unfold note_off. rewrite Hn. cbn.
    rewrite lookup_delete_eq, lookup_insert_eq. eauto.
Qed.

End WithOscillator.

Lemma config_ok_init rate size : rate <> 0 -> config_ok (init rate size).
Proof. intros H. repeat split; [exact H|..]; reflexivity. Qed.

Lemma config_ok_apply_op sin two_pi pow2 s o :
  config_ok s -> config_ok (apply_op sin two_pi pow2 s o).
Proof.
  destruct o; cbn [apply_op]; try (intros H; exact H).
  unfold note_off. destruct (active_notes s !! p); intros H; exact H.
Qed.

Lemma generate_buffer_bounded_witness :
  let s := note_on (fun x => x) (note_on (fun x => x) (init 44100 512) 60 127 0) 64 127 0 in
  length (fst (generate_audio_buffer (fun x => 5%Q) 6 s 8 (1 # 100))) = 8%nat /\
  Forall (fun x => (-1 <= x)%Q /\ (x <= 1)%Q)
         (fst (generate_audio_buffer (fun x => 5%Q) 6 s 8 (1 # 100))).
Proof.
  intros s.
  apply (generate_buffer_bounded (fun x => 5%Q) 6 s 8 (1 # 100)).
  subst s. repeat split; cbn; [lia|reflexivity..].
Defined.

Lemma note_off_absent_is_noop_witness :
  let s := note_on (fun x => x) (init 44100 512) 60 100 0 in
  note_off s 61 1 = s /\
  generate_audio_buffer (fun x => x) 6 (note_off s 61 1) 4 (1 # 2) =
  generate_audio_buffer (fun x => x) 6 s 4 (1 # 2).
Proof.
  intros s.
  assert (H : active_notes s !! 61 = None) by (vm_compute; reflexivity).
  destruct (note_off_absent_is_noop (fun x => x) 6 s 61 1 H) as (H1 & _ & _ & H4).
  split; [exact H1 | apply H4].
Defined.

End SynthFacts.

(** ** Theorems: rhythm generator tempo *)

Module DrumFacts.
Import Drum.

Lemma set_bpm_range d b : 60 <= bpm (set_bpm d b) <= 180.
Proof. cbn. lia. Qed.

Lemma apply_op_range d o :
  60 <= bpm d <= 180 -> 60 <= bpm (apply_op d o) <= 180.
Proof.
  destruct o; cbn [apply_op]; intros H.
  - apply set_bpm_range.
  - unfold set_genre. case_bool_decide; exact H.
  - unfold start_drumming. destruct (is_playing d); exact H.
  - unfold stop_drumming. destruct (is_playing d); exact H.
Qed.

Lemma run_range ops : forall d,
  60 <= bpm d <= 180 -> 60 <= bpm (run d ops) <= 180.
Proof.
  induction ops as [|o ops IH]; intros d H; [exact H|].
  cbn. apply IH, apply_op_range, H.
Qed.

Lemma beat_durations_equal_inv (a t : Z) :
  0 < a -> 0 < t -> (60 / inject_Z a == 60 / inject_Z t)%Q -> a = t.
Proof.
  intros Ha Ht H.
  assert (Ha' : (0 < inject_Z a)%Q)
    by (replace 0%Q with (inject_Z 0) by reflexivity; rewrite <- Zlt_Qlt; exact Ha).
  assert (Ht' : (0 < inject_Z t)%Q)
    by (replace 0%Q with (inject_Z 0) by reflexivity; rewrite <- Zlt_Qlt; exact Ht).
  assert (E : (60 * inject_Z t == 60 * inject_Z a)%Q).
  { transitivity (60 / inject_Z a * (inject_Z a * inject_Z t))%Q; [field; lra|].
    rewrite H. field. lra. }
  assert (E' : (inject_Z t == inject_Z a)%Q) by lra.
  apply inject_Z_injective. symmetry. exact E'.
Qed.

(** C9 (drum tempo clamp).  [set_bpm b] stores [max 60 (min 180 b)]; after
  any sequence of operations on a new drum engine the stored tempo is within
  60..180; and for a session tempo [t > 0] outside 60..180 the beat duration
  of the drum loop differs from the one phrase scheduling uses. *)
Theorem drum_bpm_clamped :
  (forall d b, bpm (set_bpm d b) = Z.max 60 (Z.min 180 b)) /\
  (forall ops, 60 <= bpm (run init ops) <= 180) /\
  (forall d t, 0 < t -> t < 60 \/ 180 < t ->
     bpm (set_bpm d t) <> t /\
     ~ (beat_duration (set_bpm d t) == phrase_beat_duration t)%Q).
Proof.
  split; [|split].
  - reflexivity.
  - intros ops. apply run_range. cbn. lia.
  - intros d t Ht Hout.
    assert (Hne : bpm (set_bpm d t) <> t) by (cbn; lia).
    split; [exact Hne|].
    intros H. apply Hne.
    apply beat_durations_equal_inv; [cbn; lia | exact Ht | exact H].
Qed.

End DrumFacts.

(** ** Theorems: session state machine *)

Module ListeningFacts.
Import PhraseData Listening.

(** *** Entering a state *)

Lemma enter_playback_state_fields lib rnd m :
  state (fst (_enter_playback_state lib rnd m)) = state m /\
  session_active (fst (_enter_playback_state lib rnd m)) = session_active m /\
  threads (fst (_enter_playback_state lib rnd m)) = threads m /\
  transitions (fst (_enter_playback_state lib rnd m)) = transitions m.
Proof.
  unfold _enter_playback_state, start_playback, emit.
  repeat (case_match; simplify_eq; cbn); auto.
Qed.


Ltac enter_cases m :=
  cbn; destruct (session_active m) eqn:?; cbn;
  repeat (case_match; simplify_eq; cbn); try congruence; auto.

Lemma change_state_fields lib now rnd new m :
  state (fst (_change_state lib now rnd new m)) = new /\
  (new <> IDLE ->
   session_active (fst (_change_state lib now rnd new m)) = session_active m) /\
  transitions (fst (_change_state lib now rnd new m)) =
    transitions m ++ [(state m, new)].
Proof.
  unfold _change_state.
  destruct new; cbn [fst snd].
  - unfold _enter_idle_state, emit. cbn. tauto.
  - destruct (_enter_playback_state lib rnd _) as [m2 raised] eqn:E.
    pose proof (enter_playback_state_fields lib rnd
      (set_transitions (transitions m ++ [(state m, PLAYBACK)]) (set_state PLAYBACK m)))
      as (Hs & Ha & _ & Ht).
    rewrite E in Hs, Ha, Ht. cbn in Hs, Ha, Ht.
    destruct raised; cbn; auto.
  - unfold _enter_listening_state, emit, spawn_listening. enter_cases m.
  - unfold _enter_recording_state, emit, spawn_recording. enter_cases m.
  - unfold _enter_feedback_state, emit, spawn_evaluation. enter_cases m.
Qed.

Lemma cs_state lib now rnd new m :
  state (fst (_change_state lib now rnd new m)) = new.
Proof. apply change_state_fields. Qed.

Lemma cs_transitions lib now rnd new m :
  transitions (fst (_change_state lib now rnd new m)) =
  transitions m ++ [(state m, new)].
Proof. apply change_state_fields. Qed.





(** *** Conversion of the captured events *)

Lemma Qtrunc_nonneg_bounds (x : Q) (k : Z) :
  (inject_Z k <= x)%Q -> (x < inject_Z (k + 1))%Q -> 0 <= k -> Qtrunc x = k.
Proof.
  intros Hlo Hhi Hk. unfold Qtrunc.
  assert (Hx : (0 <= x)%Q).
  { eapply Qle_trans; [|exact Hlo].
    replace 0%Q with (inject_Z 0) by reflexivity. rewrite <- Zle_Qle. exact Hk. }
  assert (Hn : 0 <= Qnum x).
  { unfold Qle in Hx. cbn in Hx. lia. }
  rewrite Z.quot_div_nonneg by lia.
  assert (Hf : Qnum x / Z.pos (Qden x) = Qfloor x) by (destruct x; reflexivity).
  rewrite Hf.
  apply Z.le_antisymm.
  - apply Z.lt_succ_r. rewrite Zlt_Qlt.
    eapply Qle_lt_trans; [apply Qfloor_le|]. exact Hhi.
  - apply Z.lt_succ_r. rewrite Zlt_Qlt.
    eapply Qle_lt_trans; [exact Hlo|].
    change (Z.succ (Qfloor x)) with (Qfloor x + 1). apply Qlt_floor.
Qed.

Lemma three_bar_metadata_rejected bpm phrase_id events ns :
  Phrase_new ns (response_metadata bpm phrase_id events 3)
  = Raise (ValueError "Bars must be 1, 2, or 4").
Proof.
  unfold Phrase_new, _validate_metadata.
  rewrite PhraseFacts.with_defaults_difficulty, PhraseFacts.with_defaults_bars,
          PhraseFacts.with_defaults_tempo.
  assert (Hd : response_metadata bpm phrase_id events 3 !! "difficulty"
               = Some (VInt 1)) by (vm_compute; reflexivity).
  assert (Hb : response_metadata bpm phrase_id events 3 !! "bars"
               = Some (VInt 3)) by (vm_compute; reflexivity).
  rewrite Hd, Hb. reflexivity.
Qed.

(** C2, the defect.  Whenever the notes reconstructed from the captured
  events end between 12 and 16 beats after the start of the recording, the
  bar estimate is 3, the phrase constructor rejects it, and the conversion
  returns [None]: every note of the response is lost. *)
Theorem three_bar_response_is_dropped
    (tempo : Z) (phrase_id : string) (events : list MidiEvent)
    (notes1 : list MusicalNote) (open : list (Z * (Z * Q)))
    (n0 : MusicalNote) (ns : list MusicalNote) :
  pair_events (inject_Z tempo / 60) events [] [] = Ok (notes1, open) ->
  close_open_notes (inject_Z tempo / 60) open notes1 = Ok (n0 :: ns) ->
  (12 <= phrase_duration_beats n0 ns)%Q ->
  (phrase_duration_beats n0 ns < 16)%Q ->
  _convert_midi_recording_to_phrase tempo phrase_id events = None.
Proof.
  intros Hpair Hclose Hlo Hhi.
  unfold _convert_midi_recording_to_phrase.
  destruct events as [|e rest]; [reflexivity|].
  unfold convert_body. rewrite Hpair, Hclose.
  assert (Ht : Qtrunc (phrase_duration_beats n0 ns / 4) = 3).
  { apply Qtrunc_nonneg_bounds; [| |lia].
    - apply Qle_shift_div_l; [reflexivity|]. exact Hlo.
    - apply Qlt_shift_div_r; [reflexivity|]. exact Hhi. }
  rewrite Ht. change (Z.min (Z.max 1 3) 4) with 3.
  rewrite three_bar_metadata_rejected. reflexivity.
Qed.

Lemma three_bar_response_is_dropped_witness :
  _convert_midi_recording_to_phrase 120 "student_response_5"
                                    Scenarios.long_response = None.
Proof.
  eapply (three_bar_response_is_dropped 120 "student_response_5"
            Scenarios.long_response).
  - vm_compute. reflexivity.
  - vm_compute. reflexivity.
  - vm_compute. discriminate.
  - vm_compute. reflexivity.
Defined.

(** What the conversion does outside the defect. *)

Lemma note_new_inv p s d v n :
  MusicalNote_new p s d v = Ok n -> n = mkNote p s d v /\ note_valid n.
Proof.
  intros H. pose proof (PhraseFacts.note_new_ok_inv _ _ _ _ _ H) as Hv.
  rewrite (PhraseFacts.note_new_valid _ _ _ _ Hv) in H.
  injection H as <-. split; [reflexivity|exact Hv].
Qed.

Lemma dict_get_In {V} (k : Z) (d : list (Z * V)) (v : V) :
  dict_get k d = Some v -> In (k, v) d.
Proof.
  induction d as [|[k' v'] d IH]; cbn; [discriminate|].
  destruct (Z.eqb_spec k' k) as [->|Hne].
  - intros [= ->]. left. reflexivity.
  - intros H. right. apply IH. exact H.
Qed.

Lemma dict_set_In {V} (x : Z * V) (k : Z) (v : V) (d : list (Z * V)) :
  In x (dict_set k v d) -> x = (k, v) \/ In x d.
Proof.
  induction d as [|[k' v'] d IH]; cbn.
  - intros [<-|[]]. left. reflexivity.
  - destruct (k' =? k); cbn.
    + intros [<-|H]; [left; reflexivity | right; right; exact H].
    + intros [<-|H]; [right; left; reflexivity|].
      destruct (IH H) as [->|H']; [left; reflexivity | right; right; exact H'].
Qed.

Lemma dict_del_In {V} (x : Z * V) (k : Z) (d : list (Z * V)) :
  In x (dict_del k d) -> In x d.
Proof.
  induction d as [|[k' v'] d IH]; cbn; [tauto|].
  destruct (k' =? k); cbn.
  - intros H. right. exact H.
  - intros [<-|H]; [left; reflexivity | right; apply IH; exact H].
Qed.

Section Origin.

Variable all : list MidiEvent.
Variable bps : Q.

Let notes_ok (ns : list MusicalNote) : Prop :=
  forall n, In n ns -> note_origin all bps n /\ note_valid n.
Let open_ok (d : list (Z * (Z * Q))) : Prop :=
  forall k v t, In (k, (v, t)) d -> In (EvNoteOn k v t) all.

Lemma pair_events_origin (events : list MidiEvent) :
  forall ns d ns' d',
    (forall e, In e events -> In e all) ->
    notes_ok ns -> open_ok d ->
    pair_events bps events ns d = Ok (ns', d') ->
    notes_ok ns' /\ open_ok d'.
Proof.
  induction events as [|e rest IH]; intros ns d ns' d' Hsub Hns Hd Hrun.
  - cbn in Hrun. injection Hrun as <- <-. split; assumption.
  - assert (Hrest : forall e', In e' rest -> In e' all)
      by (intros e' He'; apply Hsub; right; exact He').
    destruct e as [n v t|n t]; cbn in Hrun.
    + apply (IH _ _ _ _ Hrest Hns) in Hrun; [exact Hrun|].
      intros k v' t' Hin. apply dict_set_In in Hin as [[= -> -> ->]|Hin].
      * apply Hsub. left. reflexivity.
      * apply Hd. exact Hin.
    + destruct (dict_get n d) as [[v0 t0]|] eqn:Eget.
      * destruct (MusicalNote_new n _ _ v0) as [note|err] eqn:Enew; [|discriminate].
        apply note_new_inv in Enew as [-> Hvalid].
        apply (IH _ _ _ _ Hrest) in Hrun; [exact Hrun| |].
        -- intros n' Hin. apply in_app_or in Hin as [Hin|[<-|[]]]; [apply Hns; exact Hin|].
           split; [|exact Hvalid].
           exists t0. cbn. split; [apply Hd, dict_get_In; exact Eget|].
           split; [reflexivity|]. right. exists t.
           split; [apply Hsub; left; reflexivity | reflexivity].
        -- intros k v' t' Hin. apply Hd. eapply dict_del_In. exact Hin.
      * apply (IH _ _ _ _ Hrest Hns Hd) in Hrun. exact Hrun.
Qed.

Lemma close_open_origin (d : list (Z * (Z * Q))) :
  forall ns ns',
    notes_ok ns -> open_ok d ->
    close_open_notes bps d ns = Ok ns' -> notes_ok ns'.
Proof.
  induction d as [|[k [v t]] d IH]; intros ns ns' Hns Hd Hrun; cbn in Hrun.
  - injection Hrun as <-. exact Hns.
  - destruct (MusicalNote_new k _ _ v) as [note|err] eqn:Enew; [|discriminate].
    apply note_new_inv in Enew as [-> Hvalid].
    apply IH in Hrun; [exact Hrun| |].
    + intros n' Hin. apply in_app_or in Hin as [Hin|[<-|[]]]; [apply Hns; exact Hin|].
      split; [|exact Hvalid].
      exists t. cbn. split; [apply Hd; left; reflexivity|].
      split; [reflexivity|]. left. reflexivity.
    + intros k' v' t' Hin. apply Hd. right. exact Hin.
Qed.

End Origin.

(** X26.  Every note of a response phrase comes from a captured note-on,
  with its pitch and velocity, starts at that event's time in beats, and lasts
  either 0.5 beats or the clamped time to a captured note-off of the pitch;
  and it lies within the ranges of a note. *)
Lemma response_notes_have_origin tempo phrase_id events ph :
  _convert_midi_recording_to_phrase tempo phrase_id events = Some ph ->
  forall n, In n (notes ph) ->
    note_origin events (inject_Z tempo / 60) n /\ note_valid n.
Proof.
  unfold _convert_midi_recording_to_phrase.
  destruct events as [|e0 rest]; [discriminate|].
  set (events := e0 :: rest). unfold convert_body.
  destruct (pair_events _ events [] []) as [[ns1 d1]|err] eqn:Epair; [|discriminate].
  destruct (close_open_notes _ d1 ns1) as [ns2|err] eqn:Eclose; [|discriminate].
  destruct ns2 as [|n0 ns]; [discriminate|].
  destruct (Phrase_new _ _) as [ph'|err] eqn:Enew; [|discriminate].
  intros [= <-].
  unfold Phrase_new in Enew.
  destruct (_validate_metadata _); [|discriminate].
  injection Enew as <-. cbn [notes].
  destruct (pair_events_origin events (inject_Z tempo / 60) events [] []
              ns1 d1 (fun e H => H)) as [H1 H2];
    [intros n [] | intros k v t [] | exact Epair |].
  exact (close_open_origin events (inject_Z tempo / 60) d1 ns1 (n0 :: ns)
           H1 H2 Eclose).
Qed.

Lemma pymax_ge_l (a b : Q) : (a <= pymax a b)%Q.
Proof.
  unfold pymax. destruct (Qltb a b) eqn:E.
  - apply Qltb_true_iff in E. apply Qlt_le_weak. exact E.
  - apply Qle_refl.
Qed.

Lemma phrase_duration_ge_first n0 ns :
  (start_time n0 + duration n0 <= phrase_duration_beats n0 ns)%Q.
Proof.
  unfold phrase_duration_beats.
  generalize (start_time n0 + duration n0)%Q as init.
  induction ns as [|n ns IH]; intros init; cbn [foldl].
  - apply Qle_refl.
  - eapply Qle_trans; [apply pymax_ge_l|]. apply IH.
Qed.

Lemma Qtrunc_nonneg (x : Q) : (0 <= x)%Q -> Qtrunc x = Qfloor x.
Proof.
  intros Hx. unfold Qtrunc.
  assert (Hn : 0 <= Qnum x) by (unfold Qle in Hx; cbn in Hx; lia).
  rewrite Z.quot_div_nonneg by lia. destruct x; reflexivity.
Qed.

Lemma bars_estimate_valid (d : Q) :
  (0 < d)%Q -> (d < 12 \/ 16 <= d)%Q ->
  let b := Z.min (Z.max 1 (Qtrunc (d / 4))) 4 in
  b = 1 \/ b = 2 \/ b = 4.
Proof.
  intros Hd Hout.
  assert (Hx : (0 <= d / 4)%Q) by (apply Qle_shift_div_l; [reflexivity|lra]).
  rewrite (Qtrunc_nonneg _ Hx).
  pose proof (Qfloor_le (d / 4)) as Hlo.
  pose proof (Qlt_floor (d / 4)) as Hhi.
  assert (Hd4 : (d == d / 4 * 4)%Q) by (field).
  set (f := Qfloor (d / 4)) in *.
  rewrite inject_Z_plus in Hhi. change (inject_Z 1) with 1%Q in Hhi.
  assert (H0 : 0 <= f).
  { apply Z.lt_succ_r. rewrite Zlt_Qlt. 
    change (Z.succ f) with (f + 1). rewrite inject_Z_plus.
    change (inject_Z 1) with 1%Q. change (inject_Z 0) with 0%Q. lra. }
  destruct Hout as [Hlt|Hge].
  - assert (f < 3).
    { rewrite Zlt_Qlt. change (inject_Z 3) with 3%Q. lra. }
    cbv zeta. lia.
  - assert (4 <= f).
    { apply Z.lt_succ_r. rewrite Zlt_Qlt.
      change (Z.succ f) with (f + 1). rewrite inject_Z_plus.
      change (inject_Z 1) with 1%Q. change (inject_Z 4) with 4%Q. lra. }
    cbv zeta. lia.
Qed.

Lemma response_metadata_accepted tempo phrase_id events b ns :
  0 < tempo -> b = 1 \/ b = 2 \/ b = 4 ->
  exists ph,
    Phrase_new ns (response_metadata tempo phrase_id events b) = Ok ph /\
    notes ph = ns.
Proof.
  intros Ht Hb.
  exists (mkPhrase ns (with_defaults (response_metadata tempo phrase_id events b))).
  split; [|reflexivity].
  unfold Phrase_new.
  assert (Hv : _validate_metadata (response_metadata tempo phrase_id events b)
               = Ok (with_defaults (response_metadata tempo phrase_id events b))).
  { apply PhraseFacts.validate_ok_iff. unfold metadata_valid.
    rewrite PhraseFacts.with_defaults_difficulty, PhraseFacts.with_defaults_bars,
            PhraseFacts.with_defaults_tempo.
    assert (Hd : response_metadata tempo phrase_id events b !! "difficulty"
                 = Some (VInt 1)) by (vm_compute; reflexivity).
    assert (Hbars : response_metadata tempo phrase_id events b !! "bars"
                 = Some (VInt b)) by (vm_compute; reflexivity).
    assert (Htempo : response_metadata tempo phrase_id events b !! "tempo"
                 = Some (VInt tempo)) by (vm_compute; reflexivity).
    rewrite Hd, Hbars, Htempo. cbn.
    exists 1%Q, (inject_Z b), (inject_Z tempo).
    repeat split; try reflexivity; try discriminate.
    - destruct Hb as [->|[->| ->]]; [left|right; left|right; right]; reflexivity.
    - change 0%Q with (inject_Z 0). rewrite <- Zlt_Qlt. exact Ht. }
  rewrite Hv. reflexivity.
Qed.

(** X25.  When the reconstructed notes do not end between 12 and 16 beats
  and the tempo is positive, the conversion returns a phrase with exactly the
  paired notes followed by the notes still open, none dropped. *)
Lemma response_notes_kept tempo phrase_id events notes1 open n0 ns :
  events <> [] -> 0 < tempo ->
  pair_events (inject_Z tempo / 60) events [] [] = Ok (notes1, open) ->
  close_open_notes (inject_Z tempo / 60) open notes1 = Ok (n0 :: ns) ->
  (phrase_duration_beats n0 ns < 12 \/ 16 <= phrase_duration_beats n0 ns)%Q ->
  exists ph,
    _convert_midi_recording_to_phrase tempo phrase_id events = Some ph /\
    notes ph = n0 :: ns.
Proof.
  intros Hne Ht Hpair Hclose Hout.
  assert (Hvalid : note_valid n0).
  { pose proof (pair_events_origin events (inject_Z tempo / 60) events [] []
                  notes1 open (fun e H => H)) as H.
    destruct H as [H1 H2]; [intros n []|intros k v t []|exact Hpair|].
    pose proof (close_open_origin events (inject_Z tempo / 60) open notes1
                  (n0 :: ns) H1 H2 Hclose) as H3.
    apply H3. left. reflexivity. }
  assert (Hd : (0 < phrase_duration_beats n0 ns)%Q).
  { pose proof (phrase_duration_ge_first n0 ns) as Hge.
    destruct Hvalid as (_ & _ & Hs & Hdur). lra. }
  pose proof (bars_estimate_valid _ Hd Hout) as Hb. cbv zeta in Hb.
  destruct (response_metadata_accepted tempo phrase_id events _ (n0 :: ns) Ht Hb)
    as (ph & Hph & Hnotes).
  exists ph. split; [|exact Hnotes].
  unfold _convert_midi_recording_to_phrase.
  destruct events as [|e rest]; [congruence|].
  unfold convert_body. rewrite Hpair, Hclose, Hph. reflexivity.
Qed.

(** *** Evaluation and the way back to playback *)





(** *** Transitions *)




(** *** One session at a time *)










(** C3, the defect.  A recording worker only checks that a session is
  active when it wakes.  If the session was stopped and started again while
  the worker slept, the worker takes the new session from PLAYBACK straight
  to FEEDBACK: RECORDING_RESPONSE is not the state left. *)
Theorem stale_recording_worker_enters_feedback :
  exists m,
    run Scenarios.demo_library Scenarios.restart_during_recording init = Some m /\
    state m = FEEDBACK /\
    transitions m =
      [ (IDLE, PLAYBACK); (PLAYBACK, LISTENING); (LISTENING, RECORDING_RESPONSE);
        (RECORDING_RESPONSE, IDLE); (IDLE, PLAYBACK); (PLAYBACK, FEEDBACK) ].
Proof.
  destruct (run Scenarios.demo_library Scenarios.restart_during_recording init)
    as [m|] eqn:Erun; [|vm_compute in Erun; discriminate].
  exists m. split; [reflexivity|].
  assert (H : option_map (fun x => (state x, transitions x))
                (run Scenarios.demo_library Scenarios.restart_during_recording init)
              = Some (FEEDBACK,
                  [ (IDLE, PLAYBACK); (PLAYBACK, LISTENING);
                    (LISTENING, RECORDING_RESPONSE); (RECORDING_RESPONSE, IDLE);
                    (IDLE, PLAYBACK); (PLAYBACK, FEEDBACK) ]))
    by (vm_compute; reflexivity).
  rewrite Erun in H. cbn in H. injection H as H1 H2. split; assumption.
Qed.

Lemma run_app lib tr tr' m :
  run lib (tr ++ tr') m =
  match run lib tr m with
  | Some m1 => run lib tr' m1
  | None => None
  end.
Proof.
  revert m. induction tr as [|[[now rnd] e] tr IH]; intros m; [reflexivity|].
  cbn. destruct (step lib now rnd e m); [apply IH|reflexivity].
Qed.

(** The restart of the failing run is not a fresh start: the recording
  worker of the stopped session is still pending. *)
Lemma restart_is_not_fresh :
  exists m,
    run Scenarios.demo_library (take 5 Scenarios.restart_during_recording) init
      = Some m /\
    session_active m = false /\ threads m = mkThreads 0 1 0 0.
Proof.
  destruct (run Scenarios.demo_library (take 5 Scenarios.restart_during_recording) init)
    as [m|] eqn:Erun; [|vm_compute in Erun; discriminate].
  exists m. split; [reflexivity|].
  assert (H : option_map (fun x => (session_active x, threads x))
                (run Scenarios.demo_library
                     (take 5 Scenarios.restart_during_recording) init)
              = Some (false, mkThreads 0 1 0 0)) by (vm_compute; reflexivity).
  rewrite Erun in H. cbn in H. injection H as H1 H2. split; assumption.
Qed.

(** The same slip on the evaluation worker: its answer, arriving in the
  session started after it, makes the timeout in LISTENING pick a new phrase
  instead of replaying the current one. *)
Lemma stale_evaluation_changes_replayed_phrase :
  exists m m',
    run Scenarios.two_phrase_library
        (take 10 Scenarios.restart_during_feedback) init = Some m /\
    state m = LISTENING /\ current_phrase m = Some Scenarios.demo_phrase /\
    step Scenarios.two_phrase_library 25 1 (ListeningWake true) m = Some m' /\
    state m' = PLAYBACK /\ current_phrase m' = Some Scenarios.other_phrase.
Proof.
  assert (Hm' : option_map (fun x => (state x, current_phrase x))
                  (run Scenarios.two_phrase_library
                       Scenarios.restart_during_feedback init)
                = Some (PLAYBACK, Some Scenarios.other_phrase))
    by (vm_compute; reflexivity).
  assert (Hm : option_map (fun x => (state x, current_phrase x))
                 (run Scenarios.two_phrase_library
                      (take 10 Scenarios.restart_during_feedback) init)
               = Some (LISTENING, Some Scenarios.demo_phrase))
    by (vm_compute; reflexivity).
  change Scenarios.restart_during_feedback
    with (take 10 Scenarios.restart_during_feedback
          ++ [(25%Q, 1%nat, ListeningWake true)]) in Hm'.
  rewrite run_app in Hm'.
  destruct (run Scenarios.two_phrase_library
                (take 10 Scenarios.restart_during_feedback) init)
    as [m|] eqn:Erun; [|discriminate].
  cbn [run] in Hm'.
  destruct (step Scenarios.two_phrase_library 25 1 (ListeningWake true) m)
    as [m'|] eqn:Estep; [|discriminate].
  cbn in Hm, Hm'. injection Hm as Hs Hp. injection Hm' as Hs' Hp'.
  exists m, m'. repeat split; assumption.
Qed.

End ListeningFacts.

(** ** More theorems: MIDI event processor *)

Module NoteProcMoreFacts.
Import NoteProc NoteProcMore.

Lemma started_fields np t :
  active_notes (started np t) = active_notes np /\
  completed_notes (started np t) = completed_notes np /\
  session_start_time (started np t) = Some (default t (session_start_time np)).
Proof.
  unfold started. destruct (session_start_time np) eqn:E; cbn; rewrite ?E; auto.
Qed.

Lemma process_note_message np status d1 d2 rest ts now :
  process_midi_event np (status :: d1 :: d2 :: rest) ts now =
  if Z.land status 0xF0 =? 0x90 then
    if d2 =? 0 then _handle_note_off (started np (default now ts)) d1 d2
                                     (Some (default now ts))
    else _handle_note_on (started np (default now ts)) d1 d2 (Some (default now ts))
  else if Z.land status 0xF0 =? 0x80 then
    _handle_note_off (started np (default now ts)) d1 d2 (Some (default now ts))
  else (started np (default now ts), None).
Proof. reflexivity. Qed.

Lemma process_short_message np message ts now :
  (length message < 3)%nat ->
  process_midi_event np message ts now =
  match message with
  | [] => (np, None)
  | _ => (started np (default now ts), None)
  end.
Proof.
  destruct message as [|a [|b [|c rest]]]; cbn [length]; intros H;
    try reflexivity; lia.
Qed.

(** X1.  A note-off (status 0x8n, or a note-on with velocity 0) for a pitch
  that has no open note is ignored: nothing is returned, and the open and the
  completed notes stay as they are. *)
Theorem note_off_without_open_note_is_ignored
    (np : NoteProcessor) (message : list Z) (p : Z) (t now : Q) :
  is_note_off message p ->
  active_notes np !! p = None ->
  snd (process_midi_event np message (Some t) now) = None /\
  active_notes (fst (process_midi_event np message (Some t) now)) = active_notes np /\
  completed_notes (fst (process_midi_event np message (Some t) now))
    = completed_notes np.
Proof.
  intros (status & v & rest & -> & Hty) Hp.
  rewrite process_note_message. change (default now (Some t)) with t.
  destruct (started_fields np t) as (Ha & Hc & _).
  assert (Hoff : _handle_note_off (started np t) p v (Some t) = (started np t, None)).
  { unfold _handle_note_off. rewrite Ha, Hp. reflexivity. }
  destruct Hty as [H80|[H90 ->]].
  - rewrite H80. change (0x80 =? 0x90) with false. change (0x80 =? 0x80) with true.
    cbv iota. rewrite Hoff. auto.
  - rewrite H90. change (0x90 =? 0x90) with true. change (0 =? 0) with true.
    cbv iota. rewrite Hoff. auto.
Qed.

Lemma note_off_without_open_note_is_ignored_witness :
  snd (process_midi_event init [0x90; 60; 0] (Some 1%Q) 0%Q) = None /\
  active_notes (fst (process_midi_event init [0x90; 60; 0] (Some 1%Q) 0%Q))
    = active_notes init /\
  completed_notes (fst (process_midi_event init [0x90; 60; 0] (Some 1%Q) 0%Q))
    = completed_notes init.
Proof.
  apply (note_off_without_open_note_is_ignored init [0x90; 60; 0] 60).
  - exists 0x90, 0, []. split; [reflexivity|]. right. split; reflexivity.
  - apply lookup_empty.
Defined.

(** X2.  Key press and release: when the session has started and pitch [p]
  is not open, a note-on for [p] at [t1] followed by its note-off at [t2]
  returns one record with the velocity of the note-on, start [t1] relative to
  the session start and duration [t2 - t1], appends exactly that record, and
  leaves the open notes as they were before the key was pressed. *)
Theorem note_on_then_off_round_trip
    (np : NoteProcessor) (on off p v v' : Z) (t1 t2 s0 now : Q) :
  session_start_time np = Some s0 ->
  active_notes np !! p = None ->
  Z.land on 0xF0 = 0x90 -> v <> 0 ->
  Z.land off 0xF0 = 0x80 ->
  let np1 := fst (process_midi_event np [on; p; v] (Some t1) now) in
  let rec := {| pitch := p; velocity := v; timestamp := (t1 - s0)%Q;
                duration := Some (t2 - t1)%Q |} in
  snd (process_midi_event np [on; p; v] (Some t1) now) = None /\
  process_midi_event np1 [off; p; v'] (Some t2) now =
    ({| active_notes := active_notes np;
        completed_notes := completed_notes np ++ [rec];
        session_start_time := Some s0 |}, Some rec).
Proof.
  intros Hs Hp Hon Hv Hoff np1 rec.
  assert (E1 : process_midi_event np [on; p; v] (Some t1) now =
    ({| active_notes := <[p := (v, t1)]> (active_notes np);
        completed_notes := completed_notes np;
        session_start_time := Some s0 |}, None)).
  { rewrite process_note_message, Hon. change (default now (Some t1)) with t1.
    change (0x90 =? 0x90) with true.
    apply Z.eqb_neq in Hv. rewrite Hv. cbv iota.
    unfold started. rewrite Hs.
    unfold _handle_note_on. rewrite Hp, Hs. reflexivity. }
  subst np1. rewrite E1. cbn [fst snd]. split; [reflexivity|].
  rewrite process_note_message, Hoff. change (default now (Some t2)) with t2.
  change (0x80 =? 0x90) with false. change (0x80 =? 0x80) with true. cbv iota.
  unfold started. cbn [session_start_time].
  unfold _handle_note_off. cbn [active_notes session_start_time completed_notes].
  rewrite lookup_insert_eq. cbv beta iota zeta.
  rewrite delete_insert_eq, delete_id by exact Hp. reflexivity.
Qed.

Lemma note_on_then_off_round_trip_witness :
  let np := fst (process_midi_event init [0x90; 48; 70] (Some 5%Q) 0%Q) in
  let np1 := fst (process_midi_event np [0x91; 60; 100] (Some 6%Q) 0%Q) in
  process_midi_event np1 [0x81; 60; 64] (Some (13 # 2)%Q) 0%Q =
    ({| active_notes := active_notes np;
        completed_notes := completed_notes np ++
          [ {| pitch := 60; velocity := 100; timestamp := (6 - 5)%Q;
               duration := Some ((13 # 2) - 6)%Q |} ];
        session_start_time := Some 5%Q |},
     Some {| pitch := 60; velocity := 100; timestamp := (6 - 5)%Q;
             duration := Some ((13 # 2) - 6)%Q |}).
Proof.
  intros np np1.
  assert (Hs : session_start_time np = Some 5%Q) by reflexivity.
  assert (Hp : active_notes np !! 60 = None) by (vm_compute; reflexivity).
  destruct (note_on_then_off_round_trip np 0x91 0x81 60 100 64 6%Q (13 # 2)%Q 5%Q 0%Q
              Hs Hp eq_refl ltac:(lia) eq_refl) as [_ H].
  exact H.
Defined.

(** X3.  What is returned is what is appended: in every case
  [process_midi_event] either returns nothing and leaves the completed notes
  alone, or returns a record and appends exactly that record. *)
Theorem process_returns_what_it_appends
    (np : NoteProcessor) (message : list Z) (ts : option Q) (now : Q) :
  completed_notes (fst (process_midi_event np message ts now)) =
  completed_notes np ++
    match snd (process_midi_event np message ts now) with
    | Some n => [n]
    | None => []
    end.
Proof.
  destruct (started_fields np (default now ts)) as (_ & Hc & _).
  destruct (Nat.lt_ge_cases (length message) 3) as [Hshort|Hlong].
  - rewrite process_short_message by exact Hshort.
    destruct message; cbn [fst snd]; rewrite ?Hc, app_nil_r; reflexivity.
  - destruct message as [|status [|d1 [|d2 rest]]]; cbn [length] in Hlong; try lia.
    rewrite process_note_message. rewrite <- Hc.
    generalize (started np (default now ts)) as np1. intros np1.
    unfold _handle_note_on, _handle_note_off.
    repeat (case_match; simplify_eq; cbn); rewrite ?app_nil_r; reflexivity.
Qed.

(** X4.  Messages that are not note events (control change, program change,
  pitch bend, anything else) and messages too short to carry a pitch and a
  velocity return nothing and change neither the open nor the completed
  notes. *)
Theorem other_messages_change_no_notes
    (np : NoteProcessor) (message : list Z) (ts : option Q) (now : Q) :
  not_a_note message ->
  snd (process_midi_event np message ts now) = None /\
  active_notes (fst (process_midi_event np message ts now)) = active_notes np /\
  completed_notes (fst (process_midi_event np message ts now)) = completed_notes np.
Proof.
  intros Hn.
  destruct (started_fields np (default now ts)) as (Ha & Hc & _).
  destruct (Nat.lt_ge_cases (length message) 3) as [Hshort|Hlong].
  - rewrite process_short_message by exact Hshort.
    destruct message; cbn [fst snd]; auto.
  - destruct message as [|status [|d1 [|d2 rest]]]; cbn [length] in Hlong; try lia.
    rewrite process_note_message. cbn in Hn. destruct Hn as [H90 H80].
    apply Z.eqb_neq in H90, H80. rewrite H90, H80. cbn [fst snd]. auto.
Qed.

Lemma other_messages_change_no_notes_witness :
  let np := fst (process_midi_event init [0x90; 60; 100] (Some 1%Q) 0%Q) in
  snd (process_midi_event np [0xB0; 7; 127] (Some 2%Q) 0%Q) = None /\
  active_notes (fst (process_midi_event np [0xB0; 7; 127] (Some 2%Q) 0%Q))
    = active_notes np.
Proof.
  intros np.
  destruct (other_messages_change_no_notes np [0xB0; 7; 127] (Some 2%Q) 0%Q)
    as (H1 & H2 & _).
  - cbn. split; discriminate.
  - split; assumption.
Defined.

Lemma feed_cons np e events :
  feed np (e :: events) =
  feed (fst (process_midi_event np (fst e) (Some (snd e)) (snd e))) events.
Proof. reflexivity. Qed.

Lemma started_has_start np t :
  exists s0, session_start_time (started np t) = Some s0.
Proof. unfold started. destruct (session_start_time np) eqn:E; cbn; eauto. Qed.

Lemma size_delete_open (m : gmap Z (Z * Q)) p x :
  m !! p = Some x -> (size (delete p m) + 1 = size m)%nat.
Proof.
  intros Hp. rewrite map_size_delete_Some by (rewrite Hp; eauto).
  destruct (size m) eqn:E; [|cbn; lia].
  apply map_size_empty_iff in E. rewrite E, lookup_empty in Hp. discriminate.
Qed.

Lemma process_counts np message t now :
  let np' := fst (process_midi_event np message (Some t) now) in
  (length (completed_notes np') + size (active_notes np') =
   length (completed_notes np) + size (active_notes np)
   + (if is_note_on message then 1 else 0))%nat.
Proof.
  cbv zeta.
  destruct (started_fields np t) as (Ha & Hc & _).
  destruct (started_has_start np t) as [s0 Hs].
  destruct (Nat.lt_ge_cases (length message) 3) as [Hshort|Hlong].
  - rewrite process_short_message by exact Hshort.
    change (default now (Some t)) with t.
    destruct message as [|a [|b [|c rest]]]; cbn [length] in Hshort; try lia;
      cbn [fst is_note_on]; rewrite ?Ha, ?Hc; lia.
  - destruct message as [|status [|p [|v rest]]]; cbn [length] in Hlong; try lia.
    rewrite process_note_message. change (default now (Some t)) with t.
    cbn [is_note_on]. rewrite <- Ha, <- Hc.
    generalize dependent (started np t). intros np1 _ _ Hs.
    destruct (Z.land status 240 =? 144) eqn:E90; cbn [andb].
    + destruct (v =? 0) eqn:Ev; cbn [negb].
      * unfold _handle_note_off.
        destruct (active_notes np1 !! p) as [[sv st]|] eqn:Ep; cbn [fst]; [|lia].
        rewrite Hs. cbn [fst active_notes completed_notes].
        rewrite length_app. cbn [length].
        pose proof (size_delete_open (active_notes np1) p (sv, st) Ep). lia.
      * unfold _handle_note_on. rewrite Hs.
        destruct (active_notes np1 !! p) as [[sv st]|] eqn:Ep;
          cbn [fst active_notes completed_notes].
        -- rewrite length_app. cbn [length].
           rewrite map_size_insert_Some by (rewrite Ep; eauto). lia.
        -- rewrite map_size_insert_None by exact Ep. lia.
    + destruct (Z.land status 240 =? 128) eqn:E80; cbn [fst]; [|lia].
      unfold _handle_note_off.
      destruct (active_notes np1 !! p) as [[sv st]|] eqn:Ep; cbn [fst]; [|lia].
      rewrite Hs. cbn [fst active_notes completed_notes].
      rewrite length_app. cbn [length].
      pose proof (size_delete_open (active_notes np1) p (sv, st) Ep). lia.
Qed.

(** X5.  No pressed key is lost: over any stream of messages, every note-on
  with a velocity that is not 0 adds exactly one to the number of completed
  records plus the number of open notes; no other message changes that
  number. *)
Theorem every_note_on_is_accounted_for
    (np : NoteProcessor) (events : list (list Z * Q)) :
  (length (completed_notes (feed np events)) + size (active_notes (feed np events)) =
   length (completed_notes np) + size (active_notes np) + count_note_on events)%nat.
Proof.
  revert np. induction events as [|e events IH]; intros np.
  - cbn. lia.
  - rewrite feed_cons, IH. cbn [count_note_on].
    pose proof (process_counts np (fst e) (snd e) (snd e)) as H. cbv zeta in H. lia.
Qed.

Lemma started_well_timed np last t :
  well_timed np last -> (last <= t)%Q ->
  Forall record_ok (completed_notes (started np t)) /\
  exists s0, session_start_time (started np t) = Some s0 /\ (s0 <= t)%Q /\
    forall p v ts, active_notes (started np t) !! p = Some (v, ts) ->
                   (s0 <= ts)%Q /\ (ts <= t)%Q.
Proof.
  intros [Hc Hrest] Hle. unfold started.
  destruct (session_start_time np) as [s0|] eqn:E.
  - split; [exact Hc|]. exists s0. rewrite E. destruct Hrest as [Hs Hact].
    split; [reflexivity|]. split; [lra|].
    intros p v ts Hp. destruct (Hact p v ts Hp). split; lra.
  - cbn. split; [exact Hc|]. exists t. split; [reflexivity|]. split; [lra|].
    intros p v ts Hp. rewrite Hrest, lookup_empty in Hp. discriminate.
Qed.

Lemma note_off_well_timed np p v t s0 :
  Forall record_ok (completed_notes np) ->
  session_start_time np = Some s0 -> (s0 <= t)%Q ->
  (forall p v ts, active_notes np !! p = Some (v, ts) -> (s0 <= ts)%Q /\ (ts <= t)%Q) ->
  well_timed (fst (_handle_note_off np p v (Some t))) t.
Proof.
  intros Hc Hs Hle Hact. unfold _handle_note_off.
  destruct (active_notes np !! p) as [[sv st]|] eqn:Ep; cbn [fst].
  - rewrite Hs. unfold well_timed. cbn [fst completed_notes session_start_time active_notes].
    destruct (Hact p sv st Ep) as [H1 H2]. split.
    + apply Forall_app. split; [exact Hc|]. constructor; [|constructor].
      split; cbn; [lra|]. eexists. split; [reflexivity|]. lra.
    + split; [exact Hle|]. intros p' v' ts' Hp'.
      apply lookup_delete_Some in Hp' as [_ Hp']. eauto.
  - unfold well_timed. rewrite Hs. auto.
Qed.

Lemma note_on_well_timed np p v t s0 :
  Forall record_ok (completed_notes np) ->
  session_start_time np = Some s0 -> (s0 <= t)%Q ->
  (forall p v ts, active_notes np !! p = Some (v, ts) -> (s0 <= ts)%Q /\ (ts <= t)%Q) ->
  well_timed (fst (_handle_note_on np p v (Some t))) t.
Proof.
  intros Hc Hs Hle Hact. unfold _handle_note_on. rewrite Hs.
  assert (Hins : forall p' v' ts', <[p := (v, t)]> (active_notes np) !! p' = Some (v', ts') ->
                                   (s0 <= ts')%Q /\ (ts' <= t)%Q).
  { intros p' v' ts' Hp'. apply lookup_insert_Some in Hp' as [[_ Heq]|[_ Hp']].
    - injection Heq as <- <-. split; lra.
    - eauto. }
  destruct (active_notes np !! p) as [[sv st]|] eqn:Ep;
    unfold well_timed; cbn [fst completed_notes session_start_time active_notes].
  - destruct (Hact p sv st Ep) as [H1 H2]. split.
    + apply Forall_app. split; [exact Hc|]. constructor; [|constructor].
      split; cbn; [lra|]. eexists. split; [reflexivity|]. lra.
    + split; [exact Hle|exact Hins].
  - split; [exact Hc|]. split; [exact Hle|exact Hins].
Qed.

Lemma process_well_timed np message last t now :
  well_timed np last -> (last <= t)%Q ->
  well_timed (fst (process_midi_event np message (Some t) now)) t.
Proof.
  intros Hw Hle.
  destruct message as [|status data].
  { cbn. destruct Hw as [Hc Hrest]. split; [exact Hc|].
    destruct (session_start_time np); [|exact Hrest].
    destruct Hrest as [Hs Hact]. split; [lra|].
    intros p v ts Hp. destruct (Hact p v ts Hp). split; lra. }
  destruct (started_well_timed np last t Hw Hle) as (Hc & s0 & Hs & Hs0 & Hact).
  assert (Hnp1 : well_timed (started np t) t).
  { split; [exact Hc|]. rewrite Hs. auto. }
  destruct data as [|p [|v rest]]; try exact Hnp1.
  rewrite process_note_message. change (default now (Some t)) with t.
  destruct (Z.land status 240 =? 144).
  - destruct (v =? 0).
    + eapply note_off_well_timed; eauto.
    + eapply note_on_well_timed; eauto.
  - destruct (Z.land status 240 =? 128).
    + eapply note_off_well_timed; eauto.
    + exact Hnp1.
Qed.

Lemma feed_well_timed events : forall np last,
  well_timed np last -> chronological last events ->
  exists last', well_timed (feed np events) last'.
Proof.
  induction events as [|e events IH]; intros np last Hw Hch.
  - exists last. exact Hw.
  - destruct Hch as [Hle Hch]. rewrite feed_cons.
    eapply IH; [|exact Hch]. eapply process_well_timed; eauto.
Qed.

(** X6.  With timestamps that never go back, every record completed after
  [clear_session] (or by a new processor, which is in the same state) has a
  start offset and a duration that are not negative, whatever the processor
  held before it was cleared. *)
Theorem chronological_stream_gives_causal_notes
    (np : NoteProcessor) (events : list (list Z * Q)) (t0 : Q) :
  chronological t0 events ->
  Forall record_ok (completed_notes (feed (clear_session np) events)).
Proof.
  intros Hch.
  destruct (feed_well_timed events (clear_session np) t0) as [last [Hc _]];
    [|exact Hch|exact Hc].
  split; [constructor|reflexivity].
Qed.

Lemma chronological_stream_gives_causal_notes_witness :
  Forall record_ok
    (completed_notes
       (feed (clear_session (feed init [([0x90; 72; 100], 9%Q)]))
             [([0x90; 60; 100], 1%Q); ([0x90; 64; 90], 2%Q);
              ([0x90; 60; 80], 3%Q); ([0x80; 64; 0], 4%Q)])).
Proof.
  apply (chronological_stream_gives_causal_notes _ _ 0%Q).
  cbn. repeat split; lra.
Defined.

(** X7.  [finalize_notes] closes every open note: afterwards
  [get_active_notes] is empty,
  the returned list is the stored list of completed notes, it holds the
  earlier completed notes followed by one record for each open note, and every
  open pitch is the pitch of a returned record with its velocity.  (The order
  of the closing records among themselves is not modelled.) *)
Theorem finalize_closes_every_open_note (np : NoteProcessor) (current_time : Q) :
  let np' := fst (finalize_notes np current_time) in
  let notes := snd (finalize_notes np current_time) in
  get_active_notes np' = [] /\
  completed_notes np' = notes /\
  (exists closed, notes = completed_notes np ++ closed /\
                  length closed = size (active_notes np)) /\
  (forall p v ts, active_notes np !! p = Some (v, ts) ->
     exists n, n ∈ notes /\ pitch n = p /\ velocity n = v) /\
  finalize_notes np' current_time = (np', notes).
Proof.
  cbv zeta. unfold finalize_notes. cbn [fst snd active_notes completed_notes].
  split.
  { unfold get_active_notes. cbn [active_notes]. rewrite map_to_list_empty.
    reflexivity. }
  split; [reflexivity|]. split; [|split].
  - eexists. split; [reflexivity|]. rewrite length_map. apply length_map_to_list.
  - intros p v ts Hp. apply elem_of_map_to_list in Hp.
    eexists. split.
    + apply elem_of_app. right. apply list_elem_of_In, in_map_iff.
      exists (p, (v, ts)). split; [reflexivity|]. apply list_elem_of_In, Hp.
    + destruct (session_start_time np); split; reflexivity.
  - cbn [session_start_time]. rewrite map_to_list_empty. cbn [map].
    rewrite app_nil_r. reflexivity.
Qed.

(** X8.  After a chronological stream, closing the open notes at a time that
  is not before the last message gives only records with a start offset and a
  duration that are not negative. *)
Theorem finalized_notes_are_causal
    (np : NoteProcessor) (last current_time : Q) :
  well_timed np last -> (last <= current_time)%Q ->
  Forall record_ok (snd (finalize_notes np current_time)).
Proof.
  intros [Hc Hrest] Hle. unfold finalize_notes. cbn [snd].
  apply Forall_app. split; [exact Hc|].
  apply Forall_forall. intros n Hn.
  apply list_elem_of_In, in_map_iff in Hn as ([p [v ts]] & <- & Hin).
  apply list_elem_of_In, elem_of_map_to_list in Hin.
  destruct (session_start_time np) as [s0|].
  - destruct Hrest as [_ Hact]. destruct (Hact p v ts Hin).
    split; cbn; [lra|]. eexists. split; [reflexivity|]. lra.
  - rewrite Hrest, lookup_empty in Hin. discriminate.
Qed.

Lemma finalized_notes_are_causal_witness :
  Forall record_ok
    (snd (finalize_notes
            (feed init [([0x90; 60; 100], 1%Q); ([0x90; 64; 90], 2%Q)]) 3%Q)).
Proof.
  apply (finalized_notes_are_causal _ 2%Q).
  - apply (process_well_timed _ _ 1%Q); [|lra].
    apply (process_well_timed _ _ 0%Q); [|lra].
    split; [constructor|reflexivity].
  - lra.
Defined.

End NoteProcMoreFacts.

(** ** Theorems: phrase queries, serialization and the scale builder *)

Module PhraseMoreFacts.
Import PhraseData PhraseMore.

Lemma setdefault_present k v (m : gmap string value) :
  is_Some (m !! k) -> setdefault k v m = m.
Proof. intros [x Hx]. unfold setdefault. rewrite Hx. reflexivity. Qed.

Lemma with_defaults_present md k :
  k ∈ ["style"; "difficulty"; "key"; "tempo"; "bars"; "time_signature"; "description"] ->
  is_Some (with_defaults md !! k).
Proof.
  intros Hk.
  repeat (apply elem_of_cons in Hk as [->|Hk]); [..|apply elem_of_nil in Hk; destruct Hk];
    unfold with_defaults; repeat rewrite PhraseFacts.lookup_setdefault;
    repeat case_decide; try discriminate; try congruence; eauto.
Qed.

Lemma with_defaults_idem md : with_defaults (with_defaults md) = with_defaults md.
Proof.
  set (m := with_defaults md).
  assert (H : forall k,
    k ∈ ["style"; "difficulty"; "key"; "tempo"; "bars"; "time_signature"; "description"] ->
    is_Some (m !! k)) by (intros k; apply with_defaults_present).
  unfold with_defaults.
  rewrite (setdefault_present "style" _ m) by (apply H; set_solver).
  rewrite (setdefault_present "difficulty" _ m) by (apply H; set_solver).
  rewrite (setdefault_present "key" _ m) by (apply H; set_solver).
  rewrite (setdefault_present "tempo" _ m) by (apply H; set_solver).
  rewrite (setdefault_present "bars" _ m) by (apply H; set_solver).
  rewrite (setdefault_present "time_signature" _ m) by (apply H; set_solver).
  rewrite (setdefault_present "description" _ m) by (apply H; set_solver).
  reflexivity.
Qed.

Lemma validate_idempotent md validated :
  _validate_metadata md = Ok validated ->
  _validate_metadata validated = Ok validated.
Proof.
  intros H. pose proof (PhraseFacts.validate_ok_inv _ _ H) as ->.
  apply PhraseFacts.validate_ok_iff in H.
  rewrite <- (with_defaults_idem md) at 2.
  apply PhraseFacts.validate_ok_iff. rewrite with_defaults_idem. exact H.
Qed.

Lemma notes_from_valid_data ns :
  Forall note_valid ns ->
  notes_from_data (d_notes (to_dict (mkPhrase ns ∅))) = Ok ns.
Proof.
  induction 1 as [|n ns Hn _ IH]; [reflexivity|].
  cbn [to_dict d_notes notes map notes_from_data d_pitch d_start_time d_duration
       d_velocity] in *.
  rewrite (PhraseFacts.note_new_valid _ _ _ _ Hn), IH. destruct n; reflexivity.
Qed.

(** X9.  Serialization round trip: a phrase that was constructed from notes
  within their ranges is read back by [from_dict] from its own [to_dict]
  unchanged; the defaults filled in at construction are not filled in twice
  and the validation passes again. *)
Theorem from_dict_inverts_to_dict
    (ns : list MusicalNote) (md : gmap string value) (ph : Phrase) :
  Phrase_new ns md = Ok ph ->
  Forall note_valid ns ->
  from_dict (to_dict ph) = Ok ph.
Proof.
  intros Hnew Hns. unfold Phrase_new in Hnew.
  destruct (_validate_metadata md) as [validated|e] eqn:Hv; [|discriminate].
  injection Hnew as <-.
  unfold from_dict. cbn [to_dict d_notes d_metadata notes metadata].
  change (map _ ns) with (d_notes (to_dict (mkPhrase ns ∅))).
  rewrite (notes_from_valid_data ns Hns).
  unfold Phrase_new. rewrite (validate_idempotent _ _ Hv). reflexivity.
Qed.

Lemma from_dict_inverts_to_dict_witness :
  from_dict (to_dict (mkPhrase [mkNote 60 0 1 80; mkNote 64 1 (1 # 2) 70]
                               (with_defaults (<["bars" := VInt 4]> ∅))))
  = Ok (mkPhrase [mkNote 60 0 1 80; mkNote 64 1 (1 # 2) 70]
                 (with_defaults (<["bars" := VInt 4]> ∅))).
Proof.
  apply (from_dict_inverts_to_dict [mkNote 60 0 1 80; mkNote 64 1 (1 # 2) 70]
           (<["bars" := VInt 4]> ∅)).
  - vm_compute. reflexivity.
  - repeat constructor; cbn; lia || lra.
Defined.

(** X10.  A phrase whose notes lie within their ranges and which passes
  [validate_timing] has no note sounding at or after its last beat, and all
  its notes start inside its beat range. *)
Theorem validated_timing_bounds_the_notes (ph : Phrase) (beats : Q) :
  get_duration_beats ph = Ok beats ->
  validate_timing ph = Ok true ->
  Forall note_valid (notes ph) ->
  (forall b, (beats <= b)%Q -> get_note_at_beat ph b = []) /\
  get_notes_in_range ph 0 beats = notes ph.
Proof.
  intros Hd Hv Hns. unfold validate_timing in Hv. rewrite Hd in Hv.
  injection Hv as Hv. rewrite forallb_forall in Hv.
  assert (Hend : forall n, In n (notes ph) ->
                   (0 <= start_time n)%Q /\ (0 < duration n)%Q /\
                   (start_time n + duration n <= beats)%Q).
  { intros n Hn. specialize (Hv n Hn). apply negb_true_iff, Qltb_false_iff in Hv.
    rewrite Forall_forall in Hns. apply list_elem_of_In in Hn.
    destruct (Hns n Hn) as (_ & _ & H1 & H2). auto. }
  clear Hv Hns Hd. unfold get_note_at_beat, get_notes_in_range.
  induction (notes ph) as [|n ns IH]; [split; reflexivity|].
  destruct (Hend n (or_introl eq_refl)) as (H1 & H2 & H3).
  destruct IH as [IH1 IH2]; [intros; apply Hend; right; assumption|].
  split.
  - intros b Hb. cbn [List.filter].
    assert (E : Qltb b (start_time n + duration n) = false)
      by (apply Qltb_false_iff; lra).
    rewrite E, andb_false_r. apply IH1, Hb.
  - cbn [List.filter].
    assert (E1 : Qle_bool 0 (start_time n) = true) by (apply Qle_bool_iff; exact H1).
    assert (E2 : Qltb (start_time n) beats = true) by (apply Qltb_true_iff; lra).
    rewrite E1, E2. cbn [andb]. f_equal. exact IH2.
Qed.

Lemma validated_timing_bounds_the_notes_witness :
  get_note_at_beat
    (mkPhrase [mkNote 60 0 1 80; mkNote 64 3 1 70] (with_defaults (<["bars" := VInt 1]> ∅)))
    4 = [].
Proof.
  refine (proj1 (validated_timing_bounds_the_notes
    (mkPhrase [mkNote 60 0 1 80; mkNote 64 3 1 70] (with_defaults (<["bars" := VInt 1]> ∅)))
    4%Q _ _ _) 4%Q _).
  - vm_compute. reflexivity.
  - vm_compute. reflexivity.
  - repeat constructor; cbn; lia || lra.
  - lra.
Defined.

Section ScaleFacts.
Variable title : string -> string.
Variable str_of_int : Z -> string.

Lemma scale_loop_length root ivs : forall i ns,
  scale_notes_loop root i ivs = Ok ns -> length ns = length ivs.
Proof.
  induction ivs as [|iv rest IH]; intros i ns H; cbn in H.
  - injection H as <-. reflexivity.
  - destruct (MusicalNote_new (root + iv) (inject_Z i) (4 # 5) 80) as [n|e];
      [|discriminate].
    destruct (scale_notes_loop root (i + 1) rest) as [ns'|e] eqn:E; [|discriminate].
    injection H as <-. cbn. f_equal. eapply IH, E.
Qed.

Lemma scale_note_fits (beats : Q) (i dz : Z) :
  (beats == inject_Z dz)%Q ->
  negb (Qltb beats (inject_Z i + (4 # 5))) = true <-> i + 1 <= dz.
Proof.
  intros Hb. rewrite negb_true_iff, Qltb_false_iff. split.
  - intros H. assert (Hlt : (inject_Z i < inject_Z dz)%Q) by lra.
    rewrite <- Zlt_Qlt in Hlt. lia.
  - intros H. assert (Hle : (inject_Z (i + 1) <= inject_Z dz)%Q)
      by (rewrite <- Zle_Qle; exact H).
    rewrite inject_Z_plus in Hle. change (inject_Z 1) with 1%Q in Hle. lra.
Qed.

Lemma scale_loop_fits root (beats : Q) (dz : Z) ivs :
  (beats == inject_Z dz)%Q ->
  forall i ns,
  scale_notes_loop root i ivs = Ok ns ->
  forallb (fun note => negb (Qltb beats (start_time note + duration note))) ns
    = true <->
  (ivs = [] \/ i + Z.of_nat (length ivs) <= dz).
Proof.
  intros Hb.
  induction ivs as [|iv rest IH]; intros i ns H; cbn [scale_notes_loop] in H.
  - injection H as <-. cbn. split; auto.
  - destruct (MusicalNote_new (root + iv) (inject_Z i) (4 # 5) 80) as [n|e] eqn:En;
      [|discriminate].
    destruct (scale_notes_loop root (i + 1) rest) as [ns'|e] eqn:E; [|discriminate].
    injection H as <-.
    pose proof (PhraseFacts.note_new_ok_inv _ _ _ _ _ En) as Hval.
    rewrite (PhraseFacts.note_new_valid _ _ _ _ Hval) in En. injection En as <-.
    cbn [forallb start_time duration].
    rewrite andb_true_iff, (scale_note_fits beats i dz Hb).
    rewrite (IH _ _ E). cbn [length]. split.
    + intros [H1 [->|H2]]; right; cbn [length]; lia.
    + intros [H1|H1]; [discriminate|]. split; [lia|].
      destruct rest; [left; reflexivity|right]. cbn [length] in *. lia.
Qed.

Lemma setdefault_keeps k v (m : gmap string value) j x :
  m !! j = Some x -> setdefault k v m !! j = Some x.
Proof.
  intros H. rewrite PhraseFacts.lookup_setdefault.
  case_decide; subst; [rewrite H; reflexivity|exact H].
Qed.

Lemma with_defaults_keeps md j x :
  md !! j = Some x -> with_defaults md !! j = Some x.
Proof. intros H. unfold with_defaults. repeat apply setdefault_keeps. exact H. Qed.

Lemma scale_metadata_bars root ivs d style :
  with_defaults (scale_metadata title str_of_int root ivs d style) !! "bars"
  = Some (VInt (Z.max 1 (Z.of_nat (length ivs) / 4))).
Proof.
  apply with_defaults_keeps. unfold scale_metadata.
  repeat (rewrite lookup_insert_ne by discriminate).
  rewrite lookup_insert_eq. reflexivity.
Qed.

Lemma scale_metadata_time_signature root ivs d style :
  with_defaults (scale_metadata title str_of_int root ivs d style) !! "time_signature"
  = Some (VPair 4 4).
Proof.
  apply with_defaults_keeps. unfold scale_metadata.
  repeat (rewrite lookup_insert_ne by discriminate).
  rewrite lookup_insert_eq. reflexivity.
Qed.

Lemma inject_Z_eq (a b : Z) : (inject_Z a == b # 1)%Q -> a = b.
Proof. unfold Qeq. cbn. lia. Qed.

Lemma scale_bars_valid (n : nat) :
  let b := Z.max 1 (Z.of_nat n / 4) in
  (b = 1 \/ b = 2 \/ b = 4) <-> (n < 12 \/ 16 <= n < 20)%nat.
Proof.
  cbv zeta. pose proof (Z.div_mod (Z.of_nat n) 4 ltac:(lia)) as H.
  pose proof (Z.mod_pos_bound (Z.of_nat n) 4 ltac:(lia)) as H'.
  lia.
Qed.

Lemma scale_created root ivs d style ph :
  create_simple_scale_phrase title str_of_int root ivs d style = Ok ph ->
  exists ns, scale_notes_loop root 0 ivs = Ok ns /\
    ph = mkPhrase ns (with_defaults (scale_metadata title str_of_int root ivs d style)) /\
    (length ivs < 12 \/ 16 <= length ivs < 20)%nat.
Proof.
  unfold create_simple_scale_phrase, Phrase_new. intros H.
  destruct (scale_notes_loop root 0 ivs) as [ns|e] eqn:E; [|discriminate].
  destruct (_validate_metadata _) as [v|e] eqn:Hv; [|discriminate].
  injection H as <-. exists ns. split; [reflexivity|].
  pose proof (PhraseFacts.validate_ok_inv _ _ Hv) as ->. split; [reflexivity|].
  apply PhraseFacts.validate_ok_iff in Hv.
  destruct Hv as (dq & b & t & _ & Hb & _ & _ & _ & Hb124 & _).
  rewrite scale_metadata_bars in Hb. cbn in Hb. injection Hb as <-.
  apply scale_bars_valid.
  destruct Hb124 as [H|[H|H]]; apply inject_Z_eq in H; auto.
Qed.

(** X11.  A scale phrase that [create_simple_scale_phrase] returns has one
  note per interval, and it passes its own [validate_timing] exactly when the
  scale has at most 4 notes, or 8, or 16: with any other length (5 to 7
  notes in one bar, 9 to 11 in two, 17 to 19 in four) the last notes start
  after the bars the metadata gives the phrase. *)
Theorem scale_phrase_fits_its_bars_iff
    (root : Z) (ivs : list Z) (d : Z) (style : string) (ph : Phrase) :
  create_simple_scale_phrase title str_of_int root ivs d style = Ok ph ->
  length (notes ph) = length ivs /\
  (validate_timing ph = Ok true <->
   (length ivs <= 4 \/ length ivs = 8 \/ length ivs = 16)%nat).
Proof.
  intros H. destruct (scale_created _ _ _ _ _ H) as (ns & Hloop & -> & Hlen).
  pose proof (scale_loop_length _ _ _ _ Hloop) as Hl.
  split; [exact Hl|].
  unfold validate_timing, get_duration_beats. cbn [metadata notes].
  rewrite scale_metadata_bars, scale_metadata_time_signature.
  cbn [mbind option_bind as_number].
  set (b := Z.max 1 (Z.of_nat (length ivs) / 4)).
  assert (Hq : (inject_Z b * inject_Z 4 == inject_Z (b * 4))%Q)
    by (rewrite inject_Z_mult; reflexivity).
  pose proof (scale_loop_fits root _ _ ivs Hq 0 ns Hloop) as Hfit.
  split.
  - intros Hv. injection Hv as Hv. apply Hfit in Hv.
    destruct Hv as [->|Hv]; [cbn; lia|].
    subst b. pose proof (Z.div_mod (Z.of_nat (length ivs)) 4 ltac:(lia)).
    pose proof (Z.mod_pos_bound (Z.of_nat (length ivs)) 4 ltac:(lia)). lia.
  - intros Hn. f_equal. apply Hfit.
    destruct ivs as [|iv rest]; [left; reflexivity|right].
    subst b. pose proof (Z.div_mod (Z.of_nat (length (iv :: rest))) 4 ltac:(lia)).
    pose proof (Z.mod_pos_bound (Z.of_nat (length (iv :: rest))) 4 ltac:(lia)). lia.
Qed.

Lemma scale_metadata_difficulty root ivs d style :
  with_defaults (scale_metadata title str_of_int root ivs d style) !! "difficulty"
  = Some (VInt d).
Proof.
  apply with_defaults_keeps. unfold scale_metadata.
  repeat (rewrite lookup_insert_ne by discriminate).
  rewrite lookup_insert_eq. reflexivity.
Qed.

Lemma scale_metadata_tempo root ivs d style :
  with_defaults (scale_metadata title str_of_int root ivs d style) !! "tempo"
  = Some (VInt 120).
Proof.
  apply with_defaults_keeps. unfold scale_metadata.
  repeat (rewrite lookup_insert_ne by discriminate).
  rewrite lookup_insert_eq. reflexivity.
Qed.

Lemma scale_loop_succeeds root ivs : forall i,
  0 <= i ->
  Forall (fun interval => 0 <= root + interval <= 127) ivs ->
  exists ns, scale_notes_loop root i ivs = Ok ns.
Proof.
  induction ivs as [|iv rest IH]; intros i Hi Hp; cbn [scale_notes_loop].
  - eauto.
  - inversion Hp as [|? ? Hiv Hrest]; subst.
    rewrite PhraseFacts.note_new_valid.
    + destruct (IH (i + 1) ltac:(lia) Hrest) as [ns ->]. eauto.
    + repeat split; try lia; try reflexivity;
        try (change 0%Q with (inject_Z 0); rewrite <- Zle_Qle; exact Hi).
Qed.

(** X12.  With every pitch [root + interval] in 0..127 and a difficulty in
  1..5, [create_simple_scale_phrase] returns a phrase exactly when the scale
  has fewer than 12 notes, or 16 to 19: for 12 to 15 notes the bar count
  [max(1, n // 4)] is 3, for 20 or more it is 5 or more, and the phrase
  constructor raises. *)
Theorem scale_phrase_created_iff
    (root : Z) (ivs : list Z) (d : Z) (style : string) :
  Forall (fun interval => 0 <= root + interval <= 127) ivs ->
  1 <= d <= 5 ->
  (exists ph, create_simple_scale_phrase title str_of_int root ivs d style = Ok ph) <->
  (length ivs < 12 \/ 16 <= length ivs < 20)%nat.
Proof.
  intros Hp Hd. split.
  - intros [ph H]. destruct (scale_created _ _ _ _ _ H) as (_ & _ & _ & Hn). exact Hn.
  - intros Hn. unfold create_simple_scale_phrase, Phrase_new.
    destruct (scale_loop_succeeds root ivs 0 ltac:(lia) Hp) as [ns ->].
    assert (Hv : _validate_metadata (scale_metadata title str_of_int root ivs d style)
                 = Ok (with_defaults (scale_metadata title str_of_int root ivs d style))).
    { apply PhraseFacts.validate_ok_iff.
      exists (inject_Z d), (inject_Z (Z.max 1 (Z.of_nat (length ivs) / 4))), 120%Q.
      rewrite scale_metadata_difficulty, scale_metadata_bars, scale_metadata_tempo.
      cbn [mbind option_bind as_number].
      split; [reflexivity|]. split; [reflexivity|]. split; [reflexivity|].
      split; [change 1%Q with (inject_Z 1); rewrite <- Zle_Qle; lia|].
      split; [change 5%Q with (inject_Z 5); rewrite <- Zle_Qle; lia|].
      split; [|reflexivity].
      apply scale_bars_valid in Hn. cbv zeta in Hn.
      destruct Hn as [E|[E|E]]; rewrite E; [left|right; left|right; right];
        reflexivity. }
    rewrite Hv. eauto.
Qed.


End ScaleFacts.

Lemma scale_phrase_fits_its_bars_iff_witness :
  let ph := mkPhrase
    [mkNote 60 0 (4 # 5) 80; mkNote 62 1 (4 # 5) 80; mkNote 63 2 (4 # 5) 80;
     mkNote 65 3 (4 # 5) 80; mkNote 67 4 (4 # 5) 80]
    (with_defaults (scale_metadata (fun s => s) (fun _ => "60") 60 [0; 2; 3; 5; 7] 1
                                   "scales")) in
  length (notes ph) = 5%nat /\
  (validate_timing ph = Ok true <-> (5 <= 4 \/ 5 = 8 \/ 5 = 16)%nat).
Proof.
  apply (scale_phrase_fits_its_bars_iff (fun s => s) (fun _ => "60") 60 [0; 2; 3; 5; 7]
           1 "scales").
  vm_compute. reflexivity.
Defined.

Lemma scale_phrase_created_iff_witness :
  (exists ph, create_simple_scale_phrase (fun s => s) (fun _ => "60") 60
                [0; 1; 2; 3; 4; 5; 6; 7; 8; 9; 10; 11] 2 "scales" = Ok ph) <->
  (12 < 12 \/ 16 <= 12 < 20)%nat.
Proof.
  apply (scale_phrase_created_iff (fun s => s) (fun _ => "60") 60
           [0; 1; 2; 3; 4; 5; 6; 7; 8; 9; 10; 11] 2 "scales").
  - repeat constructor; lia.
  - lia.
Defined.


(** X13.  For a phrase in 4/4 the recording window is as long as the phrase
  took to play: the duration [get_duration_seconds(bpm)] the playback worker
  waits for equals the response duration the session computes from the
  phrase's measures at the same tempo. *)
Theorem response_window_matches_playback
    (ph : Phrase) (b den tempo : Z) (timeout : Q) :
  metadata ph !! "bars" = Some (VInt b) ->
  metadata ph !! "time_signature" = Some (VPair 4 den) ->
  tempo <> 0 ->
  exists seconds,
    get_duration_seconds ph (Some (inject_Z tempo)) = Ok seconds /\
    (seconds ==
     Listening.get_response_duration
       (Listening.mkConfig timeout (measures ph) tempo))%Q.
Proof.
  intros Hb Hts Ht.
  assert (Hq : ~ (inject_Z tempo == 0)%Q).
  { intros H. apply Ht. unfold Qeq in H. cbn in H. lia. }
  assert (E0 : Qeq_bool (inject_Z tempo) 0 = false).
  { destruct (Qeq_bool (inject_Z tempo) 0) eqn:E; [|reflexivity].
    apply Qeq_bool_iff in E. contradiction. }
  assert (E1 : Qeq_bool (inject_Z tempo / 60) 0 = false).
  { destruct (Qeq_bool (inject_Z tempo / 60) 0) eqn:E; [|reflexivity].
    apply Qeq_bool_iff in E. exfalso. apply Hq.
    assert (H60 : (inject_Z tempo == inject_Z tempo / 60 * 60)%Q) by field.
    rewrite H60, E. reflexivity. }
  unfold get_duration_seconds, get_duration_beats. rewrite E0, Hb, Hts.
  cbn [mbind option_bind as_number]. rewrite E1.
  eexists. split; [reflexivity|].
  unfold Listening.get_response_duration, measures, bars.
  cbn [Listening.response_measures Listening.bpm]. rewrite Hb.
  rewrite inject_Z_mult. change (inject_Z 4) with 4%Q. field. exact Hq.
Qed.

Lemma response_window_matches_playback_witness :
  exists seconds,
    get_duration_seconds (mkPhrase [] (with_defaults ∅)) (Some (inject_Z 90))
      = Ok seconds /\
    (seconds ==
     Listening.get_response_duration
       (Listening.mkConfig 8 (measures (mkPhrase [] (with_defaults ∅))) 90))%Q.
Proof.
  apply (response_window_matches_playback (mkPhrase [] (with_defaults ∅)) 2 4 90 8%Q).
  - vm_compute. reflexivity.
  - vm_compute. reflexivity.
  - lia.
Defined.


End PhraseMoreFacts.

(** ** Theorems: envelope, silence and the release tail *)

Module SynthMoreFacts.
Import Synth SynthMore.

(** X14.  With positive attack, decay and release times and a sustain level
  within 0..1, the envelope amplitude lies within 0..1 at every time that is
  not negative, before and after the release. *)
Theorem envelope_amplitude_in_unit_range
    (env : ADSREnvelope) (time_since_start : Q) (note_released : bool)
    (time_since_release : Q) :
  envelope_ok env ->
  (0 <= time_since_start)%Q -> (0 <= time_since_release)%Q ->
  (0 <= get_amplitude env time_since_start note_released time_since_release)%Q /\
  (get_amplitude env time_since_start note_released time_since_release <= 1)%Q.
Proof.
  intros (Ha & Hd & Hr & Hs0 & Hs1) Ht Htr. unfold get_amplitude.
  destruct note_released.
  - destruct (Qle_bool (release env) time_since_release) eqn:E; [split; lra|].
    apply Qle_bool_false_iff in E.
    set (x := (time_since_release / release env)%Q).
    assert (Hx : (x * release env == time_since_release)%Q)
      by (unfold x; field; lra).
    assert (Hx0 : (0 <= x)%Q) by (apply Qle_shift_div_l; lra).
    assert (Hx1 : (x <= 1)%Q) by (apply Qle_shift_div_r; lra).
    split; nra.
  - destruct (Qltb time_since_start (attack env)) eqn:E1.
    + apply Qltb_true_iff in E1.
      split; [apply Qle_shift_div_l; lra | apply Qle_shift_div_r; lra].
    + apply Qltb_false_iff in E1.
      destruct (Qltb time_since_start (attack env + decay env)) eqn:E2;
        [|split; lra].
      apply Qltb_true_iff in E2. cbv zeta.
      set (x := ((time_since_start - attack env) / decay env)%Q).
      assert (Hx0 : (0 <= x)%Q) by (apply Qle_shift_div_l; lra).
      assert (Hx1 : (x <= 1)%Q) by (apply Qle_shift_div_r; lra).
      split; nra.
Qed.

Lemma envelope_amplitude_in_unit_range_witness :
  (0 <= get_amplitude default_envelope (5 # 100) false 0)%Q /\
  (get_amplitude default_envelope (5 # 100) false 0 <= 1)%Q.
Proof.
  apply envelope_amplitude_in_unit_range.
  - unfold envelope_ok. cbn. repeat split; lra.
  - lra.
  - lra.
Defined.

Lemma clip_zero (x : Q) : (x == 0)%Q -> (clip (-1) 1 x == 0)%Q.
Proof.
  intros Hx. unfold clip, Qmin, Qmax.
  destruct (Qle_bool x (-1)) eqn:E1.
  - apply Qle_bool_iff in E1. lra.
  - destruct (Qle_bool x 1) eqn:E2; [exact Hx|].
    apply Qle_bool_false_iff in E2. lra.
Qed.

Section WithOscillator.
Variable sin : Q -> Q.
Variable two_pi : Q.
Variable pow2 : Q -> Q.

Lemma empty_synth_is_silent (s : AudioSynthesizer) (n : nat) (t : Q) :
  active_notes s = ∅ -> released_notes s = ∅ ->
  silent (fst (generate_audio_buffer sin two_pi s n t)) /\
  active_notes (snd (generate_audio_buffer sin two_pi s n t)) = ∅ /\
  released_notes (snd (generate_audio_buffer sin two_pi s n t)) = ∅.
Proof.
  intros Ha Hr. unfold generate_audio_buffer. cbn [fst snd active_notes released_notes].
  rewrite Ha, Hr, map_to_list_empty. cbn [foldl].
  split; [|split].
  - unfold silent. apply Forall_fmap, Forall_fmap, Forall_forall.
    intros x Hx. apply elem_of_replicate in Hx as [-> _].
    cbn beta. apply clip_zero. ring.
  - apply fmap_empty.
  - apply omap_empty.
Qed.

(** X15.  [stop_all_notes] silences the synthesizer: whatever was sounding or
  fading, the note count is 0 afterwards and the next buffer holds only
  zeros, as many as were asked for. *)
Theorem stop_all_notes_silences (s : AudioSynthesizer) (n : nat) (t : Q) :
  get_active_note_count (stop_all_notes s) = 0%nat /\
  length (fst (generate_audio_buffer sin two_pi (stop_all_notes s) n t)) = n /\
  silent (fst (generate_audio_buffer sin two_pi (stop_all_notes s) n t)).
Proof.
  split; [reflexivity|]. split.
  - unfold generate_audio_buffer. cbn [fst stop_all_notes active_notes released_notes].
    rewrite map_to_list_empty. cbn [foldl]. rewrite !length_fmap.
    apply length_replicate.
  - apply empty_synth_is_silent; reflexivity.
Qed.

(** X16.  The release tail: a released note stays in the synthesizer over a
  buffer computed less than the release time after its release, and is gone
  after a buffer computed at or past it.  No other released note is dropped
  or added, and the sounding notes keep their pitches. *)
Theorem released_note_dropped_exactly_when_faded
    (s : AudioSynthesizer) (n : nat) (t : Q) (p : Z) (note : ActiveNote) (r : Q) :
  released_notes s !! p = Some (note, r) ->
  let s' := snd (generate_audio_buffer sin two_pi s n t) in
  (released_notes s' !! p = None <-> (release (envelope s) <= t - r)%Q) /\
  (forall q, released_notes s !! q = None -> released_notes s' !! q = None) /\
  (forall q, is_Some (active_notes s' !! q) <-> is_Some (active_notes s !! q)).
Proof.
  intros Hp. cbv zeta. unfold generate_audio_buffer.
  cbn [snd released_notes active_notes]. split; [|split].
  - rewrite lookup_omap, Hp. cbn [mbind option_bind after_release_pass].
    destruct (Qle_bool (release (envelope s)) (t - r)) eqn:E.
    + apply Qle_bool_iff in E. split; auto.
    + apply Qle_bool_false_iff in E. split; [discriminate|]. intros H. lra.
  - intros q Hq. rewrite lookup_omap, Hq. reflexivity.
  - intros q. rewrite lookup_fmap.
    destruct (active_notes s !! q); cbn; split; intros [x Hx]; eauto; discriminate.
Qed.

End WithOscillator.

Lemma released_note_dropped_exactly_when_faded_witness :
  let s0 := Synth.note_off
              (Synth.note_on (fun _ => 1%Q) (Synth.init 44100 512) 60 100 0%Q)
              60 1%Q in
  (released_notes (snd (generate_audio_buffer (fun _ => 0%Q) 6%Q s0 4 2%Q)) !! 60 = None
   <-> (release (envelope s0) <= 2 - 1)%Q).
Proof.
  intros s0.
  refine (proj1 (released_note_dropped_exactly_when_faded (fun _ => 0%Q) 6%Q s0 4 2%Q 60
                   _ 1%Q _)).
  vm_compute. reflexivity.
Defined.

End SynthMoreFacts.

(** ** Theorems: drum loop, drum queue and beat boundaries *)

Module DrumMoreFacts.
Import Synth SynthMore DrumAudio.

Lemma run_genre_known ops : forall d,
  Drum.current_genre d ∈ Drum.patterns ->
  Drum.current_genre (Drum.run d ops) ∈ Drum.patterns.
Proof.
  induction ops as [|o ops IH]; intros d H; [exact H|].
  cbn [Drum.run foldl]. apply IH.
  destruct o; cbn [Drum.apply_op].
  - exact H.
  - unfold Drum.set_genre. case_bool_decide; [cbn; assumption|exact H].
  - unfold Drum.start_drumming. destruct (Drum.is_playing d); exact H.
  - unfold Drum.stop_drumming. destruct (Drum.is_playing d); exact H.
Qed.

(** X17.  After any sequence of [set_bpm], [set_genre], [start_drumming] and
  [stop_drumming] on a new drum engine, the drum loop finds what it needs:
  the current genre is one of the defined patterns, the beat duration is
  positive, and the position within the measure it computes for any elapsed
  time (negative ones too) lies in [1, 5). *)
Theorem drum_loop_position_in_measure (ops : list Drum.op) (elapsed : Q) :
  let d := Drum.run Drum.init ops in
  Drum.current_genre d ∈ Drum.patterns /\
  (0 < Drum.beat_duration d)%Q /\
  (1 <= Drum.measure_position d elapsed)%Q /\
  (Drum.measure_position d elapsed < 5)%Q.
Proof.
  cbv zeta.
  assert (Hg : Drum.current_genre (Drum.run Drum.init ops) ∈ Drum.patterns).
  { apply run_genre_known. cbn. set_solver. }
  assert (Hb : 60 <= Drum.bpm (Drum.run Drum.init ops) <= 180).
  { apply DrumFacts.run_range. cbn. lia. }
  set (d := Drum.run Drum.init ops) in *.
  assert (Hbd : (0 < Drum.beat_duration d)%Q).
  { unfold Drum.beat_duration. apply PlayerFacts.beat_interval_pos. lia. }
  split; [exact Hg|]. split; [exact Hbd|].
  unfold Drum.measure_position. cbv zeta.
  set (bd := Drum.beat_duration d) in *.
  destruct (PlayerFacts.Qpymod_range elapsed (bd * 4)%Q) as [H0 H4]; [lra|].
  set (r := Qpymod elapsed (bd * 4)) in *.
  set (y := (r / bd)%Q).
  assert (Hy : (y * bd == r)%Q) by (unfold y; field; lra).
  assert (Hy0 : (0 <= y)%Q) by (apply Qle_shift_div_l; lra).
  assert (Hy4 : (y < 4)%Q) by (apply Qlt_shift_div_r; lra).
  split; lra.
Qed.

(** *** The queue of drum chunks *)

Lemma add_prefix_length mixed d : length (add_prefix mixed d) = length mixed.
Proof.
  revert d. induction mixed as [|m ms IH]; intros [|x xs]; cbn; try reflexivity.
  f_equal. apply IH.
Qed.

Lemma mix_chunks_shape n buf : forall mixed rem,
  length mixed = n ->
  length (fst (foldl (mix_chunk n) (mixed, rem) buf)) = n /\
  snd (foldl (mix_chunk n) (mixed, rem) buf) = rem ++ carry_over n buf.
Proof.
  induction buf as [|d buf IH]; intros mixed rem Hm; cbn [foldl].
  - cbn. rewrite app_nil_r. auto.
  - replace (mix_chunk n (mixed, rem) d)
      with (if (length d <=? n)%nat then (add_prefix mixed d, rem)
            else (add_prefix mixed (take n d), rem ++ [drop n d]))
      by reflexivity.
    unfold carry_over. cbn [List.filter].
    destruct (length d <=? n)%nat eqn:E; cbn [negb].
    + apply IH. rewrite add_prefix_length. exact Hm.
    + destruct (IH (add_prefix mixed (take n d)) (rem ++ [drop n d])) as [H1 H2].
      { rewrite add_prefix_length. exact Hm. }
      split; [exact H1|]. rewrite H2. cbn [map]. rewrite <- app_assoc. reflexivity.
Qed.

Lemma get_drum_audio_fst_length buf n : length (fst (get_drum_audio buf n)) = n.
Proof.
  unfold get_drum_audio. destruct buf as [|d buf]; [apply length_replicate|].
  destruct (mix_chunks_shape n (d :: buf) (replicate n 0%Q) []) as [H _];
    [apply length_replicate|].
  destruct (foldl _ _ _) as [mixed rem]. cbn [fst] in *.
  rewrite length_fmap. exact H.
Qed.

Lemma get_drum_audio_snd buf n : snd (get_drum_audio buf n) = carry_over n buf.
Proof.
  unfold get_drum_audio. destruct buf as [|d buf]; [reflexivity|].
  destruct (mix_chunks_shape n (d :: buf) (replicate n 0%Q) []) as [_ H];
    [apply length_replicate|].
  destruct (foldl _ _ _) as [mixed rem]. cbn [snd] in *. exact H.
Qed.

Lemma carry_over_length n buf : (length (carry_over n buf) <= length buf)%nat.
Proof.
  unfold carry_over. rewrite length_map.
  induction buf as [|d buf IH]; cbn; [lia|].
  destruct (negb _); cbn; lia.
Qed.

(** X18.  One call of [get_drum_audio] returns exactly the samples asked for,
  each within [-1, 1], and leaves in the queue, in their order, the parts
  past this buffer of the chunks that were longer than it; every chunk it
  leaves still has samples to play. *)
Theorem get_drum_audio_shape (drum_buffer : list (list Q)) (num_samples : nat) :
  length (fst (get_drum_audio drum_buffer num_samples)) = num_samples /\
  Forall in_unit (fst (get_drum_audio drum_buffer num_samples)) /\
  snd (get_drum_audio drum_buffer num_samples) = carry_over num_samples drum_buffer /\
  Forall (fun d => (0 < length d)%nat) (snd (get_drum_audio drum_buffer num_samples)).
Proof.
  split; [apply get_drum_audio_fst_length|]. split; [|split].
  - unfold get_drum_audio. destruct drum_buffer as [|d buf].
    + cbn [fst]. apply Forall_forall. intros x Hx.
      apply elem_of_replicate in Hx as [-> _]. split; lra.
    + destruct (foldl _ _ _) as [mixed rem]. cbn [fst].
      apply Forall_fmap, Forall_forall. intros x _. apply SynthFacts.clip_bounds.
  - apply get_drum_audio_snd.
  - rewrite get_drum_audio_snd. unfold carry_over.
    induction drum_buffer as [|d buf IH]; cbn [List.filter map]; [constructor|].
    destruct (length d <=? num_samples)%nat eqn:E; cbn [negb map]; [exact IH|].
    constructor; [|exact IH]. apply Nat.leb_gt in E. rewrite length_drop. lia.
Qed.

Lemma play_length buf a :
  (length buf <= 10)%nat -> (length (_play_drum_audio buf a) <= 10)%nat.
Proof.
  intros H. unfold _play_drum_audio.
  destruct (10 <? length (buf ++ [a]))%nat eqn:E.
  - destruct buf as [|b buf]; cbn in *; [lia|]. rewrite length_app in *. cbn in *. lia.
  - apply Nat.ltb_ge in E. exact E.
Qed.

Lemma run_queue_bounded ops : forall buf,
  (length buf <= 10)%nat -> (length (run buf ops) <= 10)%nat.
Proof.
  induction ops as [|o ops IH]; intros buf H; [exact H|].
  cbn [run foldl]. apply IH. destruct o; cbn [apply_op].
  - apply play_length, H.
  - rewrite get_drum_audio_snd. pose proof (carry_over_length num_samples buf). lia.
Qed.

(** X19.  The queue of drum chunks never holds more than 10 chunks, whatever
  the drum loop queues and the audio callback takes; and a chunk that was
  just queued is the newest one in it. *)
Theorem drum_queue_is_bounded (ops : list op) (audio_data : list Q) :
  (length (run [] ops) <= 10)%nat /\
  List.last (_play_drum_audio (run [] ops) audio_data) [] = audio_data.
Proof.
  split; [apply run_queue_bounded; cbn; lia|].
  generalize (run [] ops) as buf. intros buf. unfold _play_drum_audio.
  destruct (10 <? length (buf ++ [audio_data]))%nat eqn:E.
  - destruct buf as [|b buf]; [discriminate|]. cbn [app tail]. apply last_last.
  - apply last_last.
Qed.

(** *** A chunk is played out sample by sample *)

Lemma nth_fmap_clip (l : list Q) i :
  nth i (clip (-1) 1 <$> l) 0%Q = clip (-1) 1 (nth i l 0%Q).
Proof.
  revert i. induction l as [|x l IH]; intros [|i]; cbn; try reflexivity. apply IH.
Qed.

Lemma nth_replicate_zero n i : nth i (replicate n 0%Q) 0%Q = 0%Q.
Proof.
  revert i. induction n as [|n IH]; intros [|i]; cbn; try reflexivity. apply IH.
Qed.

Lemma nth_add_prefix mixed : forall d i,
  (i < length mixed)%nat ->
  (nth i (add_prefix mixed d) 0 == nth i mixed 0 + nth i d 0)%Q.
Proof.
  induction mixed as [|m ms IH]; intros d i Hi; cbn in Hi; [lia|].
  destruct d as [|x xs].
  - cbn [add_prefix]. destruct i; cbn; ring.
  - cbn [add_prefix]. destruct i as [|i]; cbn [nth]; [reflexivity|].
    apply IH. lia.
Qed.

Lemma clip_id (x : Q) : in_unit x -> (clip (-1) 1 x == x)%Q.
Proof.
  intros [H1 H2]. unfold clip, Qmin, Qmax.
  destruct (Qle_bool x (-1)) eqn:E1.
  - apply Qle_bool_iff in E1. change (Qle_bool (-1) 1) with true. cbv iota. lra.
  - destruct (Qle_bool x 1) eqn:E2; [reflexivity|].
    apply Qle_bool_false_iff in E2. lra.
Qed.

Lemma clip_proper (x y : Q) : (x == y)%Q -> in_unit y -> (clip (-1) 1 x == y)%Q.
Proof.
  intros Hxy Hy. rewrite <- Hxy. apply clip_id. destruct Hy. split; lra.
Qed.

Lemma nth_in_unit (d : list Q) i : Forall in_unit d -> in_unit (nth i d 0%Q).
Proof.
  intros H. revert i. induction H as [|x d Hx _ IH]; intros [|i]; cbn;
    try (split; lra); auto.
Qed.

Lemma nth_first_chunk (d : list Q) n i :
  Forall in_unit d -> (i < n)%nat ->
  (nth i (clip (-1) 1 <$> add_prefix (replicate n 0%Q) d) 0 == nth i d 0)%Q.
Proof.
  intros Hd Hi. rewrite nth_fmap_clip. apply clip_proper; [|apply nth_in_unit, Hd].
  rewrite nth_add_prefix by (rewrite length_replicate; exact Hi).
  rewrite nth_replicate_zero. ring.
Qed.

Lemma nth_take (d : list Q) n i : (i < n)%nat -> nth i (take n d) 0%Q = nth i d 0%Q.
Proof.
  revert n i. induction d as [|x d IH]; intros [|n] [|i] H; cbn; try reflexivity; try lia.
  apply IH. lia.
Qed.

Lemma nth_drop (d : list Q) n i : nth i (drop n d) 0%Q = nth (n + i) d 0%Q.
Proof.
  revert n. induction d as [|x d IH]; intros [|n]; cbn; try reflexivity.
  - destruct i; reflexivity.
  - apply IH.
Qed.

Lemma drain_length buf n k : length (drain buf n k) = (k * n)%nat.
Proof.
  revert buf. induction k as [|k IH]; intros buf; cbn [drain]; [reflexivity|].
  rewrite length_app, get_drum_audio_fst_length, IH. lia.
Qed.

Lemma drain_empty n k i : nth i (drain [] n k) 0%Q = 0%Q.
Proof.
  revert i. induction k as [|k IH]; intros i; cbn [drain].
  - destruct i; reflexivity.
  - cbn [get_drum_audio fst snd].
    destruct (Nat.lt_ge_cases i n) as [Hi|Hi].
    + rewrite app_nth1 by (rewrite length_replicate; exact Hi).
      apply nth_replicate_zero.
    + rewrite app_nth2 by (rewrite length_replicate; exact Hi). apply IH.
Qed.

(** X20.  A drum chunk whose samples lie within [-1, 1] and which is alone in
  the queue is played out sample by sample over the following callbacks:
  the [k] buffers of [n] samples handed out hold the chunk's samples at
  their positions and zeros after its end, whether the chunk fits into one
  buffer or is carried over several. *)
Theorem drum_chunk_is_played_out (d : list Q) (n k : nat) :
  Forall in_unit d ->
  length (drain [d] n k) = (k * n)%nat /\
  forall i, (i < k * n)%nat -> (nth i (drain [d] n k) 0 == nth i d 0)%Q.
Proof.
  intros Hd. split; [apply drain_length|].
  revert d Hd. induction k as [|k IH]; intros d Hd i Hi; [cbn in Hi; lia|].
  cbn [drain]. rewrite get_drum_audio_snd.
  unfold get_drum_audio, carry_over. cbn [foldl List.filter map mix_chunk].
  destruct (length d <=? n)%nat eqn:E; cbn [negb map fst].
  - apply Nat.leb_le in E.
    destruct (Nat.lt_ge_cases i n) as [Hin|Hin].
    + rewrite app_nth1 by (rewrite length_fmap, add_prefix_length, length_replicate;
                           exact Hin).
      apply nth_first_chunk; assumption.
    + rewrite app_nth2 by (rewrite length_fmap, add_prefix_length, length_replicate;
                           exact Hin).
      rewrite drain_empty, nth_overflow by lia. reflexivity.
  - apply Nat.leb_gt in E.
    destruct (Nat.lt_ge_cases i n) as [Hin|Hin].
    + rewrite app_nth1 by (rewrite length_fmap, add_prefix_length, length_replicate;
                           exact Hin).
      rewrite nth_first_chunk by (try apply Forall_take; assumption).
      rewrite nth_take by exact Hin. reflexivity.
    + rewrite app_nth2 by (rewrite length_fmap, add_prefix_length, length_replicate;
                           exact Hin).
      rewrite length_fmap, add_prefix_length, length_replicate.
      rewrite IH.
      * rewrite nth_drop. replace (n + (i - n))%nat with i by lia. reflexivity.
      * apply Forall_drop, Hd.
      * cbn in Hi. lia.
Qed.

Lemma drum_chunk_is_played_out_witness :
  length (drain [[(1 # 2); (-1 # 4); (1 # 8)]%Q] 2 2) = (2 * 2)%nat /\
  forall i, (i < 2 * 2)%nat ->
    (nth i (drain [[(1 # 2); (-1 # 4); (1 # 8)]%Q] 2 2) 0
     == nth i [(1 # 2); (-1 # 4); (1 # 8)]%Q 0)%Q.
Proof.
  apply drum_chunk_is_played_out.
  repeat constructor; cbn; lra.
Defined.

(** *** Beat boundaries *)

Lemma last_position_ge prev positions :
  increasing prev positions -> (prev <= last_position prev positions)%Q.
Proof.
  revert prev. induction positions as [|cur rest IH]; intros prev H; cbn.
  - lra.
  - destruct H as [H1 H2]. specialize (IH cur H2). unfold last_position in IH. lra.
Qed.

(** X21.  While the positions the drum loop reads only move forward within a
  measure, a target beat is detected exactly once if it lies after the first
  position and not after the last one, and never otherwise: no beat is
  triggered twice and none is skipped, however the reads fall. *)
Theorem beat_is_crossed_exactly_once
    (previous_beat : Q) (positions : list Q) (target_beat : Q) :
  increasing previous_beat positions ->
  crossings previous_beat positions target_beat =
  if Qltb previous_beat target_beat
     && Qle_bool target_beat (last_position previous_beat positions)
  then 1%nat else 0%nat.
Proof.
  revert previous_beat.
  induction positions as [|cur rest IH]; intros prev Hinc.
  - cbn. destruct (Qltb prev target_beat) eqn:E1; [|reflexivity].
    destruct (Qle_bool target_beat prev) eqn:E2; [|reflexivity].
    apply Qltb_true_iff in E1. apply Qle_bool_iff in E2. lra.
  - destruct Hinc as [Hlt Hinc]. cbn [crossings]. rewrite (IH cur Hinc).
    pose proof (last_position_ge cur rest Hinc) as Hge.
    change (last_position prev (cur :: rest)) with (last_position cur rest).
    set (L := last_position cur rest) in *.
    unfold crossed_beat.
    assert (Ewrap : Qltb (45 # 10) prev && Qltb cur (15 # 10) = false).
    { destruct (Qltb (45 # 10) prev) eqn:A; [|reflexivity].
      destruct (Qltb cur (15 # 10)) eqn:B; [|reflexivity].
      apply Qltb_true_iff in A, B. lra. }
    rewrite Ewrap.
    destruct (Qltb prev target_beat) eqn:E1;
      destruct (Qle_bool target_beat cur) eqn:E2;
      destruct (Qltb cur target_beat) eqn:E3;
      destruct (Qle_bool target_beat L) eqn:E4; cbn; try reflexivity; exfalso;
      repeat match goal with
             | H : Qltb _ _ = true |- _ => apply Qltb_true_iff in H
             | H : Qltb _ _ = false |- _ => apply Qltb_false_iff in H
             | H : Qle_bool _ _ = true |- _ => apply Qle_bool_iff in H
             | H : Qle_bool _ _ = false |- _ => apply Qle_bool_false_iff in H
             end; lra.
Qed.

Lemma beat_is_crossed_exactly_once_witness :
  crossings (19 # 10) [(197 # 100); (204 # 100); (211 # 100)]%Q 2 = 1%nat.
Proof.
  refine (beat_is_crossed_exactly_once (19 # 10) [(197 # 100); (204 # 100); (211 # 100)]%Q
            2 _).
  cbn. repeat split; lra.
Defined.

End DrumMoreFacts.

(** ** Theorems: the audio engine *)

Module EngineFacts.
Import Synth SynthMore Engine.

Section WithOscillator.
Variable sin : Q -> Q.
Variable two_pi : Q.
Variable pow2 : Q -> Q.

Lemma synth_buffer_shape (s : AudioSynthesizer) (n : nat) (t : Q) :
  length (fst (generate_audio_buffer sin two_pi s n t)) = n /\
  Forall in_unit (fst (generate_audio_buffer sin two_pi s n t)).
Proof.
  unfold generate_audio_buffer. cbn [fst]. split.
  - rewrite !length_fmap.
    apply (SynthFacts.mix_length
             (fun kv => fst (_generate_note_samples sin two_pi s (fst (snd kv)) n t
                                                    (Some (snd (snd kv)))))).
    + apply (SynthFacts.mix_length
               (fun kv => fst (_generate_note_samples sin two_pi s (snd kv) n t None))).
      * apply length_replicate.
      * intros a. apply SynthFacts.note_samples_length.
    + intros a. apply SynthFacts.note_samples_length.
  - apply Forall_fmap. apply Forall_forall. intros x _. apply SynthFacts.clip_bounds.
Qed.

(** X22.  What the engine hands to the audio stream: with or without drums,
  [_mixed_audio_callback] returns exactly the frames asked for, each within
  [-1, 1], whatever notes sound and whatever drum chunks are queued. *)
Theorem mixed_callback_is_bounded (e : AudioEngine) (frames : nat) (now : Q) :
  length (fst (_mixed_audio_callback sin two_pi e frames now)) = frames /\
  Forall in_unit (fst (_mixed_audio_callback sin two_pi e frames now)).
Proof.
  unfold _mixed_audio_callback.
  destruct (synth_buffer_shape (synthesizer e) frames now) as [Hl Hb].
  destruct (generate_audio_buffer sin two_pi (synthesizer e) frames now)
    as [synth_audio synth'].
  cbn [fst] in Hl, Hb.
  destruct (Drum.is_playing (drum_engine e)); [|split; assumption].
  pose proof (DrumMoreFacts.get_drum_audio_fst_length (drum_buffer e) frames) as Hd.
  destruct (DrumAudio.get_drum_audio (drum_buffer e) frames) as [drum_audio rest].
  cbn [fst] in *. split.
  - unfold mix. rewrite length_fmap, length_zip_with, Hl, Hd. lia.
  - apply Forall_fmap, Forall_forall. intros x _. apply SynthFacts.clip_bounds.
Qed.

Lemma apply_op_keeps_stopped_empty (e : AudioEngine) (o : op) :
  (is_running e = false ->
   active_notes (synthesizer e) = ∅ /\ released_notes (synthesizer e) = ∅) ->
  is_running (apply_op sin two_pi pow2 e o) = false ->
  active_notes (synthesizer (apply_op sin two_pi pow2 e o)) = ∅ /\
  released_notes (synthesizer (apply_op sin two_pi pow2 e o)) = ∅.
Proof.
  intros Hinv. destruct o; cbn [apply_op].
  - unfold start. destruct (is_running e) eqn:E; [congruence|]. cbn. discriminate.
  - unfold stop. destruct (is_running e) eqn:E; cbn [negb].
    + intros _. cbn. auto.
    + intros _. apply Hinv. reflexivity.
  - unfold note_on. destruct (is_running e) eqn:E; cbn [negb].
    + cbn. congruence.
    + intros _. apply Hinv. reflexivity.
  - unfold note_off. destruct (is_running e) eqn:E; cbn [negb].
    + cbn. congruence.
    + intros _. apply Hinv. reflexivity.
  - unfold _mixed_audio_callback.
    pose proof (SynthMoreFacts.empty_synth_is_silent sin two_pi (synthesizer e)
                  frames now) as Hs.
    destruct (generate_audio_buffer sin two_pi (synthesizer e) frames now)
      as [synth_audio synth'].
    destruct (Drum.is_playing (drum_engine e)).
    + destruct (DrumAudio.get_drum_audio (drum_buffer e) frames) as [drum_audio rest].
      cbn. intros Hr. destruct (Hinv Hr) as [Ha Hrel].
      destruct (Hs Ha Hrel) as (_ & H1 & H2). auto.
    + cbn. intros Hr. destruct (Hinv Hr) as [Ha Hrel].
      destruct (Hs Ha Hrel) as (_ & H1 & H2). auto.
  - cbn. exact Hinv.
  - cbn. exact Hinv.
Qed.

Lemma run_keeps_stopped_empty ops : forall e,
  (is_running e = false ->
   active_notes (synthesizer e) = ∅ /\ released_notes (synthesizer e) = ∅) ->
  is_running (run sin two_pi pow2 e ops) = false ->
  active_notes (synthesizer (run sin two_pi pow2 e ops)) = ∅ /\
  released_notes (synthesizer (run sin two_pi pow2 e ops)) = ∅.
Proof.
  induction ops as [|o ops IH]; intros e Hinv; [exact Hinv|].
  cbn [run foldl]. apply IH. apply apply_op_keeps_stopped_empty. exact Hinv.
Qed.

(** X23.  An engine that is not running holds no note: after any sequence of
  starts, stops, note-ons, note-offs, audio callbacks, drum controls and drum
  hits on a new engine, if the engine is stopped then the synthesizer's note
  count is 0 and an audio callback would return silence from it.  A note-on
  sent while the engine is stopped is dropped, and [stop] cuts every
  sounding and fading note. *)
Theorem stopped_engine_holds_no_note
    (rate size : Z) (ops : list op) (frames : nat) (now : Q) :
  let e := run sin two_pi pow2 (init rate size) ops in
  is_running e = false ->
  get_active_note_count (synthesizer e) = 0%nat /\
  silent (fst (generate_audio_buffer sin two_pi (synthesizer e) frames now)).
Proof.
  cbv zeta. intros Hr.
  destruct (run_keeps_stopped_empty ops (init rate size)) as [Ha Hrel].
  - intros _. split; reflexivity.
  - exact Hr.
  - split.
    + unfold get_active_note_count. rewrite Ha, Hrel. reflexivity.
    + apply SynthMoreFacts.empty_synth_is_silent; assumption.
Qed.

End WithOscillator.

Lemma stopped_engine_holds_no_note_witness :
  let e := run (fun _ => 1%Q) 6%Q (fun _ => 1%Q) (init 44100 512)
             [NoteOn 60 100 0%Q; Start; NoteOn 64 90 1%Q; NoteOff 64 2%Q; Stop;
              NoteOn 67 80 3%Q] in
  get_active_note_count (synthesizer e) = 0%nat /\
  silent (fst (generate_audio_buffer (fun _ => 1%Q) 6%Q (synthesizer e) 4 4%Q)).
Proof.
  apply (stopped_engine_holds_no_note (fun _ => 1%Q) 6%Q (fun _ => 1%Q) 44100 512
           [NoteOn 60 100 0%Q; Start; NoteOn 64 90 1%Q; NoteOff 64 2%Q; Stop;
            NoteOn 67 80 3%Q] 4 4%Q).
  vm_compute. reflexivity.
Defined.

End EngineFacts.

(** ** Theorems: the session between and within rounds *)

Module ListeningMoreFacts.
Import PhraseData Listening ManagerMore Scenarios.


Lemma response_notes_kept_witness :
  exists ph,
    _convert_midi_recording_to_phrase 120 "student_response_1"
      [EvNoteOn 60 80 0; EvNoteOff 60 (1 # 2); EvNoteOn 62 70 1] = Some ph /\
    notes ph = [mkNote 60 (0 # 60) (120 # 120) 80; mkNote 62 (120 # 60) (1 # 2) 70].
Proof.
  apply (ListeningFacts.response_notes_kept 120 "student_response_1"
           [EvNoteOn 60 80 0; EvNoteOff 60 (1 # 2); EvNoteOn 62 70 1]
           [mkNote 60 (0 # 60) (120 # 120) 80] [(62, (70, 1%Q))]).
  - discriminate.
  - lia.
  - vm_compute. reflexivity.
  - vm_compute. reflexivity.
  - left. vm_compute. reflexivity.
Defined.

Lemma response_notes_have_origin_witness :
  exists ph,
    _convert_midi_recording_to_phrase 120 "student_response_1"
      [EvNoteOn 60 80 0; EvNoteOff 60 (1 # 2)] = Some ph /\
    forall n, In n (notes ph) ->
      note_origin [EvNoteOn 60 80 0; EvNoteOff 60 (1 # 2)] (inject_Z 120 / 60) n /\
      note_valid n.
Proof.
  eexists. split.
  - vm_compute. reflexivity.
  - apply (ListeningFacts.response_notes_have_origin 120 "student_response_1").
    vm_compute. reflexivity.
Defined.

(** *** The first note of a response *)

Lemma cs_recording_keeps_events lib now rnd m :
  session_active m = true -> recording_active m = true ->
  recorded_midi_events (fst (_change_state lib now rnd RECORDING_RESPONSE m))
    = recorded_midi_events m /\
  response_start_time (fst (_change_state lib now rnd RECORDING_RESPONSE m))
    = response_start_time m /\
  recording_active (fst (_change_state lib now rnd RECORDING_RESPONSE m)) = true.
Proof.
  intros Ha Hr. unfold _change_state, _enter_recording_state, emit, spawn_recording.
  cbn. rewrite Ha, Hr. cbn.
  repeat (case_match; cbn); auto.
Qed.

(** X27.  The note that ends the wait is not lost: when the first note-on
  arrives in LISTENING, the manager starts the recording at once with this
  note as its only event, at offset 0; when the listening worker then notices
  the input it moves the session to RECORDING_RESPONSE and the response
  recorded so far, with its start time, is kept. *)
Theorem first_note_opens_the_recording
    (lib : PhraseLibrary) (m : Manager) (now now' : Q) (rnd : nat)
    (note velocity : Z) (k : nat) :
  state m = LISTENING -> session_active m = true ->
  user_input_detected m = false -> stop_listening m = false ->
  listening_workers (threads m) = S k ->
  exists m2,
    listening_wake lib now' rnd false (on_midi_note_on now note velocity m) = Some m2 /\
    state m2 = RECORDING_RESPONSE /\
    recorded_midi_events m2 = [EvNoteOn note velocity (now - now)%Q] /\
    response_start_time m2 = Some now /\
    transitions m2 = transitions m ++ [(LISTENING, RECORDING_RESPONSE)].
Proof.
  intros Hst Ha Hu Hstop Hk.
  assert (E1 : on_midi_note_on now note velocity m =
    emit "user_input_detected" None
      (set_recorded_midi_events [EvNoteOn note velocity (now - now)%Q]
        (set_recording_active true
          (set_response_start_time (Some now)
            (set_user_input_detected true m))))).
  { unfold on_midi_note_on. rewrite Hu. rewrite bool_decide_eq_true_2 by exact Hst.
    reflexivity. }
  rewrite E1. clear E1.
  set (m1 := emit _ _ _).
  assert (F : threads m1 = threads m /\ stop_listening m1 = false /\
              user_input_detected m1 = true /\ session_active m1 = true /\
              state m1 = LISTENING /\ transitions m1 = transitions m /\
              recording_active m1 = true /\
              recorded_midi_events m1 = [EvNoteOn note velocity (now - now)%Q] /\
              response_start_time m1 = Some now).
  { subst m1. cbn. rewrite Hstop, Ha, Hst. repeat split; reflexivity. }
  destruct F as (Ft & Fs & Fu & Fa & Fst & Ftr & Fr & Fe & Frs).
  clearbody m1.
  unfold listening_wake. rewrite Ft, Hk.
  set (m0 := set_threads _ m1).
  assert (G : stop_listening m0 = false /\ user_input_detected m0 = true /\
              session_active m0 = true /\ state m0 = LISTENING /\
              transitions m0 = transitions m /\ recording_active m0 = true /\
              recorded_midi_events m0 = [EvNoteOn note velocity (now - now)%Q] /\
              response_start_time m0 = Some now).
  { subst m0. cbn. rewrite Fs, Fu, Fa, Fst, Ftr, Fr, Fe, Frs. repeat split; reflexivity. }
  destruct G as (Gs & Gu & Ga & Gst & Gtr & Gr & Ge & Grs).
  clearbody m0. cbv zeta. rewrite Gs, Gu.
  set (m1' := set_user_input_detected false m0).
  assert (K : session_active m1' = true /\ state m1' = LISTENING /\
              transitions m1' = transitions m /\ recording_active m1' = true /\
              recorded_midi_events m1' = [EvNoteOn note velocity (now - now)%Q] /\
              response_start_time m1' = Some now).
  { subst m1'. cbn. rewrite Ga, Gst, Gtr, Gr, Ge, Grs. repeat split; reflexivity. }
  destruct K as (Ka & Kst & Ktr & Kr & Ke & Krs).
  clearbody m1'. rewrite Ka.
  eexists. split; [reflexivity|].
  destruct (cs_recording_keeps_events lib now' rnd m1' Ka Kr) as (H1 & H2 & _).
  rewrite ListeningFacts.cs_state, ListeningFacts.cs_transitions, H1, H2, Ke, Krs,
    Ktr, Kst.
  repeat split; reflexivity.
Qed.

Lemma first_note_opens_the_recording_witness :
  let m := _on_phrase_finished demo_library 4 0 demo_phrase
             (start_session demo_library 0 0 "modal_jazz" 1 (Some 120) true init) in
  exists m2,
    listening_wake demo_library (101 # 20) 0 false (on_midi_note_on 5 60 80 m) = Some m2 /\
    state m2 = RECORDING_RESPONSE /\
    recorded_midi_events m2 = [EvNoteOn 60 80 (5 - 5)%Q] /\
    response_start_time m2 = Some 5%Q /\
    transitions m2 = transitions m ++ [(LISTENING, RECORDING_RESPONSE)].
Proof.
  intros m.
  apply (first_note_opens_the_recording demo_library m 5 (101 # 20) 0 60 80 0);
    vm_compute; reflexivity.
Defined.

(** *** Between sessions *)

(** X28.  While no session is active only [start_session] moves the state
  machine: every other call, scheduler callback or worker that acts (a
  listening, recording or evaluation worker left over from a stopped session
  included) leaves the state, the log of transitions, the inactive flag and
  the current phrase as they are. *)
Theorem nothing_moves_between_sessions
    (lib : PhraseLibrary) (now : Q) (rnd : nat) (e : Event) (m m' : Manager) :
  session_active m = false ->
  not_a_start e ->
  step lib now rnd e m = Some m' ->
  state m' = state m /\ transitions m' = transitions m /\
  session_active m' = false /\ current_phrase m' = current_phrase m.
Proof.
  intros Ha Hne Hstep.
  destruct e; cbn [not_a_start] in Hne; try contradiction; cbn [step] in Hstep.
  - injection Hstep as <-. cbn. auto.
  - injection Hstep as <-. cbn. auto.
  - unfold stop_session in Hstep. rewrite Ha in Hstep. injection Hstep as <-. auto.
  - unfold _on_phrase_started in Hstep. rewrite Ha in Hstep. injection Hstep as <-. auto.
  - unfold _on_phrase_finished in Hstep. rewrite Ha in Hstep. injection Hstep as <-. auto.
  - injection Hstep as <-. unfold on_midi_note_on, emit.
    repeat (case_match; cbn); auto.
  - injection Hstep as <-. unfold on_midi_note_off.
    repeat (case_match; cbn); auto.
  - unfold listening_wake, listening_timeout in Hstep.
    destruct (listening_workers (threads m)); [discriminate|].
    cbn in Hstep. rewrite Ha in Hstep.
    repeat (case_match; simplify_eq); cbn; auto.
  - unfold recording_done in Hstep.
    destruct (recording_workers (threads m)); [discriminate|].
    cbn in Hstep. rewrite Ha in Hstep. injection Hstep as <-. cbn. auto.
  - unfold evaluation_run, _evaluate_with_claude, emit in Hstep.
    destruct (evaluation_workers (threads m)); [discriminate|].
    repeat (case_match; simplify_eq; cbn in * ); auto.
  - unfold evaluation_done in Hstep.
    destruct (evaluation_sleepers (threads m)); [discriminate|].
    cbn in Hstep. rewrite Ha in Hstep. injection Hstep as <-. cbn. auto.
Qed.

Lemma nothing_moves_between_sessions_witness :
  let m := stop_session demo_library 6 0
             (on_midi_note_on 5 60 80
               (_on_phrase_finished demo_library 4 0 demo_phrase
                 (start_session demo_library 0 0 "modal_jazz" 1 (Some 120) true init))) in
  exists m',
    step demo_library 9 0 (ListeningWake false) m = Some m' /\
    state m' = state m /\ transitions m' = transitions m /\
    session_active m' = false /\ current_phrase m' = current_phrase m.
Proof.
  intros m. eexists. split; [vm_compute; reflexivity|].
  apply (nothing_moves_between_sessions demo_library 9 0 (ListeningWake false) m).
  - vm_compute. reflexivity.
  - exact I.
  - vm_compute. reflexivity.
Defined.

(** *** The evaluation used when the evaluator is not available *)

Lemma ratio_ge (a b : positive) (n k : Z) :
  0 < k ->
  Qle_bool (Zpos a # b) (inject_Z n / inject_Z k) = true <-> Zpos a * k <= Zpos b * n.
Proof.
  intros Hk.
  assert (Hk' : (0 < inject_Z k)%Q)
    by (change 0%Q with (inject_Z 0); rewrite <- Zlt_Qlt; exact Hk).
  assert (Hab : (Zpos a # b == inject_Z (Zpos a) / inject_Z (Zpos b))%Q)
    by (rewrite Qmake_Qdiv; reflexivity).
  assert (Hb' : (0 < inject_Z (Zpos b))%Q)
    by (change 0%Q with (inject_Z 0); rewrite <- Zlt_Qlt; lia).
  rewrite Qle_bool_iff, Hab.
  set (x := (inject_Z (Zpos a) / inject_Z (Zpos b))%Q).
  set (y := (inject_Z n / inject_Z k)%Q).
  assert (Hx : (x * inject_Z (Zpos b) == inject_Z (Zpos a))%Q) by (unfold x; field; lra).
  assert (Hy : (y * inject_Z k == inject_Z n)%Q) by (unfold y; field; lra).
  rewrite Zle_Qle, !inject_Z_mult. clearbody x y.
  set (A := inject_Z (Zpos a)) in *. set (B := inject_Z (Zpos b)) in *.
  set (N := inject_Z n) in *. set (K := inject_Z k) in *.
  assert (HBK : (0 < B * K)%Q) by nra.
  assert (E1 : (A * K == x * (B * K))%Q) by (rewrite <- Hx; ring).
  assert (E2 : (B * N == y * (B * K))%Q) by (rewrite <- Hy; ring).
  rewrite E1, E2. split; intros H.
  - apply Qmult_le_compat_r; [exact H|lra].
  - apply Qmult_lt_0_le_reg_r in H; assumption.
Qed.

(** X29.  The fallback evaluation is decided by the two note counts alone,
  an empty target counting as one note: with [n] notes played against [k]
  expected it grades B+ when 5n >= 4k and C+ when 4k > 5n and 2n >= k, asking
  to repeat in both cases, and grades C and asks for an easier phrase when
  2n < k.  It never asks for a harder one, and its confidence is 1/2. *)
Theorem fallback_follows_note_counts (target_phrase student_phrase : Phrase) :
  let n := Z.of_nat (length (notes student_phrase)) in
  let k := Z.max (Z.of_nat (length (notes target_phrase))) 1 in
  let ev := get_fallback_evaluation target_phrase student_phrase in
  (grade ev = "B+"%string /\ recommendation ev = "REPEAT"%string /\ 4 * k <= 5 * n \/
   grade ev = "C+"%string /\ recommendation ev = "REPEAT"%string /\
     5 * n < 4 * k /\ k <= 2 * n \/
   grade ev = "C"%string /\ recommendation ev = "SIMPLIFY"%string /\ 2 * n < k) /\
  confidence ev = (1 # 2)%Q.
Proof.
  cbv zeta. unfold get_fallback_evaluation.
  set (n := Z.of_nat (length (notes student_phrase))).
  set (k := Z.max (Z.of_nat (length (notes target_phrase))) 1).
  assert (Hk : 0 < k) by (subst k; lia).
  pose proof (ratio_ge 8 10 n k Hk) as H8.
  pose proof (ratio_ge 5 10 n k Hk) as H5.
  destruct (Qle_bool (8 # 10) (inject_Z n / inject_Z k)) eqn:E8.
  - split; [|reflexivity]. left. repeat split. apply proj1 in H8. specialize (H8 eq_refl). lia.
  - destruct (Qle_bool (5 # 10) (inject_Z n / inject_Z k)) eqn:E5.
    + split; [|reflexivity]. right. left. repeat split.
      * destruct (Z_lt_le_dec (5 * n) (4 * k)) as [|Hge]; [assumption|].
        assert (Hc : false = true) by (apply H8; lia). discriminate.
      * apply proj1 in H5. specialize (H5 eq_refl). lia.
    + split; [|reflexivity]. right. right. repeat split.
      destruct (Z_lt_le_dec (2 * n) k) as [|Hge]; [assumption|].
      assert (Hc : false = true) by (apply H5; lia). discriminate.
Qed.

(** *** The manager's own downbeat computation *)

(** X30.  With a session start that is set and a positive beat interval, the
  manager's [_calculate_next_downbeat] returns a time strictly after the
  current time, at most one measure away, and a whole number of measures
  after the session start; exactly on a measure boundary it returns the next
  boundary, not the current time. *)
Theorem manager_downbeat_is_strictly_ahead (start beat_interval current_time : Q) :
  ~ (start == 0)%Q -> (0 < beat_interval)%Q ->
  let d := _calculate_next_downbeat (Some start) beat_interval current_time in
  (current_time < d)%Q /\ (d <= current_time + 4 * beat_interval)%Q /\
  exists measures : Z, (d - start == inject_Z measures * (4 * beat_interval))%Q.
Proof.
  intros Hs Hb. cbv zeta. unfold _calculate_next_downbeat.
  assert (Es : Qeq_bool start 0 = false).
  { destruct (Qeq_bool start 0) eqn:E; [|reflexivity].
    apply Qeq_bool_iff in E. contradiction. }
  rewrite Es.
  set (be := ((current_time - start) / beat_interval)%Q).
  assert (Hbe : (be * beat_interval == current_time - start)%Q)
    by (unfold be; field; lra).
  destruct (PlayerFacts.Qpymod_range be 4) as [Hr0 Hr4]; [lra|].
  unfold Qpymod in *.
  set (q := Qfloor (be / 4)) in *.
  assert (Hq1 : (inject_Z (q * 4 + 1) == inject_Z q * 4 + 1)%Q)
    by (rewrite inject_Z_plus, inject_Z_mult; reflexivity).
  assert (Hq2 : (inject_Z ((q + 1) * 4 + 1) == (inject_Z q + 1) * 4 + 1)%Q)
    by (rewrite inject_Z_plus, inject_Z_mult, inject_Z_plus; reflexivity).
  set (Q0 := inject_Z q) in *.
  set (r := (be - 4 * Q0)%Q) in *.
  assert (Hbe' : (be == 4 * Q0 + r)%Q) by (unfold r; ring).
  assert (Hc : (current_time == start + (4 * Q0 + r) * beat_interval)%Q).
  { rewrite <- Hbe'. lra. }
  destruct (Qle_bool (r + 1) 1) eqn:E1.
  - apply Qle_bool_iff in E1. assert (Hr : (r == 0)%Q) by lra.
    set (t := (start + (inject_Z (q * 4 + 1) - 1) * beat_interval)%Q).
    assert (Ht : (t == current_time)%Q).
    { unfold t. rewrite Hq1, Hc, Hr. ring. }
    destruct (Qle_bool t current_time) eqn:E2.
    + split; [lra|]. split; [lra|]. exists (q + 1).
      rewrite inject_Z_plus. fold Q0. change (inject_Z 1) with 1%Q.
      rewrite Ht, Hc, Hr. ring.
    + apply Qle_bool_false_iff in E2. lra.
  - apply Qle_bool_false_iff in E1.
    set (t := (start + (inject_Z ((q + 1) * 4 + 1) - 1) * beat_interval)%Q).
    assert (Ht : (t == start + (4 * Q0 + 4) * beat_interval)%Q).
    { unfold t. rewrite Hq2. ring. }
    assert (Hgap : (t - current_time == (4 - r) * beat_interval)%Q).
    { rewrite Ht, Hc. ring. }
    assert (Hpos : (0 < (4 - r) * beat_interval)%Q) by nra.
    assert (Hle : ((4 - r) * beat_interval <= 4 * beat_interval)%Q) by nra.
    destruct (Qle_bool t current_time) eqn:E2.
    + apply Qle_bool_iff in E2. lra.
    + split; [lra|]. split; [lra|]. exists (q + 1).
      rewrite inject_Z_plus. fold Q0. change (inject_Z 1) with 1%Q.
      rewrite Ht. ring.
Qed.

Lemma manager_downbeat_is_strictly_ahead_witness :
  let d := _calculate_next_downbeat (Some 100%Q) (1 # 2) 104 in
  (104 < d)%Q /\ (d <= 104 + 4 * (1 # 2))%Q /\
  exists measures : Z, (d - 100 == inject_Z measures * (4 * (1 # 2)))%Q.
Proof.
  apply (manager_downbeat_is_strictly_ahead 100 (1 # 2) 104).
  - intros H. discriminate H.
  - reflexivity.
Defined.

End ListeningMoreFacts.
